(** * knowledge-loop: the tracking-and-synthesis lifecycle engine

    A shallow embedding of the record stores (escalation-tracker.js,
    answer-tracker.js), the document block matcher (notion.js), the
    pending-action store and correction-approval flow (dm-handler.js) and
    the approval-request step of the periodic job (jobs.js), followed by
    the properties stated about them.

    Conventions of the embedding.
    - A timestamp is the number of milliseconds since the epoch, a [Z]:
      the source stores [new Date(..).toISOString()] and compares
      [new Date(iso)] values, which is the comparison of these numbers.
      [Date.now()] is an argument [now] of every operation that reads the
      clock.
    - A JS string is a [string] whose characters are code units below 256.
    - An optional field ([undefined] or [null] in the source) is an
      [option]; [x || y] on such fields is [or_else].
    - The stores write their collection to disk after each mutation
      ([saveEscalations], [saveFaqAnswers], [savePendingDms]); the
      embedding keeps the in-memory collection, which is what every
      operation reads. *)

From Stdlib Require Import ZArith QArith List String Ascii Bool Lia.
From stdpp Require Import gmap strings list fin_maps.

Import ListNotations.
Local Open Scope string_scope.
Local Open Scope Z_scope.

(** ** JS values shared by the modules *)

Module Js.

(** [a || b] on optional values whose present values are truthy. *)
Definition or_else {A : Type} (a b : option A) : option A :=
  match a with
  | Some x => Some x
  | None => b
  end.

(** Truthiness of an optional string: [null], [undefined] and the empty
    string are falsy. *)
Definition truthy (o : option string) : bool :=
  match o with
  | Some s => negb (String.eqb s "")
  | None => false
  end.

(** [arr.find(p)] followed by a mutation of the object found: the first
    element that satisfies [p] is replaced by its image. *)
Fixpoint update_first {A : Type} (p : A -> bool) (f : A -> A) (l : list A) : list A :=
  match l with
  | [] => []
  | x :: r => if p x then f x :: r else x :: update_first p f r
  end.

(** [arr.includes(x)] on an array of strings. *)
Definition includes_str (l : list string) (x : string) : bool :=
  existsb (String.eqb x) l.

Definition days_ms (d : Z) : Z := d * 24 * 60 * 60 * 1000.

(** The result of a call that may throw (or of a promise that may
    reject). *)
Inductive outcome (A : Type) : Type :=
  | Returns (a : A)
  | Throws (message : string).
Arguments Returns {A} a.
Arguments Throws {A} message.

End Js.

(** ** escalation-tracker.js *)

Module Escalation.

Inductive status : Type :=
  | awaiting_response
  | ready_to_synthesize
  | completed
  | skipped.

(** The string stored in the [status] field; the source compares it with
    string literals. *)
Definition status_name (s : status) : string :=
  match s with
  | awaiting_response => "awaiting_response"
  | ready_to_synthesize => "ready_to_synthesize"
  | completed => "completed"
  | skipped => "skipped"
  end.

(** [e.status === lit] *)
Definition status_is (s : status) (lit : string) : bool :=
  String.eqb (status_name s) lit.

Record escalation : Type := mkEscalation {
  id : string;
  channel : string;
  threadTs : string;
  messageTs : string;
  productAreaId : string;
  originalQuestion : string;
  ownerUserIds : list string;
  escalatedAt : Z;
  status_of : status;
  firstResponseAt : option Z;
  synthesizeAfter : option Z;
  completedAt : option Z;
  skippedAt : option Z;
  faqUrl : option string;
  skipReason : option string
}.

Definition store : Type := list escalation.

Definition has_id (i : string) (e : escalation) : bool := String.eqb (id e) i.

Definition getEscalationById (i : string) (s : store) : option escalation :=
  find (has_id i) s.

Definition set_ready (now delay : Z) (e : escalation) : escalation :=
  {| id := id e; channel := channel e; threadTs := threadTs e;
     messageTs := messageTs e; productAreaId := productAreaId e;
     originalQuestion := originalQuestion e; ownerUserIds := ownerUserIds e;
     escalatedAt := escalatedAt e;
     status_of := ready_to_synthesize;
     firstResponseAt := Some now;
     synthesizeAfter := Some (now + delay);
     completedAt := completedAt e; skippedAt := skippedAt e;
     faqUrl := faqUrl e; skipReason := skipReason e |}.

Definition set_completed (now : Z) (url : option string) (e : escalation) : escalation :=
  {| id := id e; channel := channel e; threadTs := threadTs e;
     messageTs := messageTs e; productAreaId := productAreaId e;
     originalQuestion := originalQuestion e; ownerUserIds := ownerUserIds e;
     escalatedAt := escalatedAt e;
     status_of := completed;
     firstResponseAt := firstResponseAt e;
     synthesizeAfter := synthesizeAfter e;
     completedAt := Some now; skippedAt := skippedAt e;
     faqUrl := if Js.truthy url then url else faqUrl e;
     skipReason := skipReason e |}.

Definition set_skipped (now : Z) (reason : string) (e : escalation) : escalation :=
  {| id := id e; channel := channel e; threadTs := threadTs e;
     messageTs := messageTs e; productAreaId := productAreaId e;
     originalQuestion := originalQuestion e; ownerUserIds := ownerUserIds e;
     escalatedAt := escalatedAt e;
     status_of := skipped;
     firstResponseAt := firstResponseAt e;
     synthesizeAfter := synthesizeAfter e;
     completedAt := completedAt e; skippedAt := Some now;
     faqUrl := faqUrl e;
     skipReason := Some reason |}.

(** [recordOwnerResponse(id, synthesisDelayMs)] *)
Definition recordOwnerResponse (i : string) (synthesisDelayMs now : Z) (s : store)
  : bool * store :=
  match getEscalationById i s with
  | None => (false, s)
  | Some e =>
      if negb (status_is (status_of e) "awaiting_response") then (false, s)
      else (true, Js.update_first (has_id i) (set_ready now synthesisDelayMs) s)
  end.


(** [markEscalationComplete(id, faqUrl = null)] *)
Definition markEscalationComplete (i : string) (url : option string) (now : Z) (s : store)
  : bool * store :=
  match getEscalationById i s with
  | None => (false, s)
  | Some _ => (true, Js.update_first (has_id i) (set_completed now url) s)
  end.

(** [markEscalationSkipped(id, reason = "no_response")] *)
Definition markEscalationSkipped (i : string) (reason : string) (now : Z) (s : store)
  : bool * store :=
  match getEscalationById i s with
  | None => (false, s)
  | Some _ => (true, Js.update_first (has_id i) (set_skipped now reason) s)
  end.

(** The predicate of the [filter] in [cleanupOldEscalations]: the record
    is kept when it returns [true]. *)
Definition cleanup_keeps (cutoff : Z) (e : escalation) : bool :=
  if status_is (status_of e) "pending" then true
  else
    match Js.or_else (Js.or_else (completedAt e) (skippedAt e)) (Some (escalatedAt e)) with
    | Some t => cutoff <? t
    | None => false
    end.

(** [cleanupOldEscalations(maxAgeDays = 30)]: the number of records
    removed and the new collection. *)
Definition cleanupOldEscalations (maxAgeDays now : Z) (s : store) : nat * store :=
  let cutoff := now - Js.days_ms maxAgeDays in
  let s' := List.filter (cleanup_keeps cutoff) s in
  ((length s - length s')%nat, s').

Definition terminal (st : status) : bool :=
  match st with
  | completed | skipped => true
  | _ => false
  end.

(** Stage of a status along awaiting_response, ready_to_synthesize,
    then a terminal status. *)
Definition stage (st : status) : nat :=
  match st with
  | awaiting_response => 0
  | ready_to_synthesize => 1
  | completed | skipped => 2
  end.

(** The store operations that write [status]. *)
Inductive op : Type :=
  | RecordOwnerResponse (i : string) (delayMs : Z)
  | Complete (i : string) (url : option string)
  | Skip (i : string) (reason : string).

Definition apply_op (now : Z) (o : op) (s : store) : store :=
  match o with
  | RecordOwnerResponse i d => snd (recordOwnerResponse i d now s)
  | Complete i u => snd (markEscalationComplete i u now s)
  | Skip i r => snd (markEscalationSkipped i r now s)
  end.

(** A sequence of operations, each with the clock reading at its call. *)
Fixpoint run (ops : list (Z * op)) (s : store) : store :=
  match ops with
  | [] => s
  | (now, o) :: r => run r (apply_op now o s)
  end.

(** The fields [trackEscalation] receives. *)
Record new_escalation : Type := mkNewEscalation {
  new_channel : string;
  new_threadTs : string;
  new_messageTs : string;
  new_productAreaId : string;
  new_originalQuestion : string;
  new_ownerUserIds : list string
}.

(** [trackEscalation({ channel, threadTs, ... })]; [new_id] is the
    identifier [generateEscalationId()] produced. The result is the new
    record and the collection with it pushed. *)
Definition trackEscalation (new_id : string) (n : new_escalation) (now : Z) (s : store)
  : escalation * store :=
  let e :=
    {| id := new_id; channel := new_channel n; threadTs := new_threadTs n;
       messageTs := new_messageTs n; productAreaId := new_productAreaId n;
       originalQuestion := new_originalQuestion n;
       ownerUserIds := new_ownerUserIds n;
       escalatedAt := now; status_of := awaiting_response;
       firstResponseAt := None; synthesizeAfter := None;
       completedAt := None; skippedAt := None; faqUrl := None; skipReason := None |} in
  (e, (s ++ [e])%list).

(** [getEscalationsAwaitingResponse()] *)
Definition getEscalationsAwaitingResponse (s : store) : list escalation :=
  List.filter (fun e => status_is (status_of e) "awaiting_response") s.

(** [e.status === "awaiting_response" || e.status === "ready_to_synthesize"] *)
Definition is_active (e : escalation) : bool :=
  status_is (status_of e) "awaiting_response"
  || status_is (status_of e) "ready_to_synthesize".

(** [getAllActiveEscalations()] *)
Definition getAllActiveEscalations (s : store) : list escalation :=
  List.filter is_active s.

(** [getEscalationByThread(channel, threadTs)] *)
Definition getEscalationByThread (ch ts : string) (s : store) : option escalation :=
  find (fun e => String.eqb (channel e) ch && String.eqb (threadTs e) ts
                 && status_is (status_of e) "awaiting_response") s.

(** [getActiveEscalationByThread(channel, threadTs)] *)
Definition getActiveEscalationByThread (ch ts : string) (s : store) : option escalation :=
  find (fun e => String.eqb (channel e) ch && String.eqb (threadTs e) ts && is_active e) s.

End Escalation.

(** ** answer-tracker.js *)

Module Answer.

Inductive status : Type :=
  | active
  | pending_correction
  | corrected
  | processed.

Definition status_name (s : status) : string :=
  match s with
  | active => "active"
  | pending_correction => "pending_correction"
  | corrected => "corrected"
  | processed => "processed"
  end.

(** [a.status === lit] *)
Definition status_is (s : status) (lit : string) : bool :=
  String.eqb (status_name s) lit.

(** The [processInfo] objects the periodic job passes. *)
Record process_info : Type := mkProcessInfo {
  reason : string;
  process_rationale : option string
}.

(** The [correctionInfo] object the periodic job passes. *)
Record correction_info : Type := mkCorrectionInfo {
  correctedBy : list string;
  correctedContent : string;
  suggestedUpdate : string;
  rationale : string
}.

Record answer : Type := mkAnswer {
  id : string;
  channel : string;
  threadTs : string;
  messageTs : string;
  productAreaId : string;
  originalQuestion : string;
  botAnswer : string;
  evidence : list string;
  ownerUserIds : list string;
  kbSourcePageIds : list string;
  answeredAt : Z;
  status_of : status;
  respondingOwnerIds : option (list string);
  firstResponseAt : option Z;
  processAfter : option Z;
  processedAt : option Z;
  processInfo : option process_info;
  correctedAt : option Z;
  correctionInfo : option correction_info
}.

Definition store : Type := list answer.

Definition has_id (i : string) (a : answer) : bool := String.eqb (id a) i.

Definition getFaqAnswerById (i : string) (s : store) : option answer :=
  find (has_id i) s.

(** The responder array, a missing one read as the empty array
    ([if (!answer.respondingOwnerIds) answer.respondingOwnerIds = []]). *)
Definition responders (a : answer) : list string :=
  match respondingOwnerIds a with
  | Some l => l
  | None => []
  end.

(** [if (!ids.includes(userId)) ids.push(userId)] *)
Definition push_new (userId : string) (l : list string) : list string :=
  if Js.includes_str l userId then l else l ++ [userId].

(** The body of [recordCorrectionResponse] on the record found, once the
    terminal guard has been passed. *)
Definition record_response (userId : string) (delayMs now : Z) (a : answer) : answer :=
  let started := status_is (status_of a) "active" in
  {| id := id a; channel := channel a; threadTs := threadTs a;
     messageTs := messageTs a; productAreaId := productAreaId a;
     originalQuestion := originalQuestion a; botAnswer := botAnswer a;
     evidence := evidence a; ownerUserIds := ownerUserIds a;
     kbSourcePageIds := kbSourcePageIds a; answeredAt := answeredAt a;
     status_of := if started then pending_correction else status_of a;
     respondingOwnerIds := Some (push_new userId (responders a));
     firstResponseAt := if started then Some now else firstResponseAt a;
     processAfter := if started then Some (now + delayMs) else processAfter a;
     processedAt := processedAt a; processInfo := processInfo a;
     correctedAt := correctedAt a; correctionInfo := correctionInfo a |}.

(** [recordCorrectionResponse(id, userId, delayMs)] *)
Definition recordCorrectionResponse (i userId : string) (delayMs now : Z) (s : store)
  : bool * store :=
  match getFaqAnswerById i s with
  | None => (false, s)
  | Some a =>
      if status_is (status_of a) "corrected" || status_is (status_of a) "processed"
      then (false, s)
      else (true, Js.update_first (has_id i) (record_response userId delayMs now) s)
  end.

(** [getAnswersReadyToProcess()] *)
Definition getAnswersReadyToProcess (now : Z) (s : store) : list answer :=
  List.filter
    (fun a => status_is (status_of a) "pending_correction"
              && match processAfter a with
                 | Some t => t <=? now
                 | None => false
                 end)
    s.

Definition set_processed (now : Z) (info : process_info) (a : answer) : answer :=
  {| id := id a; channel := channel a; threadTs := threadTs a;
     messageTs := messageTs a; productAreaId := productAreaId a;
     originalQuestion := originalQuestion a; botAnswer := botAnswer a;
     evidence := evidence a; ownerUserIds := ownerUserIds a;
     kbSourcePageIds := kbSourcePageIds a; answeredAt := answeredAt a;
     status_of := processed;
     respondingOwnerIds := respondingOwnerIds a;
     firstResponseAt := firstResponseAt a;
     processAfter := processAfter a;
     processedAt := Some now; processInfo := Some info;
     correctedAt := correctedAt a; correctionInfo := correctionInfo a |}.

Definition set_corrected (now : Z) (info : correction_info) (a : answer) : answer :=
  {| id := id a; channel := channel a; threadTs := threadTs a;
     messageTs := messageTs a; productAreaId := productAreaId a;
     originalQuestion := originalQuestion a; botAnswer := botAnswer a;
     evidence := evidence a; ownerUserIds := ownerUserIds a;
     kbSourcePageIds := kbSourcePageIds a; answeredAt := answeredAt a;
     status_of := corrected;
     respondingOwnerIds := respondingOwnerIds a;
     firstResponseAt := firstResponseAt a;
     processAfter := processAfter a;
     processedAt := processedAt a; processInfo := processInfo a;
     correctedAt := Some now; correctionInfo := Some info |}.

(** [markAnswerProcessed(id, processInfo)] *)
Definition markAnswerProcessed (i : string) (info : process_info) (now : Z) (s : store)
  : bool * store :=
  match getFaqAnswerById i s with
  | None => (false, s)
  | Some _ => (true, Js.update_first (has_id i) (set_processed now info) s)
  end.

(** [markAnswerCorrected(id, correctionInfo)] *)
Definition markAnswerCorrected (i : string) (info : correction_info) (now : Z) (s : store)
  : bool * store :=
  match getFaqAnswerById i s with
  | None => (false, s)
  | Some _ => (true, Js.update_first (has_id i) (set_corrected now info) s)
  end.

(** The predicate of the [filter] in [cleanupOldFaqAnswers]. *)
Definition cleanup_keeps (cutoff : Z) (a : answer) : bool :=
  if status_is (status_of a) "active" || status_is (status_of a) "pending_correction"
  then true
  else
    match Js.or_else (Js.or_else (correctedAt a) (processedAt a)) (Some (answeredAt a)) with
    | Some t => cutoff <? t
    | None => false
    end.

(** [cleanupOldFaqAnswers(maxAgeDays = 30)] *)
Definition cleanupOldFaqAnswers (maxAgeDays now : Z) (s : store) : nat * store :=
  let cutoff := now - Js.days_ms maxAgeDays in
  let s' := List.filter (cleanup_keeps cutoff) s in
  ((length s - length s')%nat, s').

Definition terminal (st : status) : bool :=
  match st with
  | corrected | processed => true
  | _ => false
  end.

Definition stage (st : status) : nat :=
  match st with
  | active => 0
  | pending_correction => 1
  | corrected | processed => 2
  end.

Inductive op : Type :=
  | RecordCorrectionResponse (i userId : string) (delayMs : Z)
  | MarkProcessed (i : string) (info : process_info)
  | MarkCorrected (i : string) (info : correction_info).

Definition apply_op (now : Z) (o : op) (s : store) : store :=
  match o with
  | RecordCorrectionResponse i u d => snd (recordCorrectionResponse i u d now s)
  | MarkProcessed i info => snd (markAnswerProcessed i info now s)
  | MarkCorrected i info => snd (markAnswerCorrected i info now s)
  end.

Fixpoint run (ops : list (Z * op)) (s : store) : store :=
  match ops with
  | [] => s
  | (now, o) :: r => run r (apply_op now o s)
  end.

(** The fields [trackFaqAnswer] receives; a missing array is [None]. *)
Record new_answer : Type := mkNewAnswer {
  new_channel : string;
  new_threadTs : string;
  new_messageTs : string;
  new_productAreaId : string;
  new_originalQuestion : string;
  new_botAnswer : string;
  new_evidence : option (list string);
  new_ownerUserIds : option (list string);
  new_kbSourcePageIds : option (list string)
}.

Definition or_empty {A : Type} (o : option (list A)) : list A :=
  match o with
  | Some l => l
  | None => []
  end.

(** [trackFaqAnswer({ channel, threadTs, ... })]; [new_id] is the
    identifier [generateAnswerId()] produced. *)
Definition trackFaqAnswer (new_id : string) (n : new_answer) (now : Z) (s : store)
  : answer * store :=
  let a :=
    {| id := new_id; channel := new_channel n; threadTs := new_threadTs n;
       messageTs := new_messageTs n; productAreaId := new_productAreaId n;
       originalQuestion := new_originalQuestion n; botAnswer := new_botAnswer n;
       evidence := or_empty (new_evidence n);
       ownerUserIds := or_empty (new_ownerUserIds n);
       kbSourcePageIds := or_empty (new_kbSourcePageIds n);
       answeredAt := now; status_of := active;
       respondingOwnerIds := Some []; firstResponseAt := None; processAfter := None;
       processedAt := None; processInfo := None;
       correctedAt := None; correctionInfo := None |} in
  (a, (s ++ [a])%list).

(** [a.status === "active" || a.status === "pending_correction"] *)
Definition is_active (a : answer) : bool :=
  status_is (status_of a) "active" || status_is (status_of a) "pending_correction".

(** [getActiveFaqAnswerByThread(channel, threadTs)] *)
Definition getActiveFaqAnswerByThread (ch ts : string) (s : store) : option answer :=
  find (fun a => String.eqb (channel a) ch && String.eqb (threadTs a) ts && is_active a) s.

(** [getAllActiveFaqAnswers()] *)
Definition getAllActiveFaqAnswers (s : store) : list answer :=
  List.filter is_active s.

End Answer.

(** ** Strings: the JS string methods the source calls *)

Module Text.

Definition code (c : ascii) : nat := nat_of_ascii c.

(** The characters that [\s] and [trim()] treat as white space, among the
    code units below 256. *)
Definition is_space (c : ascii) : bool :=
  let n := code c in
  ((9 <=? n) && (n <=? 13) || (n =? 32) || (n =? 160))%nat.

Definition to_lower (c : ascii) : ascii :=
  let n := code c in
  if ((65 <=? n) && (n <=? 90)
      || (192 <=? n) && (n <=? 222) && negb (n =? 215))%nat
  then ascii_of_nat (n + 32)
  else c.

(** [s.toLowerCase()] *)
Fixpoint toLowerCase (s : string) : string :=
  match s with
  | EmptyString => EmptyString
  | String c r => String (to_lower c) (toLowerCase r)
  end.

(** [s.replace(/\s+/g, " ")]; [in_run] tells that the previous character
    belonged to the run of white space being replaced. *)
Fixpoint collapse_from (in_run : bool) (s : string) : string :=
  match s with
  | EmptyString => EmptyString
  | String c r =>
      if is_space c
      then (if in_run then collapse_from true r else String " " (collapse_from true r))
      else String c (collapse_from false r)
  end.

Definition collapse (s : string) : string := collapse_from false s.

Fixpoint trimStart (s : string) : string :=
  match s with
  | EmptyString => EmptyString
  | String c r => if is_space c then trimStart r else s
  end.

Fixpoint trimEnd (s : string) : string :=
  match s with
  | EmptyString => EmptyString
  | String c r =>
      match trimEnd r with
      | EmptyString => if is_space c then EmptyString else String c EmptyString
      | r' => String c r'
      end
  end.

(** [s.trim()] *)
Definition trim (s : string) : string := trimEnd (trimStart s).

(** [s.includes(p)] *)
Fixpoint includes (s p : string) : bool :=
  String.prefix p s
  || match s with
     | EmptyString => false
     | String _ r => includes r p
     end.

(** [s.replace(/-/g, "")] *)
Fixpoint remove_dashes (s : string) : string :=
  match s with
  | EmptyString => EmptyString
  | String c r => if Ascii.eqb c "-" then remove_dashes r else String c (remove_dashes r)
  end.

Definition nonempty (s : string) : bool := negb (String.eqb s "").

(** A word character of a regular expression, [\w]. *)
Definition is_word (c : ascii) : bool :=
  let n := code c in
  ((48 <=? n) && (n <=? 57) || (65 <=? n) && (n <=? 90)
   || (97 <=? n) && (n <=? 122) || (n =? 95))%nat.

(** [/[a-f0-9]/i] *)
Definition is_hex (c : ascii) : bool :=
  let n := code c in
  ((48 <=? n) && (n <=? 57) || (65 <=? n) && (n <=? 70)
   || (97 <=? n) && (n <=? 102))%nat.

(** [n] hexadecimal digits at the head of [s]: the digits and the rest. *)
Fixpoint take_hex (n : nat) (s : string) : option (string * string) :=
  match n with
  | O => Some (EmptyString, s)
  | S k =>
      match s with
      | EmptyString => None
      | String c r =>
          if is_hex c
          then match take_hex k r with
               | Some (h, rest) => Some (String c h, rest)
               | None => None
               end
          else None
      end
  end.

(** A dash at the head of [s]: the rest. *)
Definition take_dash (s : string) : option string :=
  match s with
  | String c r => if Ascii.eqb c "-" then Some r else None
  | EmptyString => None
  end.

(** [[a-f0-9]{8}-[a-f0-9]{4}-[a-f0-9]{4}-[a-f0-9]{4}-[a-f0-9]{12}] at the
    head of [s]: the text matched and the rest. *)
Definition take_uuid (s : string) : option (string * string) :=
  match take_hex 8 s with
  | Some (a, r1) =>
    match take_dash r1 with
    | Some r1' =>
      match take_hex 4 r1' with
      | Some (b, r2) =>
        match take_dash r2 with
        | Some r2' =>
          match take_hex 4 r2' with
          | Some (c, r3) =>
            match take_dash r3 with
            | Some r3' =>
              match take_hex 4 r3' with
              | Some (d, r4) =>
                match take_dash r4 with
                | Some r4' =>
                  match take_hex 12 r4' with
                  | Some (e, rest) =>
                      Some (a ++ "-" ++ b ++ "-" ++ c ++ "-" ++ d ++ "-" ++ e, rest)%string
                  | None => None
                  end
                | None => None
                end
              | None => None
              end
            | None => None
            end
          | None => None
          end
        | None => None
        end
      | None => None
      end
    | None => None
    end
  | None => None
  end.

(** [(?:\?|$)] at the head of [s]. *)
Definition query_or_end (s : string) : bool :=
  match s with
  | EmptyString => true
  | String c _ => Ascii.eqb c "?"
  end.

(** Leftmost match of [/([a-f0-9]{32})(?:\?|$)/i] in [s]: its group. *)
Fixpoint search_hex32 (s : string) : option string :=
  match take_hex 32 s with
  | Some (h, rest) =>
      if query_or_end rest then Some h
      else match s with
           | EmptyString => None
           | String _ r => search_hex32 r
           end
  | None =>
      match s with
      | EmptyString => None
      | String _ r => search_hex32 r
      end
  end.

(** Leftmost match of the UUID pattern in [s]: its group. *)
Fixpoint search_uuid (s : string) : option string :=
  match take_uuid s with
  | Some (u, _) => Some u
  | None =>
      match s with
      | EmptyString => None
      | String _ r => search_uuid r
      end
  end.

(** Leftmost match of [/-([a-f0-9]{32})(?:\?|$)/i] in [s]: its group. *)
Fixpoint search_dash_hex32 (s : string) : option string :=
  match s with
  | EmptyString => None
  | String c r =>
      if Ascii.eqb c "-"
      then match take_hex 32 r with
           | Some (h, rest) => if query_or_end rest then Some h else search_dash_hex32 r
           | None => search_dash_hex32 r
           end
      else search_dash_hex32 r
  end.

(** Every character of [s] satisfies [p]. *)
Fixpoint all_chars (p : ascii -> bool) (s : string) : bool :=
  match s with
  | EmptyString => true
  | String c r => p c && all_chars p r
  end.

(** The characters [.] matches in a regular expression without flags:
    all but the line terminators. *)
Definition is_dot (c : ascii) : bool :=
  let n := code c in
  negb ((n =? 10) || (n =? 13))%nat.

(** [.{n}] at the head of [s]: the text matched and the rest. *)
Fixpoint take_dot (n : nat) (s : string) : option (string * string) :=
  match n with
  | O => Some (EmptyString, s)
  | S k =>
      match s with
      | EmptyString => None
      | String c r =>
          if is_dot c
          then match take_dot k r with
               | Some (h, rest) => Some (String c h, rest)
               | None => None
               end
          else None
      end
  end.

(** White space in [s] comes as single spaces only; [in_run] tells that
    the character before [s] is white space. This is the form
    [replace(/\s+/g, " ")] leaves a string in. *)
Fixpoint single_spaced (in_run : bool) (s : string) : bool :=
  match s with
  | EmptyString => true
  | String c r =>
      if is_space c
      then negb in_run && Ascii.eqb c " " && single_spaced true r
      else single_spaced false r
  end.

End Text.

(** ** notion.js: the document block matcher *)

Module Notion.

Import Js.

(** [extractPageId(urlOrId)] *)
Definition extractPageId (urlOrId : string) : option string :=
  if String.eqb urlOrId "" then None
  else
    let str := Text.trim urlOrId in
    match Text.take_hex 32 str with
    | Some (h, EmptyString) => Some h
    | _ =>
      match Text.take_uuid str with
      | Some (u, EmptyString) => Some (Text.remove_dashes u)
      | _ =>
        match Text.search_hex32 str with
        | Some h => Some h
        | None =>
          match Text.search_uuid str with
          | Some u => Some (Text.remove_dashes u)
          | None => Text.search_dash_hex32 str
          end
        end
      end
    end.

(** [normalizeText(text)] *)
Definition normalizeText (text : string) : string :=
  Text.trim (Text.collapse (Text.toLowerCase text)).

(** A page or a block of the document store, as the API presents it to
    [findBlockByContent]: its identifier, the text [getBlockText] reads
    from it, its [has_children] flag, and what
    [notion.blocks.children.list] answers for it (all pages of the
    listing together): the child blocks, or an error. *)
#[warnings="-register-all"]
Inductive node : Type :=
  mkNode (node_id : string) (node_text : string) (has_children : bool)
         (list_throws : bool) (children : list node).

Definition node_id (n : node) : string :=
  match n with mkNode i _ _ _ _ => i end.
Definition node_text (n : node) : string :=
  match n with mkNode _ t _ _ _ => t end.
Definition has_children (n : node) : bool :=
  match n with mkNode _ _ h _ _ => h end.
Definition list_throws (n : node) : bool :=
  match n with mkNode _ _ _ f _ => f end.
Definition children (n : node) : list node :=
  match n with mkNode _ _ _ _ c => c end.

(** The value [findBlockByContent] returns when it finds a block. *)
Record block_info : Type := mkBlockInfo {
  blockId : string;
  blockUrl : string;
  matchedText : string
}.

(** The local [bestMatch] object. *)
Record best_match : Type := mkBest {
  best_blockId : string;
  best_matchedText : string
}.

(** [searchText.length / normalizedBlockText.length]. The quotient of two
    string lengths and the constant 0.9 are compared as rationals: for
    lengths below 2^26 the double-precision quotients compare exactly as
    the rationals do, and the double nearest to 9/10 is the quotient 9/10
    computes. *)
Definition score (searchText normalizedBlockText : string) : Q :=
  Z.of_nat (String.length searchText) # Pos.of_nat (String.length normalizedBlockText).

Definition childScore : Q := 9 # 10.

(** [a > b] *)
Definition gtQ (a b : Q) : bool := negb (Qle_bool a b).

(** The inner loop over the normalized snippets for one block. *)
Fixpoint match_snippets (b : node) (normalizedBlockText : string)
    (snippets : list string) (best : option best_match * Q) : option best_match * Q :=
  match snippets with
  | [] => best
  | searchText :: rest =>
      let best' :=
        if Text.includes normalizedBlockText searchText
        then
          let sc := score searchText normalizedBlockText in
          if gtQ sc (snd best)
          then (Some (mkBest (node_id b) (node_text b)), sc)
          else best
        else best
      in match_snippets b normalizedBlockText rest best'
  end.

(** [searchTexts.map(normalizeText).filter(Boolean)] *)
Definition normalize_all (searchTexts : list string) : list string :=
  List.filter Text.nonempty (List.map normalizeText searchTexts).

(** The loop over the blocks of a listing. [search_children] is the
    recursive call [findBlockByContent(block.id, searchTexts, null)];
    whatever it throws is caught. *)
Fixpoint scan_blocks (search_children : node -> outcome (option block_info))
    (normalizedSearchTexts : list string) (blocks : list node)
    (best : option best_match * Q) : option best_match * Q :=
  match blocks with
  | [] => best
  | block :: rest =>
      if negb (Text.nonempty (node_text block))
      then scan_blocks search_children normalizedSearchTexts rest best
      else
        let best1 :=
          match_snippets block (normalizeText (node_text block))
                         normalizedSearchTexts best in
        let best2 :=
          if has_children block
          then
            match search_children block with
            | Returns (Some childResult) =>
                if gtQ childScore (snd best1)
                then (Some (mkBest (node_id block) (matchedText childResult)), childScore)
                else best1
            | _ => best1
            end
          else best1
        in scan_blocks search_children normalizedSearchTexts rest best2
  end.

(** [findBlockByContent(pageId, searchTexts)], where [n] is the page or
    block that [pageId] names. The recursive call on [block.id] is the
    call on the child node; the recursion ends because the document is a
    finite tree. *)
Fixpoint findBlockByContent (n : node) (searchTexts : list string)
  : outcome (option block_info) :=
  match n with
  | mkNode pageId _ _ throws blocks =>
    match extractPageId pageId with
    | None => Throws ("Invalid page ID: " ++ pageId)
    | Some normalizedPageId =>
      match searchTexts with
      | [] => Returns None
      | _ =>
        let normalizedSearchTexts := normalize_all searchTexts in
        match normalizedSearchTexts with
        | [] => Returns None
        | _ =>
          if throws then Returns None
          else
            let best :=
              scan_blocks (fun block => findBlockByContent block searchTexts)
                          normalizedSearchTexts blocks (None, 0%Q) in
            match fst best with
            | None => Returns None
            | Some bm =>
                Returns (Some
                  {| blockId := best_blockId bm;
                     blockUrl := "https://notion.so/" ++ Text.remove_dashes normalizedPageId
                                  ++ "#" ++ Text.remove_dashes (best_blockId bm);
                     matchedText := best_matchedText bm |})
            end
        end
      end
    end
  end.






(** What the loop does with one block. *)
Definition after_block (search_children : node -> outcome (option block_info))
    (snippets : list string) (block : node) (best : option best_match * Q)
  : option best_match * Q :=
  if negb (Text.nonempty (node_text block)) then best
  else
    let best1 := match_snippets block (normalizeText (node_text block)) snippets best in
    if has_children block
    then match search_children block with
         | Returns (Some childResult) =>
             if gtQ childScore (snd best1)
             then (Some (mkBest (node_id block) (matchedText childResult)), childScore)
             else best1
         | _ => best1
         end
    else best1.



(** [/(.{8})(.{4})(.{4})(.{4})(.{12})/] at the head of [s]: the
    replacement ["$1-$2-$3-$4-$5"] and the rest. *)
Definition match_groups (s : string) : option (string * string) :=
  match Text.take_dot 8 s with
  | Some (a, r1) =>
    match Text.take_dot 4 r1 with
    | Some (b, r2) =>
      match Text.take_dot 4 r2 with
      | Some (c, r3) =>
        match Text.take_dot 4 r3 with
        | Some (d, r4) =>
          match Text.take_dot 12 r4 with
          | Some (e, rest) =>
              Some (a ++ "-" ++ b ++ "-" ++ c ++ "-" ++ d ++ "-" ++ e, rest)%string
          | None => None
          end
        | None => None
        end
      | None => None
      end
    | None => None
    end
  | None => None
  end.

(** [s.replace(/(.{8})(.{4})(.{4})(.{4})(.{12})/, "$1-$2-$3-$4-$5")]: the
    leftmost match is replaced, the text around it is kept. *)
Fixpoint insert_dashes (s : string) : string :=
  match match_groups s with
  | Some (dashed, rest) => (dashed ++ rest)%string
  | None =>
      match s with
      | EmptyString => EmptyString
      | String c r => String c (insert_dashes r)
      end
  end.

(** The [normalizedBlockId] that [addCommentToBlock] passes to the
    comments API. *)
Definition normalizedBlockId (blockId : string) : string :=
  if Text.includes blockId "-" then blockId else insert_dashes blockId.

(** The five groups of a dashed identifier. *)
Definition dashed (a b c d e : string) : string :=
  (a ++ "-" ++ b ++ "-" ++ c ++ "-" ++ d ++ "-" ++ e)%string.

Definition groups (a b c d e : string) : Prop :=
  (String.length a = 8 /\ String.length b = 4 /\ String.length c = 4
   /\ String.length d = 4 /\ String.length e = 12)%nat
  /\ Text.all_chars Text.is_hex a = true /\ Text.all_chars Text.is_hex b = true
  /\ Text.all_chars Text.is_hex c = true /\ Text.all_chars Text.is_hex d = true
  /\ Text.all_chars Text.is_hex e = true.

End Notion.

(** ** dm-handler.js: pending actions and the correction-approval flow *)

Module Dm.

Import Js.

Definition PENDING_DM_EXPIRY_MS : Z := 10 * 60 * 1000.

(** *** The fixed lexical patterns *)

(** [s] without its prefix [p], when it starts with it. *)
Fixpoint drop_prefix (p s : string) : option string :=
  match p with
  | EmptyString => Some s
  | String a p' =>
      match s with
      | EmptyString => None
      | String b s' => if Ascii.eqb a b then drop_prefix p' s' else None
      end
  end.

(** The same with letters compared without case, for a lower-case [p]. *)
Fixpoint drop_prefix_ci (p s : string) : option string :=
  match p with
  | EmptyString => Some s
  | String a p' =>
      match s with
      | EmptyString => None
      | String b s' => if Ascii.eqb a (Text.to_lower b) then drop_prefix_ci p' s' else None
      end
  end.

(** [\b] after a word character: the end of the text or a character that
    is not a word character. *)
Definition boundary_before (rest : string) : bool :=
  match rest with
  | EmptyString => true
  | String c _ => negb (Text.is_word c)
  end.

(** [/^(alt1|alt2|...)\b/] on [s]; every alternative ends with a letter. *)
Definition head_word (alts : list string) (s : string) : bool :=
  existsb
    (fun alt =>
       match drop_prefix alt s with
       | Some rest => boundary_before rest
       | None => false
       end)
    alts.

(** [/\b(alt1|alt2|...)\b/] anywhere in [s]; [prev_word] tells that the
    character before [s] is a word character. *)
Fixpoint some_word (alts : list string) (prev_word : bool) (s : string) : bool :=
  (negb prev_word && head_word alts s)
  || match s with
     | EmptyString => false
     | String c r => some_word alts (Text.is_word c) r
     end.

Definition approval_phrases : list string :=
  ["yes"; "yep"; "yeah"; "yea"; "sure"; "approved"; "lgtm"; "go for it";
   "do it"; "go ahead"; "ship it"; "looks good"; "ok"; "okay"].

Definition rejection_phrases : list string :=
  ["no"; "nope"; "cancel"; "nevermind"; "never mind"; "don't update";
   "stop"; "reject"; "skip"].

Definition cancel_phrases : list string :=
  ["cancel"; "nevermind"; "never mind"; "stop"; "abort"].

(** [text.toLowerCase().trim()] *)
Definition lower_trim (text : string) : string := Text.trim (Text.toLowerCase text).

Definition isApproval (text : string) : bool := head_word approval_phrases (lower_trim text).
Definition isRejection (text : string) : bool := head_word rejection_phrases (lower_trim text).

(** [/\b(cancel|nevermind|never mind|stop|abort)\b/i.test(text)] *)
Definition isCancel (text : string) : bool :=
  some_word cancel_phrases false (Text.toLowerCase text).

(** The longest prefix of characters that are neither white space nor
    [>], and the rest. *)
Fixpoint url_run (s : string) : string * string :=
  match s with
  | EmptyString => (EmptyString, EmptyString)
  | String c r =>
      if Text.is_space c || Ascii.eqb c ">" then (EmptyString, s)
      else let '(run, rest) := url_run r in (String c run, rest)
  end.

(** [https?:\/\/[^\s>]+] at the head of [s]: the text matched. *)
Definition url_at (s : string) : option string :=
  match drop_prefix_ci "http" s with
  | None => None
  | Some r =>
      let r' := match drop_prefix_ci "s" r with Some r2 => r2 | None => r end in
      match drop_prefix "://" r' with
      | None => None
      | Some r3 =>
          match url_run r3 with
          | (EmptyString, _) => None
          | (_, rest) => Some (String.substring 0 (String.length s - String.length rest) s)
          end
      end
  end.

(** [text.match(/https?:\/\/[^\s>]+|[a-f0-9]{32}/i)]: the leftmost match. *)
Fixpoint urlMatch (s : string) : option string :=
  match url_at s with
  | Some m => Some m
  | None =>
      match Text.take_hex 32 s with
      | Some (h, _) => Some h
      | None =>
          match s with
          | EmptyString => None
          | String _ r => urlMatch r
          end
      end
  end.

(** *** Pending actions *)

(** [partialData] of a [faq_correction_approval] pending action. *)
Record correction_data : Type := mkCorrection {
  correctionId : string;
  blockId : option string;
  blockUrl : option string;
  notionPageId : string;
  subPageId : option string;
  suggestedUpdate : string;
  originalQuestion : string;
  areaName : string;
  channelName : option string
}.

(** [partialData] of an [add_knowledge_area] pending action. *)
Record area_data : Type := mkAreaData {
  name : string;
  description : string;
  keywords : list string;
  leadUserIds : list string;
  leadNames : list string
}.

(** The [intent] of a pending action with its [partialData]. *)
Inductive pending_data : Type :=
  | AddKnowledgeArea (d : area_data)
  | FaqCorrectionApproval (d : correction_data)
  | OtherIntent (intent : string).

Record pending : Type := mkPending {
  data : pending_data;
  expiresAt : Z
}.

(** [pending.intent === "faq_correction_approval" &&
     pending.partialData?.correctionId === correctionId] *)
Definition references (cid : string) (p : pending) : bool :=
  match data p with
  | FaqCorrectionApproval d => String.eqb (correctionId d) cid
  | _ => false
  end.

(** *** The messages the handler posts *)

Inductive reply : Type :=
  | AlreadyApplied          (* "This FAQ update was already applied by another lead" *)
  | CannotAutoApply         (* "I couldn't locate the specific FAQ block in Notion" *)
  | Done (blockUrl : string)   (* "Done! I've updated the ... FAQ entry." *)
  | UpdateError (message : string) (* "I ran into an error updating the FAQ in Notion" *)
  | WontUpdate              (* "Got it, I won't update the FAQ." *)
  | CannotRevise            (* "I couldn't generate a revision from that feedback." *)
  | Revised (text : string) (* "Here's the revised version" *)
  | ReviseError             (* "Sorry, I hit an error trying to revise the suggestion." *)
  | Cancelled               (* "No problem, cancelled!" *)
  | NeedUrl                 (* "I need a Notion page URL to create this knowledge area." *)
  | InvalidUrl              (* "That doesn't look like a valid Notion page URL." *)
  | AreaCreated (name : string) (* "Done! Created knowledge area" *)
  | HandlerError.           (* "Sorry, I hit an error processing your message." *)

(** The calls the handler makes to its collaborators, in order. *)
Inductive effect : Type :=
  | UpdateFaqBlock (correctionId blockId newText : string) (result : outcome string)
  | AddCommentToBlock (blockId : string) (thrown : bool)
  | ReviseSuggestedUpdate (currentSuggestion feedback : string) (result : outcome string)
  | AddKnowledgeAreaCall (name notionPageId : string) (ownerUserIds : list string)
                         (thrown : bool)
  | PostMessage (channel : string) (r : reply) (thrown : bool).

(** The module state: the [pendingDmActions] map, the
    [processedCorrections] set, the page cache of the context, and the
    calls made so far. *)
Record state : Type := mkState {
  pendingDmActions : gmap string pending;
  processedCorrections : gset string;
  notionCache : gset string;
  effects : list effect
}.

(** What the collaborators answer while one message is handled. *)
Record world : Type := mkWorld {
  now : Z;                                   (* Date.now() at the lookup *)
  now_restore : Z;                           (* Date.now() at the re-store after a revision *)
  updateFaqBlock_result : outcome string;
  addCommentToBlock_throws : bool;
  reviseSuggestedUpdate_result : outcome string;
  resolveUsersByName : list string -> list string;
  addKnowledgeArea_throws : bool;
  postMessage_throws : reply -> bool
}.

(** An inbound direct message that passed the listener's filters: its
    sender, its channel and its trimmed text. *)
Record message : Type := mkMessage {
  user : string;
  channel : string;
  text : string
}.

(** *** The handler monad: state, and exceptions that keep the state *)

Definition M (A : Type) : Type := state -> outcome A * state.

Definition ret {A : Type} (a : A) : M A := fun s => (Returns a, s).

Definition throw {A : Type} (e : string) : M A := fun s => (Throws e, s).

Definition bind {A B : Type} (m : M A) (k : A -> M B) : M B :=
  fun s =>
    match m s with
    | (Returns a, s') => k a s'
    | (Throws e, s') => (Throws e, s')
    end.

(** [try { m } catch (err) { h err }] *)
Definition try_catch {A : Type} (m : M A) (h : string -> M A) : M A :=
  fun s =>
    match m s with
    | (Returns a, s') => (Returns a, s')
    | (Throws e, s') => h e s'
    end.

#[global] Instance M_ret : MRet M := @ret.
#[global] Instance M_bind : MBind M := fun A B k m => bind m k.

Definition set_pending (f : gmap string pending -> gmap string pending) : M unit :=
  fun s => (Returns tt,
            {| pendingDmActions := f (pendingDmActions s);
               processedCorrections := processedCorrections s;
               notionCache := notionCache s;
               effects := effects s |}).

Definition emit (e : effect) : M unit :=
  fun s => (Returns tt,
            {| pendingDmActions := pendingDmActions s;
               processedCorrections := processedCorrections s;
               notionCache := notionCache s;
               effects := effects s ++ [e] |}).

(** [getPendingDm(userId)] *)
Definition getPendingDm (userId : string) (now : Z) : M (option pending) :=
  fun s =>
    match pendingDmActions s !! userId with
    | None => (Returns None, s)
    | Some p =>
        if expiresAt p <? now
        then (set_pending (delete userId) ;; ret None) s
        else (Returns (Some p), s)
    end.

(** [setPendingDm(userId, data)] *)
Definition setPendingDm (userId : string) (d : pending_data) (now : Z) : M unit :=
  set_pending (insert userId {| data := d; expiresAt := now + PENDING_DM_EXPIRY_MS |}).

(** [clearPendingDm(userId)] *)
Definition clearPendingDm (userId : string) : M unit :=
  set_pending (delete userId).

(** [clearPendingDmsForCorrection(correctionId)] *)
Definition clearPendingDmsForCorrection (cid : string) : M unit :=
  set_pending (filter (fun kv : string * pending => references cid kv.2 = false)).

(** [processedCorrections.has(correctionId)] *)
Definition hasProcessed (cid : string) : M bool :=
  fun s => (Returns (bool_decide (cid ∈ processedCorrections s)), s).

(** [processedCorrections.add(correctionId)] *)
Definition addProcessed (cid : string) : M unit :=
  fun s => (Returns tt,
            {| pendingDmActions := pendingDmActions s;
               processedCorrections := {[cid]} ∪ processedCorrections s;
               notionCache := notionCache s;
               effects := effects s |}).

(** [notionCache.delete(pageId)] *)
Definition cacheDelete (pageId : string) : M unit :=
  fun s => (Returns tt,
            {| pendingDmActions := pendingDmActions s;
               processedCorrections := processedCorrections s;
               notionCache := notionCache s ∖ {[pageId]};
               effects := effects s |}).

(** [await client.chat.postMessage({ channel, text })] *)
Definition postMessage (w : world) (ch : string) (r : reply) : M unit :=
  emit (PostMessage ch r (postMessage_throws w r)) ;;
  if postMessage_throws w r then throw "postMessage failed" else ret tt.

(** [await updateFaqBlock(blockId, suggestedUpdate)] *)
Definition updateFaqBlock (w : world) (cid blk newText : string) : M string :=
  emit (UpdateFaqBlock cid blk newText (updateFaqBlock_result w)) ;;
  match updateFaqBlock_result w with
  | Returns url => ret url
  | Throws e => throw e
  end.

(** [await addCommentToBlock(blockId, ...)] *)
Definition addCommentToBlock (w : world) (blk : string) : M unit :=
  emit (AddCommentToBlock blk (addCommentToBlock_throws w)) ;;
  if addCommentToBlock_throws w then throw "comment failed" else ret tt.

(** [await reviseSuggestedUpdate(...)] *)
Definition reviseSuggestedUpdate (w : world) (current feedback : string) : M string :=
  emit (ReviseSuggestedUpdate current feedback (reviseSuggestedUpdate_result w)) ;;
  match reviseSuggestedUpdate_result w with
  | Returns t => ret t
  | Throws e => throw e
  end.

(** [await addKnowledgeArea({ name, ..., notionPageId, ownerUserIds })] *)
Definition addKnowledgeArea (w : world) (nm url : string) (owners : list string)
  : M unit :=
  emit (AddKnowledgeAreaCall nm url owners (addKnowledgeArea_throws w)) ;;
  if addKnowledgeArea_throws w then throw "addKnowledgeArea failed" else ret tt.

Definition with_suggestion (d : correction_data) (revised : string) : correction_data :=
  {| correctionId := correctionId d; blockId := blockId d; blockUrl := blockUrl d;
     notionPageId := notionPageId d; subPageId := subPageId d;
     suggestedUpdate := revised;
     originalQuestion := originalQuestion d; areaName := areaName d;
     channelName := channelName d |}.

(** The [add_knowledge_area] branch of [continuePendingDm]. *)
Definition continueAddKnowledgeArea (w : world) (ev : message) (d : area_data) : M unit :=
  match urlMatch (text ev) with
  | None =>
      if isCancel (text ev)
      then clearPendingDm (user ev) ;; postMessage w (channel ev) Cancelled
      else postMessage w (channel ev) NeedUrl
  | Some notionUrl =>
      match Notion.extractPageId notionUrl with
      | None => postMessage w (channel ev) InvalidUrl
      | Some _ =>
          clearPendingDm (user ev) ;;
          let leads :=
            match leadUserIds d, leadNames d with
            | [], _ :: _ => resolveUsersByName w (leadNames d)
            | existing, _ => existing
            end in
          addKnowledgeArea w (name d) notionUrl leads ;;
          postMessage w (channel ev) (AreaCreated (name d))
      end
  end.

(** The [faq_correction_approval] branch of [continuePendingDm]. *)
Definition continueCorrectionApproval (w : world) (ev : message) (d : correction_data)
  : M unit :=
  let cid := correctionId d in
  applied ← hasProcessed cid;
  if applied : bool then
    clearPendingDm (user ev) ;;
    postMessage w (channel ev) AlreadyApplied
  else if isApproval (text ev) then
    match blockId d with
    | Some blk =>
        if Text.nonempty blk then
          try_catch
            (blockUrl ← updateFaqBlock w cid blk (suggestedUpdate d);
             cacheDelete (notionPageId d) ;;
             (match subPageId d with
              | Some sub =>
                  if Text.nonempty sub && negb (String.eqb sub (notionPageId d))
                  then cacheDelete sub
                  else ret tt
              | None => ret tt
              end) ;;
             try_catch (addCommentToBlock w blk) (fun _ => ret tt) ;;
             addProcessed cid ;;
             clearPendingDm (user ev) ;;
             clearPendingDmsForCorrection cid ;;
             postMessage w (channel ev) (Done blockUrl))
            (fun err =>
               postMessage w (channel ev) (UpdateError err) ;;
               clearPendingDm (user ev))
        else
          clearPendingDm (user ev) ;;
          clearPendingDmsForCorrection cid ;;
          postMessage w (channel ev) CannotAutoApply
    | None =>
        clearPendingDm (user ev) ;;
        clearPendingDmsForCorrection cid ;;
        postMessage w (channel ev) CannotAutoApply
    end
  else if isRejection (text ev) then
    clearPendingDm (user ev) ;;
    postMessage w (channel ev) WontUpdate
  else
    try_catch
      (revised ← reviseSuggestedUpdate w (suggestedUpdate d) (text ev);
       if Text.nonempty revised then
         setPendingDm (user ev) (FaqCorrectionApproval (with_suggestion d revised))
                      (now_restore w) ;;
         postMessage w (channel ev) (Revised revised)
       else
         postMessage w (channel ev) CannotRevise)
      (fun _ => postMessage w (channel ev) ReviseError).

(** [continuePendingDm(event, client, text, pending, ctx)] *)
Definition continuePendingDm (w : world) (ev : message) (p : pending) : M unit :=
  match data p with
  | AddKnowledgeArea d => continueAddKnowledgeArea w ev d
  | FaqCorrectionApproval d => continueCorrectionApproval w ev d
  | OtherIntent _ => clearPendingDm (user ev)
  end.

(** The message listener of [registerDmHandler], from the lookup of the
    pending action on. Without a pending action the message goes to the
    intent parser; its handlers never call [updateFaqBlock] and write
    this module's state only through [setPendingDm], which is an event of
    its own below, and the replies they post are not recorded here. *)
Definition onDirectMessage (w : world) (ev : message) : M unit :=
  try_catch
    (pending ← getPendingDm (user ev) (now w);
     match pending with
     | Some p => continuePendingDm w ev p
     | None => ret tt
     end)
    (fun _ => try_catch (postMessage w (channel ev) HandlerError) (fun _ => ret tt)).

(** What happens to the module state: a call of the exported
    [setPendingDm], or an inbound direct message. *)
Inductive event : Type :=
  | SetPending (userId : string) (d : pending_data) (now : Z)
  | DirectMessage (w : world) (ev : message).

Definition step (e : event) (s : state) : state :=
  match e with
  | SetPending u d t => snd (setPendingDm u d t s)
  | DirectMessage w ev => snd (onDirectMessage w ev s)
  end.

(** The events are handled one after the other, each to completion. *)
Fixpoint run (es : list event) (s : state) : state :=
  match es with
  | [] => s
  | e :: r => run r (step e s)
  end.

(** The state of a fresh process with the pending actions [m] loaded from
    disk. *)
Definition initial (m : gmap string pending) : state :=
  {| pendingDmActions := m; processedCorrections := ∅; notionCache := ∅; effects := [] |}.

(** A document mutation for correction [cid]: a call of [updateFaqBlock]
    that returned. *)
Definition is_mutation (cid : string) (e : effect) : bool :=
  match e with
  | UpdateFaqBlock c _ _ (Returns _) => String.eqb c cid
  | _ => false
  end.

(** A call of [updateFaqBlock] for correction [cid], returned or not. *)
Definition is_update_call (cid : string) (e : effect) : bool :=
  match e with
  | UpdateFaqBlock c _ _ _ => String.eqb c cid
  | _ => false
  end.

Definition count_mutations (cid : string) (l : list effect) : nat :=
  length (List.filter (is_mutation cid) l).

Definition mutations (cid : string) (s : state) : nat :=
  count_mutations cid (effects s).




Definition is_post (e : effect) : Prop :=
  match e with
  | PostMessage _ _ _ => True
  | _ => False
  end.

(** The events that do not store a pending action for [u] from outside
    the handler. *)
Definition no_write_for (u : string) (e : event) : Prop :=
  match e with
  | SetPending v _ _ => v <> u
  | DirectMessage _ _ => True
  end.

(** [savePendingDms()] writes the entries of the map to
    pending-dms.json; their order plays no role, the keys being
    distinct. *)
Definition savePendingDms (m : gmap string pending) : list (string * pending) :=
  map_to_list m.

(** [loadPendingDms(dataDir)], where [file] is the content of
    pending-dms.json: [None] when the file is missing or cannot be
    parsed, else its entries, each with an [expiresAt] number. *)
Definition loadPendingDms (file : option (list (string * pending))) (now : Z)
    (m : gmap string pending) : gmap string pending :=
  match file with
  | None => m
  | Some entries =>
      fold_left
        (fun acc (entry : string * pending) =>
           let (userId, d) := entry in
           if negb (expiresAt d =? 0) && (now <? expiresAt d)
           then <[userId := d]> acc
           else acc)
        entries m
  end.

(** A call of [updateFaqBlock], for whatever correction. *)
Definition is_update (e : effect) : bool :=
  match e with
  | UpdateFaqBlock _ _ _ _ => true
  | _ => false
  end.

(** A call of [addKnowledgeArea]. *)
Definition is_area_call (e : effect) : bool :=
  match e with
  | AddKnowledgeAreaCall _ _ _ _ => true
  | _ => false
  end.

(** [leadUserIds] as [continuePendingDm] passes them to
    [addKnowledgeArea]. *)
Definition area_leads (w : world) (d : area_data) : list string :=
  match leadUserIds d, leadNames d with
  | [], _ :: _ => resolveUsersByName w (leadNames d)
  | existing, _ => existing
  end.

End Dm.

(** ** jobs.js: the approval requests of the periodic correction job *)

Module Jobs.

Import Js.

Definition GENERAL_FAQ_AREA_ID : string := "general-faq".

(** A roster entry of a knowledge area (knowledge-areas.js). *)
Record member : Type := mkMember {
  userId : string;
  member_description : string
}.

Record area : Type := mkArea {
  area_id : string;
  area_name : string;
  area_notionPageId : string;
  area_ownerUserIds : list string;
  leads : option (list member)
}.

(** [config.generalFaq] *)
Record general_faq : Type := mkGeneralFaq {
  adminUserIds : list string;
  notionPageUrl : string
}.

(** [getKnowledgeAreaById(id)] *)
Definition getKnowledgeAreaById (i : string) (areas : list area) : option area :=
  find (fun a => String.eqb (area_id a) i) areas.

(** [getLeadUserIds(areaId)] *)
Definition getLeadUserIds (i : string) (areas : list area) : list string :=
  match getKnowledgeAreaById i areas with
  | None => []
  | Some a =>
      match leads a with
      | Some l => List.map userId l
      | None => []
      end
  end.

(** The collaborators of one [handleFaqCorrection] call: the block
    matcher on the document store, the delivery of a direct message
    ([sendDmToUser], which returns [false] instead of throwing), and the
    clock read by the [setPendingDm] calls. *)
Record world : Type := mkWorld {
  findBlockByContent : string -> list string -> outcome (option Notion.block_info);
  sendDmToUser : string -> string -> bool;
  now : Z
}.

(** The loop over [kbSourcePageIds]: the block found and the sub-page it
    was found in; a sub-page whose search throws is skipped. *)
Fixpoint search_sub_pages (w : world) (evidence : list string) (subPages : list string)
  : option Notion.block_info * option string :=
  match subPages with
  | [] => (None, None)
  | subPageId :: rest =>
      match findBlockByContent w subPageId evidence with
      | Returns (Some blockInfo) => (Some blockInfo, Some subPageId)
      | _ => search_sub_pages w evidence rest
      end
  end.

Definition nonempty_list {A : Type} (l : list A) : bool :=
  match l with
  | [] => false
  | _ => true
  end.

(** The recipients of the approval request ([leadUserIds]) and the page
    and block the request is about, or [None] where the function returns
    early because the knowledge area no longer exists. *)
Definition approval_target (w : world) (cfg : general_faq) (areas : list area)
    (a : Answer.answer)
  : option (list string * string * option Notion.block_info) :=
  if String.eqb (Answer.productAreaId a) GENERAL_FAQ_AREA_ID then
    let useResponders := nonempty_list (Answer.responders a) in
    let leadUserIds := if useResponders then Answer.responders a else adminUserIds cfg in
    let '(blockInfo, found_in) :=
      if nonempty_list (Answer.kbSourcePageIds a) && nonempty_list (Answer.evidence a)
      then search_sub_pages w (Answer.evidence a) (Answer.kbSourcePageIds a)
      else (None, None) in
    let notionPageId :=
      match found_in with
      | Some p => if Text.nonempty p then p else notionPageUrl cfg
      | None => notionPageUrl cfg
      end in
    Some (leadUserIds, notionPageId, blockInfo)
  else
    match getKnowledgeAreaById (Answer.productAreaId a) areas with
    | None => None
    | Some ar =>
        Some (getLeadUserIds (Answer.productAreaId a) areas, area_notionPageId ar, None)
    end.

(** [x || null] on a string *)
Definition or_null (s : string) : option string :=
  if Text.nonempty s then Some s else None.

(** The text of the direct message. *)
Definition dmMessage (areaName : string) (channelName : option string)
    (notionPageId : string) (blockInfo : option Notion.block_info)
    (suggested_update : string) : string :=
  let nl := String (ascii_of_nat 10) EmptyString in
  let link :=
    match blockInfo with
    | Some b =>
        if Text.nonempty (Notion.blockUrl b)
        then "FAQ entry: <" ++ Notion.blockUrl b ++ "|View in Notion>"
        else "FAQ page: <https://notion.so/"
             ++ match Notion.extractPageId notionPageId with
                | Some p => Text.remove_dashes p
                | None => "undefined"
                end ++ "|View in Notion>"
    | None =>
        "FAQ page: <https://notion.so/"
        ++ match Notion.extractPageId notionPageId with
           | Some p => Text.remove_dashes p
           | None => "undefined"
           end ++ "|View in Notion>"
    end in
  "A correction was flagged for the *" ++ areaName
  ++ "* FAQ based on a discussion in #"
  ++ (if truthy channelName then match channelName with Some c => c | None => "" end
      else "channel") ++ "." ++ nl
  ++ nl
  ++ link ++ nl
  ++ nl
  ++ "*Suggested update:*" ++ nl
  ++ suggested_update ++ nl
  ++ nl
  ++ "Should I go ahead and update this FAQ entry? Reply *yes* to approve, or tell me what to change.".

(** The [partialData] stored for every recipient. *)
Definition approval_data (a : Answer.answer) (areaName : string)
    (channelName : option string) (notionPageId : string)
    (blockInfo : option Notion.block_info) (suggested_update : string)
  : Dm.correction_data :=
  {| Dm.correctionId := Answer.id a;
     Dm.blockId := match blockInfo with
                   | Some b => or_null (Notion.blockId b)
                   | None => None
                   end;
     Dm.blockUrl := match blockInfo with
                    | Some b => or_null (Notion.blockUrl b)
                    | None => None
                    end;
     Dm.notionPageId := notionPageId;
     Dm.subPageId :=
       if String.eqb (Answer.productAreaId a) GENERAL_FAQ_AREA_ID
       then Some notionPageId else None;
     Dm.suggestedUpdate := suggested_update;
     Dm.originalQuestion := Answer.originalQuestion a;
     Dm.areaName := areaName;
     Dm.channelName := channelName |}.

(** The loop over [leadUserIds]: each recipient is sent the message, and
    a pending action is stored for those the message reached. The result
    lists the deliveries attempted, with their outcome. *)
Fixpoint deliver (w : world) (msg : string) (d : Dm.correction_data)
    (leadUserIds : list string) (s : Dm.state) : list (string * bool) * Dm.state :=
  match leadUserIds with
  | [] => ([], s)
  | leadId :: rest =>
      let success := sendDmToUser w leadId msg in
      let s' := if success
                then snd (Dm.setPendingDm leadId (Dm.FaqCorrectionApproval d) (now w) s)
                else s in
      let '(sent, s'') := deliver w msg d rest s' in
      ((leadId, success) :: sent, s'')
  end.

(** [handleFaqCorrection({ trackedAnswer, correctionResult, channelName,
    areaName, ... })] *)
Definition handleFaqCorrection (w : world) (cfg : general_faq) (areas : list area)
    (trackedAnswer : Answer.answer) (suggested_update : string)
    (channelName : option string) (areaName : string) (s : Dm.state)
  : list (string * bool) * Dm.state :=
  match approval_target w cfg areas trackedAnswer with
  | None => ([], s)
  | Some (leadUserIds, notionPageId, blockInfo0) =>
      match leadUserIds with
      | [] => ([], s)
      | _ =>
          let blockInfo :=
            match blockInfo0 with
            | Some b => Some b
            | None =>
                if nonempty_list (Answer.evidence trackedAnswer)
                then match findBlockByContent w notionPageId (Answer.evidence trackedAnswer) with
                     | Returns r => r
                     | Throws _ => None
                     end
                else None
            end in
          deliver w
            (dmMessage areaName channelName notionPageId blockInfo suggested_update)
            (approval_data trackedAnswer areaName channelName notionPageId blockInfo
                           suggested_update)
            leadUserIds s
      end
  end.



End Jobs.

(** ** knowledge-areas.js: the roster of leads and team members *)

Module Roster.

Import Js.

(** An entry of [leads] or [teamMembers]; a lead has no [addedBy]. The
    timestamps are the ISO strings of the clock. *)
Record member : Type := mkMember {
  userId : string;
  description : string;
  addedBy : option string;
  addedAt : string;
  lastActiveAt : string
}.

(** A knowledge area of [knowledgeAreas.areas]. [leads] and
    [teamMembers] are [None] when the field is not an array. Every
    entry is an object of its own. *)
Record area : Type := mkArea {
  id : string;
  name : string;
  area_description : string;
  notionPageId : string;
  leads : option (list member);
  teamMembers : option (list member);
  ownerUserIds : list string;
  keywords : list string;
  createdAt : option string;
  updatedAt : option string
}.

(** [knowledgeAreas.areas] *)
Definition store : Type := list area.

(** [arr ?? []] *)
Definition or_empty (o : option (list member)) : list member :=
  match o with
  | Some l => l
  | None => []
  end.

(** [m.userId === userId] *)
Definition has_user (u : string) (m : member) : bool := String.eqb (userId m) u.

(** [arr.some((m) => m.userId === userId)] *)
Definition some_user (u : string) (l : list member) : bool := existsb (has_user u) l.

(** [x !== userId] *)
Definition other (u : string) (x : string) : bool := negb (String.eqb x u).

(** [arr.filter((m) => m.userId !== userId)] *)
Definition without (u : string) (l : list member) : list member :=
  List.filter (fun m => negb (has_user u m)) l.

(** [[...new Set(ids)]]: the first occurrence of each string, in order;
    [seen] holds the strings met so far. *)
Fixpoint uniq_from (seen : list string) (ids : list string) : list string :=
  match ids with
  | [] => []
  | x :: r =>
      if includes_str seen x then uniq_from seen r
      else x :: uniq_from (x :: seen) r
  end.

Definition uniq (ids : list string) : list string := uniq_from [] ids.

(** The user ids of the leads, then those of the team members. *)
Definition member_ids (a : area) : list string :=
  (List.map userId (or_empty (leads a)) ++ List.map userId (or_empty (teamMembers a)))%list.

Definition set_roster (a : area) (l t : option (list member)) (owners : list string)
    (updated : option string) : area :=
  {| id := id a; name := name a; area_description := area_description a;
     notionPageId := notionPageId a;
     leads := l; teamMembers := t; ownerUserIds := owners;
     keywords := keywords a; createdAt := createdAt a; updatedAt := updated |}.

(** [recomputeOwnerUserIds(area)] *)
Definition recomputeOwnerUserIds (a : area) : area :=
  set_roster a (leads a) (teamMembers a) (uniq (member_ids a)) (updatedAt a).

(** [saveRoster()], as far as the areas in memory go: the derived field
    of every area is recomputed. The roster file is assumed to be
    written without error. *)
Definition saveRoster (areas : store) : store := List.map recomputeOwnerUserIds areas.

(** The seed of an area in the configuration file, and an entry of the
    roster file. *)
Record seed : Type := mkSeed {
  seed_id : string;
  seed_name : string;
  seed_description : string;
  seed_notionPageId : string;
  seedLeadUserIds : option (list string);
  seed_keywords : list string;
  seed_createdAt : option string;
  seed_updatedAt : option string
}.

Record roster_entry : Type := mkEntry {
  entry_leads : option (list member);
  entry_teamMembers : option (list member)
}.

(** [bootstrapRosterEntry(seedLeadUserIds, createdAt)] *)
Definition bootstrapRosterEntry (seedLeads : option (list string))
    (created : option string) (clock : string) : roster_entry :=
  let now := match created with Some t => t | None => clock end in
  {| entry_leads :=
       Some (List.map (fun u => mkMember u "" None now now)
                      (match seedLeads with Some l => l | None => [] end));
     entry_teamMembers := Some [] |}.

(** [mergeConfigAndRoster()]: the areas in memory after loading. *)
Definition mergeConfigAndRoster (seeds : list seed) (roster : gmap string roster_entry)
    (clock : string) : store :=
  List.map
    (fun s =>
       let entry :=
         match roster !! seed_id s with
         | Some e => {| entry_leads := Some (or_empty (entry_leads e));
                        entry_teamMembers := Some (or_empty (entry_teamMembers e)) |}
         | None => bootstrapRosterEntry (seedLeadUserIds s) (seed_createdAt s) clock
         end in
       recomputeOwnerUserIds
         {| id := seed_id s; name := seed_name s;
            area_description := seed_description s;
            notionPageId := seed_notionPageId s;
            leads := entry_leads entry; teamMembers := entry_teamMembers entry;
            ownerUserIds := [];
            keywords := seed_keywords s;
            createdAt := seed_createdAt s;
            updatedAt := seed_updatedAt s |})
    seeds.

Definition has_id (i : string) (a : area) : bool := String.eqb (id a) i.

(** [getKnowledgeAreaById(id)] *)
Definition getKnowledgeAreaById (i : string) (areas : store) : option area :=
  find (has_id i) areas.

(** [getLeadUserIds(areaId)] *)
Definition getLeadUserIds (i : string) (areas : store) : list string :=
  match getKnowledgeAreaById i areas with
  | None => []
  | Some a => List.map userId (or_empty (leads a))
  end.

(** [getAllMemberUserIds(areaId)] *)
Definition getAllMemberUserIds (i : string) (areas : store) : list string :=
  match getKnowledgeAreaById i areas with
  | None => []
  | Some a => member_ids a
  end.

(** [getLeads(areaId)] *)
Definition getLeads (i : string) (areas : store) : list member :=
  match getKnowledgeAreaById i areas with
  | None => []
  | Some a => or_empty (leads a)
  end.

(** [getTeamMembers(areaId)] *)
Definition getTeamMembers (i : string) (areas : store) : list member :=
  match getKnowledgeAreaById i areas with
  | None => []
  | Some a => or_empty (teamMembers a)
  end.

(** [isLeadForAnyArea(userId)] *)
Definition isLeadForAnyArea (u : string) (areas : store) : option area :=
  find (fun a => some_user u (or_empty (leads a))) areas.

(** [isTeamMemberForAnyArea(userId)] *)
Definition isTeamMemberForAnyArea (u : string) (areas : store) : option area :=
  find (fun a => some_user u (or_empty (leads a))
                 || some_user u (or_empty (teamMembers a))) areas.

(** [isTeamMemberForArea(userId, areaId)] *)
Definition isTeamMemberForArea (u i : string) (areas : store) : bool :=
  match getKnowledgeAreaById i areas with
  | None => false
  | Some a => some_user u (or_empty (leads a)) || some_user u (or_empty (teamMembers a))
  end.

(** [getMember(areaId, userId)] *)
Definition getMember (i u : string) (areas : store) : option member :=
  match getKnowledgeAreaById i areas with
  | None => None
  | Some a =>
      or_else (find (has_user u) (or_empty (leads a)))
              (find (has_user u) (or_empty (teamMembers a)))
  end.

(** The double quote of the messages. *)
Definition dquote : string := String (ascii_of_nat 34) EmptyString.

Definition not_found (i : string) : string :=
  "Knowledge area with ID " ++ dquote ++ i ++ dquote ++ " not found".

(** What the operations below do to the area found. *)

(** [if (!Array.isArray(area.leads)) area.leads = []], and the same for
    [teamMembers]. *)
Definition normalize_arrays (a : area) : area :=
  set_roster a (Some (or_empty (leads a))) (Some (or_empty (teamMembers a)))
             (ownerUserIds a) (updatedAt a).

Definition push_lead (u desc now : string) (a : area) : area :=
  set_roster a
    (Some (or_empty (leads a) ++ [mkMember u (Text.trim desc) None now now])%list)
    (Some (without u (or_empty (teamMembers a))))
    (ownerUserIds a) (Some now).

Definition push_team_member (u desc by_ now : string) (a : area) : area :=
  set_roster a
    (Some (or_empty (leads a)))
    (Some (or_empty (teamMembers a) ++ [mkMember u (Text.trim desc) (Some by_) now now])%list)
    (ownerUserIds a) (Some now).

Definition removed_count (u : string) (a : area) : nat :=
  ((length (or_empty (leads a)) - length (without u (or_empty (leads a))))
   + (length (or_empty (teamMembers a)) - length (without u (or_empty (teamMembers a)))))%nat.

Definition drop_member (u now : string) (a : area) : area :=
  set_roster a
    (Some (without u (or_empty (leads a))))
    (Some (without u (or_empty (teamMembers a))))
    (ownerUserIds a)
    (if (0 <? removed_count u a)%nat then Some now else updatedAt a).

Definition promote (existing : member) (now now' : string) (a : area) : area :=
  set_roster a
    (Some (or_empty (leads a)
           ++ [mkMember (userId existing) (description existing) None (addedAt existing) now])%list)
    (Some (without (userId existing) (or_empty (teamMembers a))))
    (ownerUserIds a) (Some now').

Definition demote (existing : member) (now now' : string) (a : area) : area :=
  set_roster a
    (Some (without (userId existing) (or_empty (leads a))))
    (Some (or_empty (teamMembers a)
           ++ [mkMember (userId existing) (description existing) (Some "demoted")
                        (addedAt existing) now])%list)
    (ownerUserIds a) (Some now').

(** The member found is changed in place: the first lead with the user
    id, else the first team member with it. *)
Definition change_member (u : string) (f : member -> member) (a : area) : area :=
  match find (has_user u) (or_empty (leads a)) with
  | Some _ =>
      set_roster a (Some (update_first (has_user u) f (or_empty (leads a))))
                 (teamMembers a) (ownerUserIds a) (updatedAt a)
  | None =>
      match find (has_user u) (or_empty (teamMembers a)) with
      | Some _ =>
          set_roster a (leads a)
                     (Some (update_first (has_user u) f (or_empty (teamMembers a))))
                     (ownerUserIds a) (updatedAt a)
      | None => a
      end
  end.

Definition describe (desc now : string) (m : member) : member :=
  mkMember (userId m) (Text.trim desc) (addedBy m) (addedAt m) now.

Definition touch (now : string) (m : member) : member :=
  mkMember (userId m) (description m) (addedBy m) (addedAt m) now.

Definition set_updatedAt (now : string) (a : area) : area :=
  set_roster a (leads a) (teamMembers a) (ownerUserIds a) (Some now).

(** The result of an operation: the area or the member it returns, or a
    boolean, or nothing. *)
Inductive result : Type :=
  | AreaResult (a : area)
  | MemberResult (m : member)
  | BoolResult (b : bool)
  | NoResult.

(** [addLead(areaId, userId, description)] *)
Definition addLead (i u desc now : string) (areas : store) : outcome result * store :=
  match getKnowledgeAreaById i areas with
  | None => (Throws (not_found i), areas)
  | Some a =>
      if some_user u (or_empty (leads a))
      then (Returns (AreaResult (normalize_arrays a)),
            update_first (has_id i) normalize_arrays areas)
      else (Returns (AreaResult (recomputeOwnerUserIds (push_lead u desc now a))),
            saveRoster (update_first (has_id i) (push_lead u desc now) areas))
  end.

(** [addTeamMember(areaId, userId, description, addedBy)] *)
Definition addTeamMember (i u desc by_ now : string) (areas : store)
  : outcome result * store :=
  match getKnowledgeAreaById i areas with
  | None => (Throws (not_found i), areas)
  | Some a =>
      if some_user u (or_empty (leads a)) || some_user u (or_empty (teamMembers a))
      then (Returns (AreaResult (normalize_arrays a)),
            update_first (has_id i) normalize_arrays areas)
      else (Returns (AreaResult (recomputeOwnerUserIds (push_team_member u desc by_ now a))),
            saveRoster (update_first (has_id i) (push_team_member u desc by_ now) areas))
  end.

(** [removeMember(areaId, userId)] *)
Definition removeMember (i u now : string) (areas : store) : outcome result * store :=
  match getKnowledgeAreaById i areas with
  | None => (Throws (not_found i), areas)
  | Some a =>
      if (0 <? removed_count u a)%nat
      then (Returns (BoolResult true),
            saveRoster (update_first (has_id i) (drop_member u now) areas))
      else (Returns (BoolResult false),
            update_first (has_id i) (drop_member u now) areas)
  end.

(** [promoteToLead(areaId, userId)]; the clock is read twice. *)
Definition promoteToLead (i u now now' : string) (areas : store)
  : outcome result * store :=
  match getKnowledgeAreaById i areas with
  | None => (Throws (not_found i), areas)
  | Some a =>
      if some_user u (or_empty (leads a)) then (Returns (AreaResult a), areas)
      else
        match find (has_user u) (or_empty (teamMembers a)) with
        | None =>
            (Throws ("User " ++ u ++ " is not a team member for "
                     ++ dquote ++ name a ++ dquote), areas)
        | Some existing =>
            (Returns (AreaResult (recomputeOwnerUserIds (promote existing now now' a))),
             saveRoster (update_first (has_id i) (promote existing now now') areas))
        end
  end.

(** [demoteToTeamMember(areaId, userId)] *)
Definition demoteToTeamMember (i u now now' : string) (areas : store)
  : outcome result * store :=
  match getKnowledgeAreaById i areas with
  | None => (Throws (not_found i), areas)
  | Some a =>
      match find (has_user u) (or_empty (leads a)) with
      | None =>
          (Throws ("User " ++ u ++ " is not a lead for "
                   ++ dquote ++ name a ++ dquote), areas)
      | Some existing =>
          (Returns (AreaResult (recomputeOwnerUserIds (demote existing now now' a))),
           saveRoster (update_first (has_id i) (demote existing now now') areas))
      end
  end.

(** [updateMemberDescription(areaId, userId, description)] *)
Definition updateMemberDescription (i u desc now now' : string) (areas : store)
  : outcome result * store :=
  match getKnowledgeAreaById i areas with
  | None => (Throws (not_found i), areas)
  | Some a =>
      match or_else (find (has_user u) (or_empty (leads a)))
                    (find (has_user u) (or_empty (teamMembers a))) with
      | None =>
          (Throws ("User " ++ u ++ " is not a member of "
                   ++ dquote ++ name a ++ dquote), areas)
      | Some m =>
          (Returns (MemberResult (describe desc now m)),
           saveRoster
             (update_first (has_id i)
                (fun a => set_updatedAt now' (change_member u (describe desc now) a))
                areas))
      end
  end.

(** [touchMemberActivity(areaId, userId)] *)
Definition touchMemberActivity (i u now : string) (areas : store)
  : outcome result * store :=
  match getKnowledgeAreaById i areas with
  | None => (Returns NoResult, areas)
  | Some a =>
      match or_else (find (has_user u) (or_empty (leads a)))
                    (find (has_user u) (or_empty (teamMembers a))) with
      | None => (Returns NoResult, areas)
      | Some _ =>
          (Returns NoResult,
           saveRoster (update_first (has_id i) (change_member u (touch now)) areas))
      end
  end.

(** The team-mutating operations, with their arguments and the clock
    readings of the call. *)
Inductive op : Type :=
  | AddLead (areaId userId description now : string)
  | AddTeamMember (areaId userId description addedBy now : string)
  | RemoveMember (areaId userId now : string)
  | PromoteToLead (areaId userId now now' : string)
  | DemoteToTeamMember (areaId userId now now' : string)
  | UpdateMemberDescription (areaId userId description now now' : string)
  | TouchMemberActivity (areaId userId now : string).

Definition apply_op (o : op) (areas : store) : outcome result * store :=
  match o with
  | AddLead i u d t => addLead i u d t areas
  | AddTeamMember i u d b t => addTeamMember i u d b t areas
  | RemoveMember i u t => removeMember i u t areas
  | PromoteToLead i u t t' => promoteToLead i u t t' areas
  | DemoteToTeamMember i u t t' => demoteToTeamMember i u t t' areas
  | UpdateMemberDescription i u d t t' => updateMemberDescription i u d t t' areas
  | TouchMemberActivity i u t => touchMemberActivity i u t areas
  end.

(** The operations one after the other; one that throws leaves the areas
    as it leaves them, and the next goes on. *)
Fixpoint run (ops : list op) (areas : store) : store :=
  match ops with
  | [] => areas
  | o :: r => run r (snd (apply_op o areas))
  end.

(** No user is twice in the roster of the area, as a lead or as a team
    member. *)
Definition distinct_members (a : area) : Prop := List.NoDup (member_ids a).

(** The derived field agrees with the roster. *)
Definition owners_agree (a : area) : Prop := ownerUserIds a = uniq (member_ids a).


Definition user_of (o : op) : string :=
  match o with
  | AddLead _ u _ _ | AddTeamMember _ u _ _ _ | RemoveMember _ u _
  | PromoteToLead _ u _ _ | DemoteToTeamMember _ u _ _
  | UpdateMemberDescription _ u _ _ _ | TouchMemberActivity _ u _ => u
  end.

End Roster.

(** ** dm-handler.js: the roster requests of a direct message *)

Module RosterDm.

Import Js Roster.

(** The fields of the intent the language model parsed from the message
    that the two handlers read. *)
Record intent : Type := mkIntent {
  action : string;
  matched_knowledge_area_id : option string;
  target_user_mentions : list string;
  target_user_names : list string;
  member_description : option string;
  matched_self_reg_area_ids : list string;
  expertise_description : option string
}.

(** [s || ""] *)
Definition or_blank (o : option string) : string :=
  match o with
  | Some s => s
  | None => ""
  end.








(** The answer of [evolveExpertiseDescription]: [changed] and
    [updated_description]. *)
Definition evolution : Type := (bool * option string)%type.

(** The body of the loop of [handleDmSelfRegistration] for an area of
    which the sender is a member already: the names of the areas updated
    so far and the areas, or the error that leaves the handler. *)
Definition evolve_description (sender areaId : string) (r : intent)
    (evolve : string -> string -> outcome evolution) (clock : string * string)
    (a : area) (updated : list string) (areas : store)
  : outcome (list string) * store :=
  if truthy (expertise_description r) then
    match getMember areaId sender areas with
    | Some m =>
        let fallback (areas0 : store) :=
          match updateMemberDescription areaId sender (or_blank (expertise_description r))
                                        (fst clock) (snd clock) areas0 with
          | (Returns _, areas1) => (Returns (updated ++ [name a])%list, areas1)
          | (Throws e, areas1) => (Throws e, areas1)
          end in
        match evolve (description m) (name a) with
        | Returns (changed, upd) =>
            if changed && truthy upd
            then match updateMemberDescription areaId sender (or_blank upd)
                                               (fst clock) (snd clock) areas with
                 | (Returns _, areas1) => (Returns (updated ++ [name a])%list, areas1)
                 | (Throws _, areas1) => fallback areas1
                 end
            else (Returns (updated ++ [name a])%list, areas)
        | Throws _ => fallback areas
        end
    | None => (Returns updated, areas)
    end
  else (Returns updated, areas).

(** The loop of [handleDmSelfRegistration] over the matched areas: the
    names of the areas the sender was added to and of those updated. *)
Fixpoint self_register (sender : string) (r : intent)
    (evolve : string -> string -> outcome evolution) (clock : nat -> string * string)
    (k : nat) (areaIds : list string) (added updated : list string) (areas : store)
  : outcome (list string * list string) * store :=
  match areaIds with
  | [] => (Returns (added, updated), areas)
  | areaId :: rest =>
      match getKnowledgeAreaById areaId areas with
      | None => self_register sender r evolve clock (S k) rest added updated areas
      | Some a =>
          if isTeamMemberForArea sender areaId areas
          then
            match evolve_description sender areaId r evolve (clock k) a updated areas with
            | (Returns updated', areas1) =>
                self_register sender r evolve clock (S k) rest added updated' areas1
            | (Throws e, areas1) => (Throws e, areas1)
            end
          else
            match addTeamMember areaId sender (or_blank (expertise_description r))
                                "self-registered" (fst (clock k)) areas with
            | (Returns _, areas1) =>
                self_register sender r evolve clock (S k) rest
                              (added ++ [name a])%list updated areas1
            | (Throws e, areas1) => (Throws e, areas1)
            end
      end
  end.

(** [handleDmSelfRegistration(event, client, text, result, ctx)], up to
    the reply. *)
Definition handleDmSelfRegistration (sender : string) (r : intent)
    (evolve : string -> string -> outcome evolution) (clock : nat -> string * string)
    (areas : store) : outcome (list string * list string) * store :=
  self_register sender r evolve clock 0 (matched_self_reg_area_ids r) [] [] areas.


(** An operation by which [sender] joins a team or has their description
    changed. *)
Definition self_service (sender : string) (o : op) : Prop :=
  user_of o = sender
  /\ match o with
     | AddTeamMember _ _ _ _ _ | UpdateMemberDescription _ _ _ _ _ => True
     | _ => False
     end.

(** Who leads what: the identifier of each area with the user ids of its
    leads. *)
Definition lead_view (areas : store) : list (string * list string) :=
  List.map (fun a => (id a, List.map userId (or_empty (leads a)))) areas.

(** How the roster [areas'] compares with [areas] when [sender] may
    have joined teams and nothing else happened to who is where. *)
Definition only_joined (sender : string) (areas areas' : store) : Prop :=
  lead_view areas' = lead_view areas
  /\ (forall j u, In u (getAllMemberUserIds j areas) -> In u (getAllMemberUserIds j areas'))
  /\ (forall j u, In u (getAllMemberUserIds j areas') ->
                  In u (getAllMemberUserIds j areas) \/ u = sender).

End RosterDm.

(** ** jobs.js: the periodic sweeps over the tracked records *)

Module Sweep.

Import Js.

(** A message of [conversations.replies], with the fields the sweeps
    read. *)
Record thread_message : Type := mkThreadMessage {
  msg_user : option string;
  msg_text : option string;
  msg_ts : string;
  msg_bot_id : option string
}.

(** [s || ""] *)
Definition or_blank (o : option string) : string :=
  match o with
  | Some s => s
  | None => ""
  end.

(** The [filter] both sweeps apply to the messages of the thread: a
    message with a user and a text, later than the tracked message, not
    of a bot, by one of the owners. Timestamps are compared as strings. *)
Definition by_owner (owners : list string) (messageTs : string) (m : thread_message)
  : bool :=
  if negb (truthy (msg_user m)) || negb (truthy (msg_text m)) then false
  else if String.leb (msg_ts m) messageTs then false
  else if truthy (msg_bot_id m) then false
  else includes_str owners (or_blank (msg_user m)).

(** [checkIfCorrection(...)]'s answer *)
Record correction_result : Type := mkCorrectionResult {
  is_correction : bool;
  corrected_content : string;
  suggested_update : string;
  result_rationale : string
}.

(** [synthesizeFaqEntry(...)]'s answer *)
Record synthesis : Type := mkSynthesis {
  should_add_to_faq : bool;
  question : string;
  answer : string
}.

(** What the collaborators answer during one sweep: the knowledge areas
    and the configuration, the thread of a channel and timestamp, the
    language model's judgements, the document store, the posting of the
    closing message in the thread of an escalation, and the clock when
    the record with an identifier is marked. *)
Record world : Type := mkWorld {
  areas : list Jobs.area;
  generalFaq : Jobs.general_faq;
  replies : string -> string -> outcome (list thread_message);
  checkIfCorrection : Answer.answer -> list (string * string) -> outcome correction_result;
  channelIdToName : string -> option string;
  collaborators : Jobs.world;
  checkResponsesSubstantive : Escalation.escalation -> list string -> outcome bool;
  synthesizeFaqEntry : Escalation.escalation -> list string -> outcome synthesis;
  appendFaqEntry : string -> string -> string -> outcome string;
  postMessage_throws : Escalation.escalation -> bool;
  clock : string -> Z
}.

(** The owners, the name and the page of the area of a record, or
    [None] when the knowledge area no longer exists. *)
Definition area_of_record (w : world) (productAreaId : string)
  : option (list string * string * string) :=
  if String.eqb productAreaId Jobs.GENERAL_FAQ_AREA_ID
  then Some (Jobs.adminUserIds (generalFaq w), "General FAQ",
             Jobs.notionPageUrl (generalFaq w))
  else
    match Jobs.getKnowledgeAreaById productAreaId (areas w) with
    | None => None
    | Some ar => Some (Jobs.area_ownerUserIds ar, Jobs.area_name ar, Jobs.area_notionPageId ar)
    end.

(** [ownerReplies] of [checkPendingCorrections] *)
Definition ownerReplies (owners : list string) (a : Answer.answer)
    (messages : list thread_message) : list (string * string) :=
  List.map (fun m => (or_blank (msg_user m), or_blank (msg_text m)))
           (List.filter (by_owner owners (Answer.messageTs a)) messages).

(** [ctx.channelIdToName.get(channel) || null] *)
Definition channelName (w : world) (channel : string) : option string :=
  match channelIdToName w channel with
  | Some c => Jobs.or_null c
  | None => None
  end.

(** The [correctionInfo] passed to [markAnswerCorrected]. *)
Definition correction_info_of (replies : list (string * string)) (res : correction_result)
  : Answer.correction_info :=
  {| Answer.correctedBy := Roster.uniq (List.map fst replies);
     Answer.correctedContent := corrected_content res;
     Answer.suggestedUpdate := suggested_update res;
     Answer.rationale := result_rationale res |}.

(** The body of the loop of [checkPendingCorrections], with its [try]:
    the tracked answers and the state of the conversation handler after
    it. The fields read from [trackedAnswer] are none of those the
    marking functions change. *)
Definition process_answer (w : world) (a : Answer.answer) (st : Answer.store * Dm.state)
  : Answer.store * Dm.state :=
  let mark info :=
    (snd (Answer.markAnswerProcessed (Answer.id a) info (clock w (Answer.id a)) (fst st)),
     snd st) in
  match area_of_record w (Answer.productAreaId a) with
  | None => mark (Answer.mkProcessInfo "knowledge_area_deleted" None)
  | Some (correctionOwnerIds, areaName, _) =>
      match replies w (Answer.channel a) (Answer.threadTs a) with
      | Throws _ => st
      | Returns messages =>
          match ownerReplies correctionOwnerIds a messages with
          | [] => mark (Answer.mkProcessInfo "no_owner_replies_found" None)
          | owner_replies =>
              match checkIfCorrection w a owner_replies with
              | Throws _ => st
              | Returns res =>
                  if is_correction res
                  then
                    let dm :=
                      snd (Jobs.handleFaqCorrection (collaborators w) (generalFaq w)
                             (areas w) a (suggested_update res)
                             (channelName w (Answer.channel a)) areaName (snd st)) in
                    (snd (Answer.markAnswerCorrected (Answer.id a)
                            (correction_info_of owner_replies res)
                            (clock w (Answer.id a)) (fst st)),
                     dm)
                  else mark (Answer.mkProcessInfo "no_correction_detected"
                                                  (Some (result_rationale res)))
              end
          end
      end
  end.

(** [checkPendingCorrections(app, ctx)] at time [now] *)
Definition checkPendingCorrections (w : world) (now : Z) (st : Answer.store * Dm.state)
  : Answer.store * Dm.state :=
  fold_left (fun st a => process_answer w a st)
            (Answer.getAnswersReadyToProcess now (fst st)) st.






(** The identifiers of the records are distinct. *)
Definition distinct_answers (s : Answer.store) : Prop :=
  List.NoDup (List.map Answer.id s).


(** What a sweep may have done to a tracked answer. *)
Inductive answer_outcome (w : world) (a : Answer.answer) : Answer.answer -> Prop :=
  | AnswerProcessed (info : Answer.process_info) :
      answer_outcome w a (Answer.set_processed (clock w (Answer.id a)) info a)
  | AnswerCorrected (owners : list string) (areaName page : string)
      (messages : list thread_message) (res : correction_result) :
      area_of_record w (Answer.productAreaId a) = Some (owners, areaName, page) ->
      replies w (Answer.channel a) (Answer.threadTs a) = Returns messages ->
      checkIfCorrection w a (ownerReplies owners a messages) = Returns res ->
      is_correction res = true ->
      answer_outcome w a
        (Answer.set_corrected (clock w (Answer.id a))
           (correction_info_of (ownerReplies owners a messages) res) a)
  | AnswerLeft (owners : list string) (areaName page e : string) :
      area_of_record w (Answer.productAreaId a) = Some (owners, areaName, page) ->
      (replies w (Answer.channel a) (Answer.threadTs a) = Throws e
       \/ exists messages,
            replies w (Answer.channel a) (Answer.threadTs a) = Returns messages
            /\ checkIfCorrection w a (ownerReplies owners a messages) = Throws e) ->
      answer_outcome w a a.



End Sweep.

(** ** slack-helpers.js: the memory of the events seen *)

Module Helpers.

(** The default [ttlMs] of [alreadySeen]. *)
Definition SEEN_TTL_MS : Z := 5 * 60 * 1000.

(** [alreadySeen(key, ttlMs)] at time [now]: the entries older than
    [ttlMs] are forgotten; then a key that is present is reported as
    seen, and one that is not is recorded with the time. *)
Definition alreadySeen (key : string) (ttlMs now : Z) (seen : gmap string Z)
  : bool * gmap string Z :=
  let kept := filter (fun kv : string * Z => (ttlMs <? now - kv.2) = false) seen in
  match kept !! key with
  | Some _ => (true, kept)
  | None => (false, <[key := now]> kept)
  end.

End Helpers.

(** ** channel-handler.js: a reply in a thread the assistant handles *)

Module Thread.

Import Js.

(** The fields of the message event the handler reads here. *)
Record reply : Type := mkReply {
  user : string;
  channel : string;
  ts : string;
  thread_ts : string
}.


(** The tracked escalations and answers, and the events seen. *)
Record state : Type := mkState {
  escalations : Escalation.store;
  answers : Answer.store;
  seen : gmap string Z
}.

(** [correctionOwnerIds]: the administrators for an answer from the
    general FAQ, else the owners of the area, if it still exists. *)
Definition correctionOwnerIds (cfg : Jobs.general_faq) (areas : list Jobs.area)
    (a : Answer.answer) : option (list string) :=
  if String.eqb (Answer.productAreaId a) Jobs.GENERAL_FAQ_AREA_ID
  then Some (Jobs.adminUserIds cfg)
  else
    match Jobs.getKnowledgeAreaById (Answer.productAreaId a) areas with
    | None => None
    | Some ar => Some (Jobs.area_ownerUserIds ar)
    end.





End Thread.

(** ** Orders on the statuses *)

(** The order of the specification on escalation statuses:
    awaiting_response, then ready_to_synthesize, then one of the two
    terminal statuses, which are not ordered with each other. *)
Definition escalation_advances (a b : Escalation.status) : bool :=
  match a, b with
  | Escalation.awaiting_response, _ => true
  | Escalation.ready_to_synthesize, Escalation.awaiting_response => false
  | Escalation.ready_to_synthesize, _ => true
  | Escalation.completed, Escalation.completed => true
  | Escalation.skipped, Escalation.skipped => true
  | _, _ => false
  end.

(** A record keeps its identifier and its status is at the same stage or
    a later one. *)
Definition escalation_not_back (e e' : Escalation.escalation) : Prop :=
  Escalation.id e' = Escalation.id e
  /\ (Escalation.stage (Escalation.status_of e)
      <= Escalation.stage (Escalation.status_of e'))%nat.

Definition answer_not_back (a a' : Answer.answer) : Prop :=
  Answer.id a' = Answer.id a
  /\ (Answer.stage (Answer.status_of a) <= Answer.stage (Answer.status_of a'))%nat.

(** ** Sample records and documents

    The concrete inputs at which the properties below are evaluated. *)

Module Sample.

(** An escalation raised at time 0 that still awaits its first response. *)
Definition stale_awaiting : Escalation.escalation :=
  {| Escalation.id := "esc_1"; Escalation.channel := "C1";
     Escalation.threadTs := "1.0"; Escalation.messageTs := "1.0";
     Escalation.productAreaId := "billing";
     Escalation.originalQuestion := "How do refunds work?";
     Escalation.ownerUserIds := ["U1"]; Escalation.escalatedAt := 0;
     Escalation.status_of := Escalation.awaiting_response;
     Escalation.firstResponseAt := None; Escalation.synthesizeAfter := None;
     Escalation.completedAt := None; Escalation.skippedAt := None;
     Escalation.faqUrl := None; Escalation.skipReason := None |}.

(** An escalation completed at time 5. *)
Definition completed_escalation : Escalation.escalation :=
  Escalation.set_completed 5 None stale_awaiting.

(** A tracked answer that nobody has replied to yet. *)
Definition fresh_answer : Answer.answer :=
  {| Answer.id := "ans_1"; Answer.channel := "C1"; Answer.threadTs := "1.0";
     Answer.messageTs := "1.1"; Answer.productAreaId := "billing";
     Answer.originalQuestion := "How do refunds work?";
     Answer.botAnswer := "Refunds take five days.";
     Answer.evidence := ["refunds take five days"];
     Answer.ownerUserIds := ["U1"; "U2"]; Answer.kbSourcePageIds := [];
     Answer.answeredAt := 0; Answer.status_of := Answer.active;
     Answer.respondingOwnerIds := Some []; Answer.firstResponseAt := None;
     Answer.processAfter := None; Answer.processedAt := None;
     Answer.processInfo := None; Answer.correctedAt := None;
     Answer.correctionInfo := None |}.

Definition no_replies : Answer.process_info :=
  {| Answer.reason := "no_owner_replies_found"; Answer.process_rationale := None |}.

Definition a_correction : Answer.correction_info :=
  {| Answer.correctedBy := ["U1"]; Answer.correctedContent := "duration";
     Answer.suggestedUpdate := "Refunds take ten days.";
     Answer.rationale := "the owner stated a different duration" |}.

(** The same answer, marked processed at time 50. *)
Definition processed_answer : Answer.answer :=
  Answer.set_processed 50 no_replies fresh_answer.

(** The approval request for the sample answer: a block was matched. *)
Definition request : Dm.correction_data :=
  {| Dm.correctionId := "ans_1";
     Dm.blockId := Some "aaaaaaaa-aaaa-aaaa-aaaa-aaaaaaaaaaaa";
     Dm.blockUrl := Some "https://notion.so/0123456789abcdef0123456789abcdef#aaaaaaaaaaaaaaaaaaaaaaaaaaaaaaaa";
     Dm.notionPageId := "0123456789abcdef0123456789abcdef";
     Dm.subPageId := None;
     Dm.suggestedUpdate := "Refunds take ten days.";
     Dm.originalQuestion := "How do refunds work?";
     Dm.areaName := "Billing";
     Dm.channelName := Some "support" |}.

(** Collaborators that all answer, at time [t]. *)
Definition world_ok (t : Z) : Dm.world :=
  {| Dm.now := t; Dm.now_restore := t;
     Dm.updateFaqBlock_result :=
       Js.Returns "https://notion.so/0123456789abcdef0123456789abcdef#aaaaaaaaaaaaaaaaaaaaaaaaaaaaaaaa";
     Dm.addCommentToBlock_throws := false;
     Dm.reviseSuggestedUpdate_result := Js.Returns "Refunds take ten working days.";
     Dm.resolveUsersByName := fun names => names;
     Dm.addKnowledgeArea_throws := false;
     Dm.postMessage_throws := fun _ => false |}.

(** The same, with a document store that rejects the update. *)
Definition world_update_fails (t : Z) : Dm.world :=
  {| Dm.now := t; Dm.now_restore := t;
     Dm.updateFaqBlock_result := Js.Throws "Could not find block";
     Dm.addCommentToBlock_throws := false;
     Dm.reviseSuggestedUpdate_result := Js.Returns "Refunds take ten working days.";
     Dm.resolveUsersByName := fun names => names;
     Dm.addKnowledgeArea_throws := false;
     Dm.postMessage_throws := fun _ => false |}.

(** The same, with a revision oracle that fails. *)
Definition world_revise_fails (t : Z) : Dm.world :=
  {| Dm.now := t; Dm.now_restore := t;
     Dm.updateFaqBlock_result := Js.Returns "https://notion.so/x";
     Dm.addCommentToBlock_throws := false;
     Dm.reviseSuggestedUpdate_result := Js.Throws "overloaded";
     Dm.resolveUsersByName := fun names => names;
     Dm.addKnowledgeArea_throws := false;
     Dm.postMessage_throws := fun _ => false |}.

(** Two leads hold the approval request, stored at time 0. *)
Definition two_requests : Dm.state :=
  Dm.run [Dm.SetPending "U1" (Dm.FaqCorrectionApproval request) 0;
          Dm.SetPending "U2" (Dm.FaqCorrectionApproval request) 0]
         (Dm.initial ∅).

Definition yes_from (u : string) : Dm.message :=
  {| Dm.user := u; Dm.channel := "D-" ++ u; Dm.text := "Yes, go ahead" |}.

Definition feedback_from (u : string) : Dm.message :=
  {| Dm.user := u; Dm.channel := "D-" ++ u; Dm.text := "say working days" |}.


(** The sample answer after its owner U1 has replied. *)
Definition answered : Answer.answer :=
  Answer.record_response "U1" 30000 100 fresh_answer.

(** The billing area: U1 and U2 own it, L1 leads it. *)
Definition billing : Jobs.area :=
  {| Jobs.area_id := "billing"; Jobs.area_name := "Billing";
     Jobs.area_notionPageId := "0123456789abcdef0123456789abcdef";
     Jobs.area_ownerUserIds := ["U1"; "U2"];
     Jobs.leads := Some [{| Jobs.userId := "L1"; Jobs.member_description := "billing lead" |}] |}.

Definition faq_config : Jobs.general_faq :=
  {| Jobs.adminUserIds := ["ADMIN"];
     Jobs.notionPageUrl := "fedcba9876543210fedcba9876543210" |}.

(** A document store in which no block matches and a messaging layer
    that delivers every message, at time 5000. *)
Definition job_world : Jobs.world :=
  {| Jobs.findBlockByContent := fun _ _ => Js.Returns None;
     Jobs.sendDmToUser := fun _ _ => true;
     Jobs.now := 5000 |}.

(** An answer from the general FAQ, after U1 has replied. *)
Definition general_answered : Answer.answer :=
  {| Answer.id := "ans_2"; Answer.channel := "C1"; Answer.threadTs := "2.0";
     Answer.messageTs := "2.1"; Answer.productAreaId := "general-faq";
     Answer.originalQuestion := "How do refunds work?";
     Answer.botAnswer := "Refunds take five days.";
     Answer.evidence := ["refunds take five days"];
     Answer.ownerUserIds := []; Answer.kbSourcePageIds := [];
     Answer.answeredAt := 0; Answer.status_of := Answer.pending_correction;
     Answer.respondingOwnerIds := Some ["U1"]; Answer.firstResponseAt := Some 100;
     Answer.processAfter := Some 30100; Answer.processedAt := None;
     Answer.processInfo := None; Answer.correctedAt := None;
     Answer.correctionInfo := None |}.

(** A page whose only matching text lies two levels deep: a toggle that
    holds a toggle that holds the paragraph. *)
Definition leaf_block : Notion.node :=
  Notion.mkNode "cccccccc-cccc-cccc-cccc-cccccccccccc"
                "Refunds  take five days." false false [].

Definition inner_block : Notion.node :=
  Notion.mkNode "bbbbbbbb-bbbb-bbbb-bbbb-bbbbbbbbbbbb" "Details" true false [leaf_block].

Definition outer_block : Notion.node :=
  Notion.mkNode "aaaaaaaa-aaaa-aaaa-aaaa-aaaaaaaaaaaa" "Billing" true false [inner_block].

Definition nested_page : Notion.node :=
  Notion.mkNode "0123456789abcdef0123456789abcdef" "" true false [outer_block].





Definition no_from (u : string) : Dm.message :=
  {| Dm.user := u; Dm.channel := "D-" ++ u; Dm.text := "No, leave it" |}.

(** The approval request when no block was matched. *)
Definition request_without_block : Dm.correction_data :=
  {| Dm.correctionId := "ans_2";
     Dm.blockId := None;
     Dm.blockUrl := None;
     Dm.notionPageId := "0123456789abcdef0123456789abcdef";
     Dm.subPageId := None;
     Dm.suggestedUpdate := "Refunds take ten days.";
     Dm.originalQuestion := "How do refunds work?";
     Dm.areaName := "Billing";
     Dm.channelName := Some "support" |}.

Definition two_requests_without_block : Dm.state :=
  Dm.run [Dm.SetPending "U1" (Dm.FaqCorrectionApproval request_without_block) 0;
          Dm.SetPending "U2" (Dm.FaqCorrectionApproval request_without_block) 0]
         (Dm.initial ∅).

(** A lead is asked for the page of a knowledge area to create. *)
Definition area_request : Dm.area_data :=
  {| Dm.name := "Platform";
     Dm.description := "Platform questions";
     Dm.keywords := ["deploy"];
     Dm.leadUserIds := [];
     Dm.leadNames := ["Ada"] |}.

Definition area_pending : Dm.state :=
  Dm.run [Dm.SetPending "U1" (Dm.AddKnowledgeArea area_request) 0] (Dm.initial ∅).

Definition url_from (u : string) : Dm.message :=
  {| Dm.user := u; Dm.channel := "D-" ++ u;
     Dm.text := "it is https://notion.so/team/Platform-0123456789abcdef0123456789abcdef" |}.

(** The roster of the Billing area: one lead, one team member. *)
Definition ada : Roster.member :=
  Roster.mkMember "U1" "billing lead" None "2026-01-05T09:00:00.000Z"
                  "2026-01-05T09:00:00.000Z".

Definition bob : Roster.member :=
  Roster.mkMember "U2" "refunds" (Some "self-registered") "2026-02-01T10:00:00.000Z"
                  "2026-02-01T10:00:00.000Z".

Definition billing_roster : Roster.area :=
  {| Roster.id := "billing"; Roster.name := "Billing";
     Roster.area_description := "Invoices and refunds";
     Roster.notionPageId := "0123456789abcdef0123456789abcdef";
     Roster.leads := Some [ada]; Roster.teamMembers := Some [bob];
     Roster.ownerUserIds := ["U1"; "U2"];
     Roster.keywords := ["refund"];
     Roster.createdAt := Some "2026-01-05T09:00:00.000Z";
     Roster.updatedAt := None |}.

(** A second area, led by the same lead, without team members. *)
Definition platform_roster : Roster.area :=
  {| Roster.id := "platform"; Roster.name := "Platform";
     Roster.area_description := "";
     Roster.notionPageId := "fedcba9876543210fedcba9876543210";
     Roster.leads := Some [ada]; Roster.teamMembers := None;
     Roster.ownerUserIds := ["U1"];
     Roster.keywords := [];
     Roster.createdAt := Some "2026-01-06T09:00:00.000Z";
     Roster.updatedAt := None |}.

Definition roster_store : Roster.store := [billing_roster; platform_roster].

(** An area loaded from a seed with a repeated lead and no roster entry,
    after a self-registration. *)
Definition billing_seed : Roster.seed :=
  {| Roster.seed_id := "billing"; Roster.seed_name := "Billing";
     Roster.seed_description := "";
     Roster.seed_notionPageId := "0123456789abcdef0123456789abcdef";
     Roster.seedLeadUserIds := Some ["U1"; "U1"];
     Roster.seed_keywords := [];
     Roster.seed_createdAt := Some "2026-01-05T09:00:00.000Z";
     Roster.seed_updatedAt := None |}.

Definition self_registration : list Roster.op :=
  [Roster.AddTeamMember "billing" "U2" " refunds " "self-registered"
                        "2026-02-01T10:00:00.000Z"].

Definition bootstrapped : Roster.area :=
  {| Roster.id := "billing"; Roster.name := "Billing";
     Roster.area_description := "";
     Roster.notionPageId := "0123456789abcdef0123456789abcdef";
     Roster.leads :=
       Some [Roster.mkMember "U1" "" None "2026-01-05T09:00:00.000Z" "2026-01-05T09:00:00.000Z";
             Roster.mkMember "U1" "" None "2026-01-05T09:00:00.000Z" "2026-01-05T09:00:00.000Z"];
     Roster.teamMembers :=
       Some [Roster.mkMember "U2" "refunds" (Some "self-registered")
                             "2026-02-01T10:00:00.000Z" "2026-02-01T10:00:00.000Z"];
     Roster.ownerUserIds := ["U1"; "U2"];
     Roster.keywords := [];
     Roster.createdAt := Some "2026-01-05T09:00:00.000Z";
     Roster.updatedAt := Some "2026-02-01T10:00:00.000Z" |}.



(** A thread with a reply of the owner U1 to the sample answer; the
    threads of the other records cannot be fetched. The language model
    judges the reply a correction. *)
Definition sweep_world : Sweep.world :=
  {| Sweep.areas := [billing];
     Sweep.generalFaq := faq_config;
     Sweep.replies := fun _ ts =>
       if String.eqb ts "1.0"
       then Js.Returns [Sweep.mkThreadMessage (Some "U1") (Some "It is ten days now.")
                                              "1.5" None]
       else Js.Throws "ratelimited";
     Sweep.checkIfCorrection := fun _ _ =>
       Js.Returns (Sweep.mkCorrectionResult true "ten days" "Refunds take ten days."
                                            "the owner corrected the delay");
     Sweep.channelIdToName := fun _ => Some "support";
     Sweep.collaborators := job_world;
     Sweep.checkResponsesSubstantive := fun _ _ => Js.Returns true;
     Sweep.synthesizeFaqEntry := fun _ _ =>
       Js.Returns (Sweep.mkSynthesis true "How do refunds work?" "Refunds take ten days.");
     Sweep.appendFaqEntry := fun _ _ _ => Js.Returns "https://notion.so/0123456789abcdef";
     Sweep.postMessage_throws := fun _ => false;
     Sweep.clock := fun _ => 40000 |}.





End Sample.

(** * Properties *)

(** ** Arrays searched with [find] and updated in place *)

Section UpdateFirst.

Context {A : Type}.
Variables (p : A -> bool) (f : A -> A).
Hypothesis f_keeps : forall x, p x = true -> p (f x) = true.

Lemma find_update_first (l : list A) (a : A) :
  find p l = Some a -> find p (Js.update_first p f l) = Some (f a).
Proof using f_keeps.
  induction l as [|x r IH]; simpl; [discriminate|].
  destruct (p x) eqn:Hx.
  - intros [= <-]. simpl. now rewrite (f_keeps _ Hx).
  - intros H. simpl. rewrite Hx. auto.
Qed.

Lemma update_first_not_found (l : list A) :
  find p l = None -> Js.update_first p f l = l.
Proof using Type.
  induction l as [|x r IH]; simpl; [reflexivity|].
  destruct (p x); [discriminate|]. intros H. now rewrite IH.
Qed.

Lemma update_first_Forall2 (R : A -> A -> Prop) (l : list A) :
  (forall x, R x x) -> (forall a, find p l = Some a -> R a (f a)) ->
  Forall2 R l (Js.update_first p f l).
Proof using Type.
  intros Hrefl. induction l as [|x r IH]; simpl; intros Hf; [constructor|].
  destruct (p x) eqn:Hx.
  - constructor; [auto|]. clear IH Hf. induction r; constructor; auto.
  - constructor; auto.
Qed.

End UpdateFirst.

Lemma Forall2_chain {A : Type} (R : A -> A -> Prop) (l1 l2 l3 : list A) :
  (forall x y z, R x y -> R y z -> R x z) ->
  Forall2 R l1 l2 -> Forall2 R l2 l3 -> Forall2 R l1 l3.
Proof.
  intros Htrans H12. revert l3.
  induction H12 as [|x y r1 r2 Hxy _ IH]; intros l3 H23.
  - inversion H23. constructor.
  - inversion H23 as [|y' z r2' r3 Hyz Hr]; subst. constructor; eauto.
Qed.

Lemma find_some_holds {A : Type} (p : A -> bool) (l : list A) (a : A) :
  find p l = Some a -> p a = true.
Proof.
  induction l as [|x r IH]; simpl; [discriminate|].
  destruct (p x) eqn:Hx; [intros [= <-]; exact Hx | exact IH].
Qed.

(** ** Pruning *)

Section Pruning.

Import Answer.

(** [cleanupOldFaqAnswers] keeps every active and pending_correction
    answer, whatever its age. *)
Lemma answer_cleanup_keeps_non_terminal (cutoff : Z) (a : answer) :
  terminal (status_of a) = false -> cleanup_keeps cutoff a = true.
Proof.
  unfold cleanup_keeps. destruct (status_of a); simpl; intros H;
    first [reflexivity | discriminate].
Qed.

(** An answer that [cleanupOldFaqAnswers] drops is corrected or processed
    and its timestamp is not after the cutoff. *)
Lemma answer_cleanup_drops_only_old_terminal (cutoff : Z) (a : answer) :
  cleanup_keeps cutoff a = false ->
  terminal (status_of a) = true
  /\ exists t, Js.or_else (Js.or_else (correctedAt a) (processedAt a)) (Some (answeredAt a))
               = Some t /\ t <= cutoff.
Proof.
  unfold cleanup_keeps.
  destruct (status_of a); simpl; try discriminate;
    (destruct (Js.or_else _ _) as [t|] eqn:Ht;
     [ intros H; split; [reflexivity|]; exists t; split; [reflexivity|lia]
     | destruct (correctedAt a), (processedAt a); discriminate ]).
Qed.

Lemma answer_cleanup_non_terminal_stay (maxAgeDays now : Z) (s : store) (a : answer) :
  In a s -> terminal (status_of a) = false ->
  In a (snd (cleanupOldFaqAnswers maxAgeDays now s)).
Proof.
  intros Hin Hnt. unfold cleanupOldFaqAnswers. simpl.
  apply filter_In. split; [exact Hin|]. now apply answer_cleanup_keeps_non_terminal.
Qed.

End Pruning.

Section PruningEscalations.

Import Escalation.


(** C1 (escalations). Thirty-one days after it was raised, an escalation
    that is still awaiting_response is removed by
    [cleanupOldEscalations(30)]: the collection that held it is empty
    afterwards and the call reports one removal. The claim says that a
    non-terminal record is never removed. *)
Theorem cleanupOldEscalations_removes_awaiting :
  terminal (status_of Sample.stale_awaiting) = false
  /\ cleanupOldEscalations 30 (Js.days_ms 31) [Sample.stale_awaiting] = (1%nat, []).
Proof.
  split; reflexivity.
Qed.

End PruningEscalations.

(** ** Terminal transitions of a tracked answer *)

Section AnswerTransitions.

Import Answer.

Lemma set_processed_keeps_id (i : string) (now : Z) (info : process_info) (a : answer) :
  has_id i a = true -> has_id i (set_processed now info a) = true.
Proof. exact (fun H => H). Qed.

Lemma set_corrected_keeps_id (i : string) (now : Z) (info : correction_info) (a : answer) :
  has_id i a = true -> has_id i (set_corrected now info a) = true.
Proof. exact (fun H => H). Qed.


(** C4, as stated, fails: [markAnswerCorrected] on an answer that is
    already processed returns [true] and overwrites the record, where the
    claim has it return [false] and leave the record unchanged. *)
Lemma markAnswerCorrected_accepts_processed :
  terminal (status_of Sample.processed_answer) = true
  /\ markAnswerCorrected "ans_1" Sample.a_correction 200 [Sample.processed_answer]
     = (true, [set_corrected 200 Sample.a_correction Sample.processed_answer])
  /\ markAnswerCorrected "ans_1" Sample.a_correction 200 [Sample.processed_answer]
     <> (false, [Sample.processed_answer]).
Proof.
  split; [reflexivity|]. split; [reflexivity|]. discriminate.
Qed.

(** C4, amended. [markAnswerProcessed] and [markAnswerCorrected] return
    [false], leaving the collection unchanged, exactly when no record has
    the identifier. On a record that exists, whatever its status, they
    return [true] and the record becomes processed (resp. corrected),
    stamped with the time of the call and carrying the information
    passed. *)
Theorem mark_answer_unguarded (i : string) (pinfo : process_info)
    (cinfo : correction_info) (now : Z) (s : store) :
  match getFaqAnswerById i s with
  | None =>
      markAnswerProcessed i pinfo now s = (false, s)
      /\ markAnswerCorrected i cinfo now s = (false, s)
  | Some a =>
      (exists s', markAnswerProcessed i pinfo now s = (true, s')
                  /\ getFaqAnswerById i s' = Some (set_processed now pinfo a)
                  /\ status_of (set_processed now pinfo a) = processed
                  /\ processedAt (set_processed now pinfo a) = Some now
                  /\ processInfo (set_processed now pinfo a) = Some pinfo)
      /\ (exists s', markAnswerCorrected i cinfo now s = (true, s')
                  /\ getFaqAnswerById i s' = Some (set_corrected now cinfo a)
                  /\ status_of (set_corrected now cinfo a) = corrected
                  /\ correctedAt (set_corrected now cinfo a) = Some now
                  /\ correctionInfo (set_corrected now cinfo a) = Some cinfo)
  end.
Proof.
  unfold markAnswerProcessed, markAnswerCorrected.
  destruct (getFaqAnswerById i s) as [a|] eqn:Hfind; [|split; reflexivity].
  unfold getFaqAnswerById in *. split.
  - eexists; split; [reflexivity|]. split; [|repeat split].
    apply find_update_first; [apply set_processed_keeps_id | exact Hfind].
  - eexists; split; [reflexivity|]. split; [|repeat split].
    apply find_update_first; [apply set_corrected_keeps_id | exact Hfind].
Qed.

End AnswerTransitions.

(** ** The status never moves back *)

Section StatusOrder.

(** C5, as stated, fails: [markEscalationSkipped] on a completed
    escalation moves it from one terminal status to the other. *)
Lemma status_moves_between_terminals :
  Escalation.status_of Sample.completed_escalation = Escalation.completed
  /\ List.map Escalation.status_of
       (Escalation.run [(10, Escalation.Skip "esc_1" "no_responses_found")]
                       [Sample.completed_escalation])
     = [Escalation.skipped]
  /\ escalation_advances Escalation.completed Escalation.skipped = false.
Proof.
  repeat split.
Qed.

Lemma escalation_not_back_refl (e : Escalation.escalation) : escalation_not_back e e.
Proof. split; [reflexivity | lia]. Qed.

Lemma escalation_not_back_trans (x y z : Escalation.escalation) :
  escalation_not_back x y -> escalation_not_back y z -> escalation_not_back x z.
Proof. intros [H1 H2] [H3 H4]. split; [congruence | lia]. Qed.

Lemma answer_not_back_refl (a : Answer.answer) : answer_not_back a a.
Proof. split; [reflexivity | lia]. Qed.

Lemma answer_not_back_trans (x y z : Answer.answer) :
  answer_not_back x y -> answer_not_back y z -> answer_not_back x z.
Proof. intros [H1 H2] [H3 H4]. split; [congruence | lia]. Qed.

Lemma escalation_op_not_back (now : Z) (o : Escalation.op) (s : Escalation.store) :
  Forall2 escalation_not_back s (Escalation.apply_op now o s).
Proof.
  assert (Hsame : Forall2 escalation_not_back s s).
  { induction s; constructor; auto using escalation_not_back_refl. }
  destruct o as [i d | i u | i r]; simpl.
  - unfold Escalation.recordOwnerResponse.
    destruct (Escalation.getEscalationById i s) as [e|] eqn:Hfind; [|exact Hsame].
    destruct (Escalation.status_of e) eqn:Hst; simpl; try exact Hsame.
    apply update_first_Forall2; [apply escalation_not_back_refl|].
    intros a Ha. split; [reflexivity|].
    unfold Escalation.getEscalationById in Hfind. rewrite Hfind in Ha.
    injection Ha as <-. rewrite Hst. simpl. lia.
  - unfold Escalation.markEscalationComplete.
    destruct (Escalation.getEscalationById i s) as [e0|]; [|exact Hsame]. simpl.
    apply update_first_Forall2; [apply escalation_not_back_refl|].
    intros a _. split; [reflexivity|]. simpl. destruct (Escalation.status_of a); simpl; lia.
  - unfold Escalation.markEscalationSkipped.
    destruct (Escalation.getEscalationById i s) as [e0|]; [|exact Hsame]. simpl.
    apply update_first_Forall2; [apply escalation_not_back_refl|].
    intros a _. split; [reflexivity|]. simpl. destruct (Escalation.status_of a); simpl; lia.
Qed.

Lemma answer_op_not_back (now : Z) (o : Answer.op) (s : Answer.store) :
  Forall2 answer_not_back s (Answer.apply_op now o s).
Proof.
  assert (Hsame : Forall2 answer_not_back s s).
  { induction s; constructor; auto using answer_not_back_refl. }
  destruct o as [i u d | i info | i info]; simpl.
  - unfold Answer.recordCorrectionResponse.
    destruct (Answer.getFaqAnswerById i s) as [a0|] eqn:Hfind; [|exact Hsame].
    destruct (Answer.status_of a0) eqn:Hst; simpl; try exact Hsame;
      (apply update_first_Forall2; [apply answer_not_back_refl|];
       intros a Ha; split; [reflexivity|];
       unfold Answer.getFaqAnswerById in Hfind; rewrite Hfind in Ha;
       injection Ha as <-; simpl; rewrite Hst; simpl; lia).
  - unfold Answer.markAnswerProcessed.
    destruct (Answer.getFaqAnswerById i s) as [a0|]; [|exact Hsame]. simpl.
    apply update_first_Forall2; [apply answer_not_back_refl|].
    intros a _. split; [reflexivity|]. simpl. destruct (Answer.status_of a); simpl; lia.
  - unfold Answer.markAnswerCorrected.
    destruct (Answer.getFaqAnswerById i s) as [a0|]; [|exact Hsame]. simpl.
    apply update_first_Forall2; [apply answer_not_back_refl|].
    intros a _. split; [reflexivity|]. simpl. destruct (Answer.status_of a); simpl; lia.
Qed.

(** C5, amended. Under any sequence of the store operations the
    collection keeps its records, in order, and no record's status moves
    to an earlier stage: an escalation goes from awaiting_response to
    ready_to_synthesize to a terminal status, a tracked answer from
    active to pending_correction to a terminal status, and a record that
    is terminal stays terminal. Which of the two terminal statuses a
    terminal record has may still change. *)
Theorem status_never_moves_back :
  (forall (ops : list (Z * Escalation.op)) (s : Escalation.store),
      Forall2 escalation_not_back s (Escalation.run ops s)
      /\ Forall2 (fun e e' => Escalation.terminal (Escalation.status_of e) = true ->
                              Escalation.terminal (Escalation.status_of e') = true)
                 s (Escalation.run ops s))
  /\ (forall (ops : list (Z * Answer.op)) (s : Answer.store),
      Forall2 answer_not_back s (Answer.run ops s)
      /\ Forall2 (fun a a' => Answer.terminal (Answer.status_of a) = true ->
                              Answer.terminal (Answer.status_of a') = true)
                 s (Answer.run ops s)).
Proof.
  split.
  - assert (H : forall ops s, Forall2 escalation_not_back s (Escalation.run ops s)).
    { induction ops as [|[now o] r IH]; intros s; simpl.
      - induction s; constructor; auto using escalation_not_back_refl.
      - eapply Forall2_chain;
          [exact escalation_not_back_trans | apply escalation_op_not_back | apply IH]. }
    intros ops s. split; [apply H|].
    eapply Forall2_impl; [apply H|].
    intros e e' [_ Hst].
    destruct (Escalation.status_of e), (Escalation.status_of e'); simpl in *;
      intros; first [reflexivity | discriminate | lia].
  - assert (H : forall ops s, Forall2 answer_not_back s (Answer.run ops s)).
    { induction ops as [|[now o] r IH]; intros s; simpl.
      - induction s; constructor; auto using answer_not_back_refl.
      - eapply Forall2_chain;
          [exact answer_not_back_trans | apply answer_op_not_back | apply IH]. }
    intros ops s. split; [apply H|].
    eapply Forall2_impl; [apply H|].
    intros a a' [_ Hst].
    destruct (Answer.status_of a), (Answer.status_of a'); simpl in *;
      intros; first [reflexivity | discriminate | lia].
Qed.

End StatusOrder.

(** ** Responses to a tracked answer *)

Section CorrectionResponse.

Import Answer.

Lemma includes_str_In (l : list string) (x : string) :
  Js.includes_str l x = true <-> In x l.
Proof.
  unfold Js.includes_str. rewrite existsb_exists. split.
  - intros [y [Hy Heq]]. apply String.eqb_eq in Heq. now subst.
  - intros H. exists x. split; [exact H | apply String.eqb_refl].
Qed.








End CorrectionResponse.

(** ** The pending-action store and the approval flow *)

Section DirectMessages.

Import Js Dm.

(** Unfolds the handler and its primitives, leaving the tests on the
    message, the state and the collaborators' answers. *)
Ltac dm_unfold :=
  cbv [onDirectMessage getPendingDm continuePendingDm continueAddKnowledgeArea
       continueCorrectionApproval try_catch bind ret throw mbind mret M_bind M_ret
       set_pending emit setPendingDm clearPendingDm clearPendingDmsForCorrection
       hasProcessed addProcessed cacheDelete postMessage Dm.updateFaqBlock
       Dm.addCommentToBlock Dm.reviseSuggestedUpdate addKnowledgeArea
       pendingDmActions processedCorrections notionCache effects
       now now_restore updateFaqBlock_result addCommentToBlock_throws
       reviseSuggestedUpdate_result resolveUsersByName addKnowledgeArea_throws
       postMessage_throws user channel text data expiresAt
       correctionId blockId blockUrl notionPageId subPageId suggestedUpdate
       originalQuestion areaName channelName name leadUserIds leadNames with_suggestion
       fst snd step mutations].

Ltac dm_unfold_in H :=
  cbv [onDirectMessage getPendingDm continuePendingDm continueAddKnowledgeArea
       continueCorrectionApproval try_catch bind ret throw mbind mret M_bind M_ret
       set_pending emit setPendingDm clearPendingDm clearPendingDmsForCorrection
       hasProcessed addProcessed cacheDelete postMessage Dm.updateFaqBlock
       Dm.addCommentToBlock Dm.reviseSuggestedUpdate addKnowledgeArea
       pendingDmActions processedCorrections notionCache effects
       now now_restore updateFaqBlock_result addCommentToBlock_throws
       reviseSuggestedUpdate_result resolveUsersByName addKnowledgeArea_throws
       postMessage_throws user channel text data expiresAt
       correctionId blockId blockUrl notionPageId subPageId suggestedUpdate
       originalQuestion areaName channelName name leadUserIds leadNames with_suggestion
       fst snd step mutations] in H.

(** Splits on a test whose subject contains no further test. *)
Ltac split_step :=
  match goal with
  | |- context [match ?x with _ => _ end] =>
      lazymatch x with
      | context [match _ with _ => _ end] => fail
      | _ => destruct x eqn:?
      end
  end.

Ltac split_cases := repeat (split_step; dm_unfold).




(** The handler catches every exception. *)
Lemma onDirectMessage_returns (w : world) (ev : message) (s : state) :
  fst (onDirectMessage w ev s) = Returns tt.
Proof.
  destruct s as [pend proc cache effs], w as [t t' upd cmt rev res aka post],
           ev as [u ch txt].
  dm_unfold.
  destruct (pend !! u) as [[dat ex]|] eqn:Hl; [|reflexivity].
  destruct (ex <? t) eqn:Hex; [reflexivity|].
  destruct dat as [[nm ds kw li ln] | [cid0 blk burl pg sub sug oq an cn] | other];
    dm_unfold; [| |reflexivity].
  - split_cases; reflexivity.
  - destruct (bool_decide (cid0 ∈ proc)) eqn:Hproc; dm_unfold;
      split_cases; reflexivity.
Qed.





(** *** The branches of the approval flow *)


(** An approval, with a block reference, of a correction that is not yet
    applied, when [updateFaqBlock] returns. *)
Lemma approval_success_branch (w : world) (ev : message) (s : state)
    (p : pending) (d : correction_data) (blk url : string) :
  pendingDmActions s !! user ev = Some p ->
  (expiresAt p <? now w) = false ->
  data p = FaqCorrectionApproval d ->
  correctionId d ∉ processedCorrections s ->
  isApproval (text ev) = true ->
  blockId d = Some blk ->
  Text.nonempty blk = true ->
  updateFaqBlock_result w = Returns url ->
  pendingDmActions (snd (onDirectMessage w ev s))
  = filter (fun kv : string * pending => references (correctionId d) kv.2 = false)
           (delete (user ev) (pendingDmActions s))
  /\ processedCorrections (snd (onDirectMessage w ev s))
     = {[correctionId d]} ∪ processedCorrections s
  /\ exists rest,
       effects (snd (onDirectMessage w ev s))
       = (effects s
          ++ [UpdateFaqBlock (correctionId d) blk (suggestedUpdate d) (Returns url);
              AddCommentToBlock blk (addCommentToBlock_throws w);
              PostMessage (channel ev) (Done url) (postMessage_throws w (Done url))]
          ++ rest)%list
       /\ Forall is_post rest.
Proof.
  destruct s as [pend proc cache effs], w as [t t' upd cmt rev res aka post],
           ev as [u ch txt], p as [dat ex],
           d as [cid0 blk0 burl pg sub sug oq an cn].
  cbn [pendingDmActions processedCorrections notionCache effects user channel text
       expiresAt data now postMessage_throws correctionId blockId suggestedUpdate
       updateFaqBlock_result addCommentToBlock_throws].
  intros Hl Hex -> Hnin Happ -> Hblk ->. dm_unfold. rewrite Hl. dm_unfold.
  rewrite Hex. dm_unfold. rewrite (bool_decide_eq_false_2 _ Hnin). dm_unfold.
  rewrite Happ. dm_unfold. rewrite Hblk. dm_unfold.
  assert (Hposts :
    forall l, Forall is_post l ->
      Forall is_post (l ++ [PostMessage ch HandlerError (post HandlerError)])%list).
  { intros l Hp. apply Forall_app. split; [exact Hp|]. repeat constructor. }
  split_cases; rewrite ?map_filter_delete, ?delete_delete_eq;
    (split; [reflexivity|]); (split; [reflexivity|]);
    repeat rewrite <- app_assoc; cbn [app];
    eexists; (split; [reflexivity|]); repeat constructor.
Qed.

(** The same approval when [updateFaqBlock] throws. *)
Lemma approval_failure_branch (w : world) (ev : message) (s : state)
    (p : pending) (d : correction_data) (blk e : string) :
  pendingDmActions s !! user ev = Some p ->
  (expiresAt p <? now w) = false ->
  data p = FaqCorrectionApproval d ->
  correctionId d ∉ processedCorrections s ->
  isApproval (text ev) = true ->
  blockId d = Some blk ->
  Text.nonempty blk = true ->
  updateFaqBlock_result w = Throws e ->
  pendingDmActions (snd (onDirectMessage w ev s))
  = (if postMessage_throws w (UpdateError e)
     then pendingDmActions s
     else delete (user ev) (pendingDmActions s))
  /\ processedCorrections (snd (onDirectMessage w ev s)) = processedCorrections s
  /\ notionCache (snd (onDirectMessage w ev s)) = notionCache s
  /\ effects (snd (onDirectMessage w ev s))
     = (effects s
        ++ UpdateFaqBlock (correctionId d) blk (suggestedUpdate d) (Throws e)
           :: PostMessage (channel ev) (UpdateError e) (postMessage_throws w (UpdateError e))
           :: (if postMessage_throws w (UpdateError e)
               then [PostMessage (channel ev) HandlerError (postMessage_throws w HandlerError)]
               else []))%list.
Proof.
  destruct s as [pend proc cache effs], w as [t t' upd cmt rev res aka post],
           ev as [u ch txt], p as [dat ex],
           d as [cid0 blk0 burl pg sub sug oq an cn].
  cbn [pendingDmActions processedCorrections notionCache effects user channel text
       expiresAt data now postMessage_throws correctionId blockId suggestedUpdate
       updateFaqBlock_result addCommentToBlock_throws].
  intros Hl Hex -> Hnin Happ -> Hblk ->. dm_unfold. rewrite Hl. dm_unfold.
  rewrite Hex. dm_unfold. rewrite (bool_decide_eq_false_2 _ Hnin). dm_unfold.
  rewrite Happ. dm_unfold. rewrite Hblk. dm_unfold.
  destruct (post (UpdateError e)) eqn:Hpost; dm_unfold.
  - destruct (post HandlerError); (repeat split; []);
      repeat rewrite <- app_assoc; reflexivity.
  - repeat split. repeat rewrite <- app_assoc. reflexivity.
Qed.

(** Revision feedback when the revision oracle throws. *)
Lemma revision_failure_branch (w : world) (ev : message) (s : state)
    (p : pending) (d : correction_data) (e : string) :
  pendingDmActions s !! user ev = Some p ->
  (expiresAt p <? now w) = false ->
  data p = FaqCorrectionApproval d ->
  correctionId d ∉ processedCorrections s ->
  isApproval (text ev) = false ->
  isRejection (text ev) = false ->
  reviseSuggestedUpdate_result w = Throws e ->
  pendingDmActions (snd (onDirectMessage w ev s)) = pendingDmActions s
  /\ processedCorrections (snd (onDirectMessage w ev s)) = processedCorrections s
  /\ notionCache (snd (onDirectMessage w ev s)) = notionCache s
  /\ effects (snd (onDirectMessage w ev s))
     = (effects s
        ++ ReviseSuggestedUpdate (suggestedUpdate d) (text ev) (Throws e)
           :: PostMessage (channel ev) ReviseError (postMessage_throws w ReviseError)
           :: (if postMessage_throws w ReviseError
               then [PostMessage (channel ev) HandlerError (postMessage_throws w HandlerError)]
               else []))%list.
Proof.
  destruct s as [pend proc cache effs], w as [t t' upd cmt rev res aka post],
           ev as [u ch txt], p as [dat ex],
           d as [cid0 blk0 burl pg sub sug oq an cn].
  cbn [pendingDmActions processedCorrections notionCache effects user channel text
       expiresAt data now postMessage_throws correctionId blockId suggestedUpdate
       reviseSuggestedUpdate_result].
  intros Hl Hex -> Hnin Happ Hrej ->. dm_unfold. rewrite Hl. dm_unfold.
  rewrite Hex. dm_unfold. rewrite (bool_decide_eq_false_2 _ Hnin). dm_unfold.
  rewrite Happ. dm_unfold. rewrite Hrej. dm_unfold.
  destruct (post ReviseError) eqn:Hpost; dm_unfold.
  - destruct (post HandlerError); (repeat split; []);
      repeat rewrite <- app_assoc; reflexivity.
  - repeat split. repeat rewrite <- app_assoc. reflexivity.
Qed.

(** A message of a user whose pending action has expired. *)
Lemma expired_branch (w : world) (ev : message) (s : state) (p : pending) :
  pendingDmActions s !! user ev = Some p ->
  expiresAt p < now w ->
  pendingDmActions (snd (onDirectMessage w ev s)) = delete (user ev) (pendingDmActions s)
  /\ processedCorrections (snd (onDirectMessage w ev s)) = processedCorrections s
  /\ notionCache (snd (onDirectMessage w ev s)) = notionCache s
  /\ effects (snd (onDirectMessage w ev s)) = effects s.
Proof.
  destruct s as [pend proc cache effs], w as [t t' upd cmt rev res aka post],
           ev as [u ch txt], p as [dat ex].
  cbn [pendingDmActions processedCorrections notionCache effects user expiresAt now].
  intros Hl Hex. dm_unfold. rewrite Hl. dm_unfold.
  apply Z.ltb_lt in Hex. rewrite Hex. repeat split.
Qed.

Ltac absent :=
  repeat first
    [ assumption
    | apply map_lookup_filter_None_2; left
    | apply lookup_delete_None; right
    | apply lookup_insert_None; split; [|assumption] ].

(** A message does not create a pending action for a user who has none. *)
Lemma onDirectMessage_keeps_absent (w : world) (ev : message) (s : state) (v : string) :
  pendingDmActions s !! v = None ->
  pendingDmActions (snd (onDirectMessage w ev s)) !! v = None.
Proof.
  destruct s as [pend proc cache effs], w as [t t' upd cmt rev res aka post],
           ev as [u ch txt].
  cbn [pendingDmActions]. intros Hv. dm_unfold.
  destruct (pend !! u) as [[dat ex]|] eqn:Hl; [|exact Hv].
  assert (Hne : u <> v) by (intros ->; congruence).
  destruct (ex <? t) eqn:Hex; dm_unfold; [absent|].
  destruct dat as [[nm ds kw li ln] | [cid0 blk burl pg sub sug oq an cn] | other];
    dm_unfold; [| |absent].
  - split_cases; absent.
  - destruct (bool_decide (cid0 ∈ proc)) eqn:Hproc; dm_unfold; split_cases; absent.
Qed.

Lemma run_keeps_absent (es : list event) (s : state) (v : string) :
  Forall (no_write_for v) es ->
  pendingDmActions s !! v = None ->
  pendingDmActions (run es s) !! v = None.
Proof.
  intros Hes. revert s. induction Hes as [|e r He _ IH]; intros s Hv; [exact Hv|].
  simpl. apply IH. destruct e as [u d t | w ev]; simpl in *.
  - destruct s. cbn. now apply lookup_insert_None.
  - now apply onDirectMessage_keeps_absent.
Qed.

(** *** One mutation per correction *)



(** *** Expiry of a pending action *)

(** C8. [setPendingDm] stores the action with an expiry ten minutes
    (600000 ms) after the write. A lookup made after [expiresAt] returns
    nothing and deletes the entry; a message that arrives then is not
    continued against it: no call is made, nothing is marked applied,
    only the expired entry leaves the map, and the message is handled as
    it is for a user without a pending action. After that, whatever messages
    arrive and whatever is stored for other users, every lookup for that
    user returns nothing until a new action is stored for them. *)
Theorem pending_action_expires :
  PENDING_DM_EXPIRY_MS = 10 * 60 * 1000
  /\ (forall u d t s,
        pendingDmActions (snd (setPendingDm u d t s)) !! u
        = Some {| data := d; expiresAt := t + PENDING_DM_EXPIRY_MS |})
  /\ (forall u t s p,
        pendingDmActions s !! u = Some p ->
        expiresAt p < t ->
        fst (getPendingDm u t s) = Returns None
        /\ pendingDmActions (snd (getPendingDm u t s)) = delete u (pendingDmActions s)
        /\ pendingDmActions (snd (getPendingDm u t s)) !! u = None)
  /\ (forall w ev s p,
        pendingDmActions s !! user ev = Some p ->
        expiresAt p < now w ->
        pendingDmActions (snd (onDirectMessage w ev s))
        = delete (user ev) (pendingDmActions s)
        /\ processedCorrections (snd (onDirectMessage w ev s)) = processedCorrections s
        /\ notionCache (snd (onDirectMessage w ev s)) = notionCache s
        /\ effects (snd (onDirectMessage w ev s)) = effects s
        /\ onDirectMessage w ev s
           = onDirectMessage w ev (snd (clearPendingDm (user ev) s)))
  /\ (forall u t s p es t',
        pendingDmActions s !! u = Some p ->
        expiresAt p < t ->
        Forall (no_write_for u) es ->
        fst (getPendingDm u t' (run es (snd (getPendingDm u t s)))) = Returns None).
Proof.
  assert (Hlookup : forall u t s p,
    pendingDmActions s !! u = Some p -> expiresAt p < t ->
    fst (getPendingDm u t s) = Returns None
    /\ pendingDmActions (snd (getPendingDm u t s)) = delete u (pendingDmActions s)
    /\ pendingDmActions (snd (getPendingDm u t s)) !! u = None).
  { intros u t [pend proc cache effs] [dat ex]. cbn [pendingDmActions expiresAt].
    intros Hl Hex. dm_unfold. rewrite Hl. dm_unfold.
    apply Z.ltb_lt in Hex. rewrite Hex. dm_unfold.
    split; [reflexivity|]. split; [reflexivity|]. apply lookup_delete_eq. }
  split; [reflexivity|].
  split.
  { intros u d t [pend proc cache effs]. dm_unfold. apply lookup_insert_eq. }
  split; [exact Hlookup|].
  split.
  { intros w ev s p Hl Hex.
    destruct (expired_branch w ev s p Hl Hex) as (H1 & H2 & H3 & H4).
    repeat (split; [assumption|]).
    destruct s as [pend proc cache effs], w as [t t' upd cmt rev res aka post],
             ev as [u ch txt], p as [dat ex].
    cbn [pendingDmActions user expiresAt now] in Hl, Hex. dm_unfold.
    rewrite Hl, lookup_delete_eq. dm_unfold.
    apply Z.ltb_lt in Hex. now rewrite Hex. }
  intros u t s p es t' Hl Hex Hes.
  destruct (Hlookup u t s p Hl Hex) as (_ & _ & Hnone).
  pose proof (run_keeps_absent es _ u Hes Hnone) as Hrun.
  destruct (run es (snd (getPendingDm u t s))) as [pend proc cache effs].
  cbn [pendingDmActions] in Hrun. dm_unfold. now rewrite Hrun.
Qed.

(** The sample request stored at time 0 is looked up eleven minutes
    later, and again at any later time after a message of the other
    lead. *)
Lemma expired_request_is_gone :
  fst (getPendingDm "U1" 700000
         (run [DirectMessage (Sample.world_ok 660001) (Sample.yes_from "U2")]
              (snd (getPendingDm "U1" 660000 Sample.two_requests))))
  = Returns None.
Proof.
  apply (proj2 (proj2 (proj2 (proj2 pending_action_expires)))
           "U1" 660000 Sample.two_requests
           {| data := FaqCorrectionApproval Sample.request;
              expiresAt := 0 + PENDING_DM_EXPIRY_MS |}).
  - vm_compute. reflexivity.
  - vm_compute. reflexivity.
  - repeat constructor.
Defined.

(** *** A failing document update *)

(** C6, as stated, fails: the first lead approves, the document store
    rejects the update, and the handler, having caught the error and
    posted its error reply, deletes that lead's pending action, which the
    claim has left intact. *)
Lemma failed_update_clears_pending_action :
  pendingDmActions Sample.two_requests !! "U1"
  = Some {| data := FaqCorrectionApproval Sample.request;
            expiresAt := 0 + PENDING_DM_EXPIRY_MS |}
  /\ isApproval (text (Sample.yes_from "U1")) = true
  /\ effects (snd (onDirectMessage (Sample.world_update_fails 1000) (Sample.yes_from "U1")
                                   Sample.two_requests))
     = [UpdateFaqBlock "ans_1" "aaaaaaaa-aaaa-aaaa-aaaa-aaaaaaaaaaaa"
                       "Refunds take ten days." (Throws "Could not find block");
        PostMessage "D-U1" (UpdateError "Could not find block") false]
  /\ pendingDmActions
       (snd (onDirectMessage (Sample.world_update_fails 1000) (Sample.yes_from "U1")
                             Sample.two_requests)) !! "U1"
     = None.
Proof.
  repeat split; vm_compute; reflexivity.
Qed.

(** C6, amended. The handler catches every failure of a collaborator.
    When the document update throws during an approval, it posts an error
    reply and then deletes the approver's pending action; the pending
    actions of other users, the applied-correction marker and the cache
    are untouched. When the revision oracle throws on revision feedback,
    it posts an apology and leaves every pending action, the user's own
    included, as it was. *)
Theorem upstream_failure_handling (w : world) (ev : message) (s : state)
    (p : pending) (d : correction_data) :
  pendingDmActions s !! user ev = Some p ->
  (expiresAt p <? now w) = false ->
  data p = FaqCorrectionApproval d ->
  correctionId d ∉ processedCorrections s ->
  let s' := snd (onDirectMessage w ev s) in
  fst (onDirectMessage w ev s) = Returns tt
  /\ (forall blk e,
        isApproval (text ev) = true ->
        blockId d = Some blk ->
        Text.nonempty blk = true ->
        updateFaqBlock_result w = Throws e ->
        (exists rest,
            effects s'
            = (effects s
               ++ [UpdateFaqBlock (correctionId d) blk (suggestedUpdate d) (Throws e);
                   PostMessage (channel ev) (UpdateError e)
                               (postMessage_throws w (UpdateError e))]
               ++ rest)%list
            /\ Forall is_post rest)
        /\ (postMessage_throws w (UpdateError e) = false ->
            pendingDmActions s' !! user ev = None)
        /\ (forall u, u <> user ev -> pendingDmActions s' !! u = pendingDmActions s !! u)
        /\ processedCorrections s' = processedCorrections s
        /\ notionCache s' = notionCache s)
  /\ (forall e,
        isApproval (text ev) = false ->
        isRejection (text ev) = false ->
        reviseSuggestedUpdate_result w = Throws e ->
        (exists rest,
            effects s'
            = (effects s
               ++ [ReviseSuggestedUpdate (suggestedUpdate d) (text ev) (Throws e);
                   PostMessage (channel ev) ReviseError (postMessage_throws w ReviseError)]
               ++ rest)%list
            /\ Forall is_post rest)
        /\ pendingDmActions s' = pendingDmActions s
        /\ pendingDmActions s' !! user ev = Some p
        /\ processedCorrections s' = processedCorrections s).
Proof.
  intros Hl Hex Hd Hnin s'. split; [apply onDirectMessage_returns|]. split.
  - intros blk e Happ Hb Hne Hupd.
    destruct (approval_failure_branch w ev s p d blk e Hl Hex Hd Hnin Happ Hb Hne Hupd)
      as (Hp & Hc & Hn & He).
    fold s' in Hp, Hc, Hn, He.
    split; [|split; [|split; [|split]]]; try assumption.
    + rewrite He. eexists. split; [reflexivity|].
      destruct (postMessage_throws w (UpdateError e)); repeat constructor.
    + intros Hpost. rewrite Hp, Hpost. apply lookup_delete_eq.
    + intros u Hu. rewrite Hp.
      destruct (postMessage_throws w (UpdateError e)); [reflexivity|].
      apply lookup_delete_ne. congruence.
  - intros e Happ Hrej Hrev.
    destruct (revision_failure_branch w ev s p d e Hl Hex Hd Hnin Happ Hrej Hrev)
      as (Hp & Hc & _ & He).
    fold s' in Hp, Hc, He.
    split; [|split; [|split]]; try assumption.
    + rewrite He. eexists. split; [reflexivity|].
      destruct (postMessage_throws w ReviseError); repeat constructor.
    + now rewrite Hp.
Qed.

(** The first lead sends revision feedback while the revision oracle is
    down: the request is still pending afterwards. *)
Lemma failed_revision_keeps_pending_action :
  pendingDmActions
    (snd (onDirectMessage (Sample.world_revise_fails 1000) (Sample.feedback_from "U1")
                          Sample.two_requests)) !! "U1"
  = Some {| data := FaqCorrectionApproval Sample.request;
            expiresAt := 0 + PENDING_DM_EXPIRY_MS |}.
Proof.
  assert (Hl : pendingDmActions Sample.two_requests !! user (Sample.feedback_from "U1")
               = Some {| data := FaqCorrectionApproval Sample.request;
                         expiresAt := 0 + PENDING_DM_EXPIRY_MS |})
    by (vm_compute; reflexivity).
  assert (Hnin : correctionId Sample.request ∉ processedCorrections Sample.two_requests)
    by (change (correctionId Sample.request ∉ (∅ : gset string));
        apply not_elem_of_empty).
  exact (proj1 (proj2 (proj2
    (proj2 (proj2 (upstream_failure_handling
              (Sample.world_revise_fails 1000) (Sample.feedback_from "U1")
              Sample.two_requests _ Sample.request Hl eq_refl eq_refl Hnin))
           "overloaded" eq_refl eq_refl eq_refl)))).
Defined.

(** *** A correction stays open until its mutation succeeds *)

Lemma count_mutations_app (cid : string) (l l' : list effect) :
  count_mutations cid (l ++ l') = (count_mutations cid l + count_mutations cid l')%nat.
Proof.
  unfold count_mutations. now rewrite List.filter_app, List.length_app.
Qed.

Lemma count_mutations_posts (cid : string) (l : list effect) :
  Forall is_post l -> count_mutations cid l = 0%nat.
Proof.
  induction 1 as [|e r He _ IH]; [reflexivity|].
  destruct e; try contradiction. exact IH.
Qed.

(** C10. A lead approves a correction that has a block reference and is
    not yet applied. If [updateFaqBlock] throws, the correction is not
    marked applied, no mutation is recorded, no pending action of another
    user is touched, and the approver's own pending action is deleted
    once the error reply is posted; an approval of the same correction by
    another lead, whose pending action is thus still there, then applies
    it: one mutation, the marker set, and no pending action left that
    references the correction. Conversely the marker is set, or a pending
    action of another user removed, only if [updateFaqBlock] returned and
    the mutation was made. *)
Theorem failed_update_leaves_correction_open (w : world) (ev : message) (s : state)
    (p : pending) (d : correction_data) (blk : string) :
  pendingDmActions s !! user ev = Some p ->
  (expiresAt p <? now w) = false ->
  data p = FaqCorrectionApproval d ->
  correctionId d ∉ processedCorrections s ->
  isApproval (text ev) = true ->
  blockId d = Some blk ->
  Text.nonempty blk = true ->
  let s1 := snd (onDirectMessage w ev s) in
  (forall e,
      updateFaqBlock_result w = Throws e ->
      processedCorrections s1 = processedCorrections s
      /\ (correctionId d ∉ processedCorrections s1)
      /\ (forall cid, mutations cid s1 = mutations cid s)
      /\ (forall u, u <> user ev -> pendingDmActions s1 !! u = pendingDmActions s !! u)
      /\ (postMessage_throws w (UpdateError e) = false ->
          pendingDmActions s1 !! user ev = None)
      /\ (forall w2 ev2 p2 d2 blk2 url,
            user ev2 <> user ev ->
            pendingDmActions s !! user ev2 = Some p2 ->
            (expiresAt p2 <? now w2) = false ->
            data p2 = FaqCorrectionApproval d2 ->
            correctionId d2 = correctionId d ->
            isApproval (text ev2) = true ->
            blockId d2 = Some blk2 ->
            Text.nonempty blk2 = true ->
            updateFaqBlock_result w2 = Returns url ->
            let s2 := snd (onDirectMessage w2 ev2 s1) in
            correctionId d ∈ processedCorrections s2
            /\ mutations (correctionId d) s2 = S (mutations (correctionId d) s)
            /\ (forall u q, pendingDmActions s2 !! u = Some q ->
                            references (correctionId d) q = false)))
  /\ ((correctionId d ∈ processedCorrections s1
       \/ exists u, u <> user ev /\ pendingDmActions s1 !! u <> pendingDmActions s !! u) ->
      exists url,
        updateFaqBlock_result w = Returns url
        /\ mutations (correctionId d) s1 = S (mutations (correctionId d) s)).
Proof.
  intros Hl Hex Hd Hnin Happ Hb Hne s1.
  assert (Hfail : forall e, updateFaqBlock_result w = Throws e ->
    processedCorrections s1 = processedCorrections s
    /\ (forall cid, mutations cid s1 = mutations cid s)
    /\ (forall u, u <> user ev -> pendingDmActions s1 !! u = pendingDmActions s !! u)
    /\ (postMessage_throws w (UpdateError e) = false ->
        pendingDmActions s1 !! user ev = None)).
  { intros e Hupd.
    destruct (approval_failure_branch w ev s p d blk e Hl Hex Hd Hnin Happ Hb Hne Hupd)
      as (Hp & Hc & _ & He).
    fold s1 in Hp, Hc, He.
    split; [exact Hc|]. split; [|split].
    - intros cid. unfold mutations. rewrite He.
      destruct (postMessage_throws w (UpdateError e));
        change (?l ++ ?a :: ?b :: ?r)%list with (l ++ [a; b] ++ r)%list;
        rewrite !count_mutations_app; cbn; lia.
    - intros u Hu. rewrite Hp.
      destruct (postMessage_throws w (UpdateError e)); [reflexivity|].
      apply lookup_delete_ne. congruence.
    - intros Hpost. rewrite Hp, Hpost. apply lookup_delete_eq. }
  split.
  - intros e Hupd. destruct (Hfail e Hupd) as (Hc & Hm & Ho & Hown).
    split; [exact Hc|]. split; [now rewrite Hc|]. split; [exact Hm|].
    split; [exact Ho|]. split; [exact Hown|].
    intros w2 ev2 p2 d2 blk2 url Hu Hl2 Hex2 Hd2 Hcid Happ2 Hb2 Hne2 Hupd2 s2.
    assert (Hl2' : pendingDmActions s1 !! user ev2 = Some p2) by now rewrite Ho.
    assert (Hnin2 : correctionId d2 ∉ processedCorrections s1) by now rewrite Hcid, Hc.
    destruct (approval_success_branch w2 ev2 s1 p2 d2 blk2 url
                Hl2' Hex2 Hd2 Hnin2 Happ2 Hb2 Hne2 Hupd2) as (Hp2 & Hc2 & rest & He2 & Hrest).
    fold s2 in Hp2, Hc2, He2. rewrite Hcid in *.
    split; [rewrite Hc2; apply elem_of_union_l, elem_of_singleton; reflexivity|].
    split.
    + unfold mutations at 1. rewrite He2, !count_mutations_app.
      rewrite (count_mutations_posts _ rest Hrest).
      fold (mutations (correctionId d) s1). rewrite Hm.
      cbn. rewrite String.eqb_refl. cbn. lia.
    + intros u q Hq. rewrite Hp2 in Hq.
      apply map_lookup_filter_Some in Hq. exact (proj2 Hq).
  - intros Hchanged.
    destruct (updateFaqBlock_result w) as [url | e] eqn:Hupd.
    + exists url. split; [reflexivity|].
      destruct (approval_success_branch w ev s p d blk url
                  Hl Hex Hd Hnin Happ Hb Hne Hupd) as (_ & _ & rest & He & Hrest).
      fold s1 in He. unfold mutations at 1. rewrite He, !count_mutations_app.
      rewrite (count_mutations_posts _ rest Hrest).
      fold (mutations (correctionId d) s).
      cbn. rewrite String.eqb_refl. cbn. lia.
    + exfalso. destruct (Hfail e eq_refl) as (Hc & _ & Ho & _).
      destruct Hchanged as [Hin | [u [Hu Hdiff]]].
      * rewrite Hc in Hin. contradiction.
      * apply Hdiff, Ho, Hu.
Qed.

(** The document store rejects the first lead's approval of the sample
    correction: the second lead's request is still pending. *)
Lemma failed_update_keeps_sibling :
  pendingDmActions
    (snd (onDirectMessage (Sample.world_update_fails 1000) (Sample.yes_from "U1")
                          Sample.two_requests)) !! "U2"
  = pendingDmActions Sample.two_requests !! "U2".
Proof.
  assert (Hl : pendingDmActions Sample.two_requests !! user (Sample.yes_from "U1")
               = Some {| data := FaqCorrectionApproval Sample.request;
                         expiresAt := 0 + PENDING_DM_EXPIRY_MS |})
    by (vm_compute; reflexivity).
  assert (Hnin : correctionId Sample.request ∉ processedCorrections Sample.two_requests)
    by (change (correctionId Sample.request ∉ (∅ : gset string));
        apply not_elem_of_empty).
  assert (Happ : isApproval (text (Sample.yes_from "U1")) = true)
    by (vm_compute; reflexivity).
  assert (Hne : Text.nonempty "aaaaaaaa-aaaa-aaaa-aaaa-aaaaaaaaaaaa" = true)
    by (vm_compute; reflexivity).
  apply (proj1 (proj2 (proj2 (proj2
           (proj1 (failed_update_leaves_correction_open
                     (Sample.world_update_fails 1000) (Sample.yes_from "U1")
                     Sample.two_requests _ Sample.request _
                     Hl eq_refl eq_refl Hnin Happ eq_refl Hne)
                  "Could not find block" eq_refl))))).
  discriminate.
Defined.

End DirectMessages.

(** ** The approval requests of the periodic job *)

Section ApprovalRequests.

Import Js Jobs.









End ApprovalRequests.

(** ** The document block matcher *)

Section BlockMatcher.

Import Js Notion.

(** Induction on a document tree: the property holds of a node when it
    holds of its children. *)
Lemma node_tree_ind (P : node -> Prop) :
  (forall i t h f c, Forall P c -> P (mkNode i t h f c)) ->
  forall n, P n.
Proof.
  intros step. fix IH 1. intros [i t h f c]. apply step.
  induction c as [|x r IHr]; constructor; [apply IH | exact IHr].
Qed.






Lemma scan_blocks_cons (rec : node -> outcome (option block_info))
    (snippets : list string) (block : node) (rest : list node)
    (best : option best_match * Q) :
  scan_blocks rec snippets (block :: rest) best
  = scan_blocks rec snippets rest (after_block rec snippets block best).
Proof.
  unfold after_block. simpl.
  destruct (negb (Text.nonempty (node_text block))); reflexivity.
Qed.








(** *** Direct matches above the score of nested ones *)











(** The function in terms of the fields of the node it is called on. *)
Lemma findBlockByContent_unfold (n : node) (searchTexts : list string) :
  findBlockByContent n searchTexts
  = match extractPageId (node_id n) with
    | None => Throws ("Invalid page ID: " ++ node_id n)
    | Some normalizedPageId =>
        match searchTexts with
        | [] => Returns None
        | _ =>
            match normalize_all searchTexts with
            | [] => Returns None
            | _ =>
                if list_throws n then Returns None
                else
                  match fst (scan_blocks (fun b => findBlockByContent b searchTexts)
                                         (normalize_all searchTexts) (children n)
                                         (None, 0%Q)) with
                  | None => Returns None
                  | Some bm =>
                      Returns (Some
                        {| blockId := best_blockId bm;
                           blockUrl := "https://notion.so/"
                                       ++ Text.remove_dashes normalizedPageId
                                       ++ "#" ++ Text.remove_dashes (best_blockId bm);
                           matchedText := best_matchedText bm |})
                  end
            end
        end
    end.
Proof.
  destruct n as [i t h f c]. cbn [findBlockByContent node_id list_throws children].
  destruct (extractPageId i); [|reflexivity].
  destruct searchTexts as [|s0 r]; [reflexivity|].
  destruct (normalize_all (s0 :: r)); reflexivity.
Qed.










End BlockMatcher.

(** * Further properties of the code *)

(** ** The life of a tracked record *)

Section TrackerLifecycle.

Lemma find_snoc {A : Type} (p : A -> bool) (l : list A) (x : A) :
  find p (l ++ [x])%list
  = match find p l with
    | Some y => Some y
    | None => if p x then Some x else None
    end.
Proof.
  induction l as [|y r IH]; simpl; [reflexivity|].
  destruct (p y); [reflexivity | exact IH].
Qed.

Lemma find_In {A : Type} (p : A -> bool) (l : list A) (a : A) :
  find p l = Some a -> In a l.
Proof.
  induction l as [|x r IH]; simpl; [discriminate|].
  destruct (p x); [intros [= <-]; now left | intros H; right; auto].
Qed.




(** X3. The lookups by thread return only records of that thread that
    are not terminal, so a reply in a thread whose record is completed,
    skipped, corrected or processed finds nothing. A record just tracked
    makes its thread answer the lookup, and is the record its identifier
    names when the identifier is new. *)
Theorem thread_lookups_see_only_open_records :
  (forall ch ts s e,
      Escalation.getActiveEscalationByThread ch ts s = Some e ->
      In e s /\ Escalation.channel e = ch /\ Escalation.threadTs e = ts
      /\ Escalation.terminal (Escalation.status_of e) = false)
  /\ (forall ch ts s e,
      Escalation.getEscalationByThread ch ts s = Some e ->
      In e s /\ Escalation.channel e = ch /\ Escalation.threadTs e = ts
      /\ Escalation.status_of e = Escalation.awaiting_response)
  /\ (forall ch ts s a,
      Answer.getActiveFaqAnswerByThread ch ts s = Some a ->
      In a s /\ Answer.channel a = ch /\ Answer.threadTs a = ts
      /\ Answer.terminal (Answer.status_of a) = false)
  /\ (forall new_id n now s,
      let r := Escalation.trackEscalation new_id n now s in
      Escalation.status_of (fst r) = Escalation.awaiting_response
      /\ Escalation.escalatedAt (fst r) = now
      /\ (exists e, Escalation.getEscalationByThread
                      (Escalation.new_channel n) (Escalation.new_threadTs n) (snd r)
                    = Some e)
      /\ (Escalation.getEscalationById new_id s = None ->
          Escalation.getEscalationById new_id (snd r) = Some (fst r)))
  /\ (forall new_id n now s,
      let r := Answer.trackFaqAnswer new_id n now s in
      Answer.status_of (fst r) = Answer.active
      /\ Answer.responders (fst r) = []
      /\ (exists a, Answer.getActiveFaqAnswerByThread
                      (Answer.new_channel n) (Answer.new_threadTs n) (snd r)
                    = Some a)
      /\ (Answer.getFaqAnswerById new_id s = None ->
          Answer.getFaqAnswerById new_id (snd r) = Some (fst r))).
Proof.
  split; [|split; [|split; [|split]]].
  - intros ch ts s e H. unfold Escalation.getActiveEscalationByThread in H.
    split; [eapply find_In, H|]. apply find_some_holds in H.
    apply andb_prop in H. destruct H as [H Hact]. apply andb_prop in H.
    destruct H as [Hch Hts]. apply String.eqb_eq in Hch, Hts.
    repeat split; try assumption.
    unfold Escalation.is_active in Hact.
    destruct (Escalation.status_of e); first [reflexivity | discriminate].
  - intros ch ts s e H. unfold Escalation.getEscalationByThread in H.
    split; [eapply find_In, H|]. apply find_some_holds in H.
    apply andb_prop in H. destruct H as [H Hact]. apply andb_prop in H.
    destruct H as [Hch Hts]. apply String.eqb_eq in Hch, Hts.
    repeat split; try assumption.
    destruct (Escalation.status_of e); first [reflexivity | discriminate].
  - intros ch ts s a H. unfold Answer.getActiveFaqAnswerByThread in H.
    split; [eapply find_In, H|]. apply find_some_holds in H.
    apply andb_prop in H. destruct H as [H Hact]. apply andb_prop in H.
    destruct H as [Hch Hts]. apply String.eqb_eq in Hch, Hts.
    repeat split; try assumption.
    unfold Answer.is_active in Hact.
    destruct (Answer.status_of a); first [reflexivity | discriminate].
  - intros new_id n now s r. subst r. unfold Escalation.trackEscalation. cbn [fst snd].
    split; [reflexivity|]. split; [reflexivity|]. split.
    + unfold Escalation.getEscalationByThread. rewrite find_snoc.
      destruct (find _ s) as [y|]; [now exists y|]. cbn.
      rewrite !String.eqb_refl. eexists. reflexivity.
    + intros Hnone. unfold Escalation.getEscalationById in *. rewrite find_snoc, Hnone.
      unfold Escalation.has_id. cbn. now rewrite String.eqb_refl.
  - intros new_id n now s r. subst r. unfold Answer.trackFaqAnswer. cbn [fst snd].
    split; [reflexivity|]. split; [reflexivity|]. split.
    + unfold Answer.getActiveFaqAnswerByThread. rewrite find_snoc.
      destruct (find _ s) as [y|]; [now exists y|]. cbn.
      rewrite !String.eqb_refl. eexists. reflexivity.
    + intros Hnone. unfold Answer.getFaqAnswerById in *. rewrite find_snoc, Hnone.
      unfold Answer.has_id. cbn. now rewrite String.eqb_refl.
Qed.

(** The thread of the sample escalation holds a completed record and one
    that awaits a response: the lookup returns the second. *)
Lemma lookup_skips_completed_record :
  In Sample.stale_awaiting [Sample.completed_escalation; Sample.stale_awaiting]
  /\ Escalation.channel Sample.stale_awaiting = "C1"
  /\ Escalation.threadTs Sample.stale_awaiting = "1.0"
  /\ Escalation.terminal (Escalation.status_of Sample.stale_awaiting) = false.
Proof.
  apply (proj1 thread_lookups_see_only_open_records "C1" "1.0"
               [Sample.completed_escalation; Sample.stale_awaiting] Sample.stale_awaiting).
  reflexivity.
Defined.


Lemma filter_length_le {A : Type} (p : A -> bool) (l : list A) :
  (length (List.filter p l) <= length l)%nat.
Proof.
  induction l as [|x r IH]; simpl; [lia|]. destruct (p x); simpl; lia.
Qed.


End TrackerLifecycle.

(** ** Page and block identifiers *)

Section Identifiers.

Import Text Notion.

Lemma all_chars_impl (p q : ascii -> bool) (s : string) :
  (forall c, p c = true -> q c = true) ->
  all_chars p s = true -> all_chars q s = true.
Proof.
  intros Hpq. induction s as [|c r IH]; simpl; [reflexivity|].
  intros H. apply andb_prop in H. destruct H as [Hc Hr].
  rewrite (Hpq c Hc), (IH Hr). reflexivity.
Qed.

Lemma append_cons (c : ascii) (r t : string) :
  (String c r ++ t)%string = String c (r ++ t).
Proof. reflexivity. Qed.

Lemma append_nil (t : string) : ("" ++ t)%string = t.
Proof. reflexivity. Qed.

Lemma all_chars_app (p : ascii -> bool) (s t : string) :
  all_chars p (s ++ t) = all_chars p s && all_chars p t.
Proof.
  induction s as [|c r IH]; rewrite ?append_cons, ?append_nil; simpl; [reflexivity|].
  rewrite IH. apply andb_assoc.
Qed.

Lemma length_append (s t : string) :
  String.length (s ++ t) = (String.length s + String.length t)%nat.
Proof.
  induction s as [|c r IH]; rewrite ?append_cons, ?append_nil; simpl;
    [reflexivity | now rewrite IH].
Qed.

Lemma append_assoc_s (s t u : string) :
  ((s ++ t) ++ u)%string = (s ++ (t ++ u))%string.
Proof.
  induction s as [|c r IH]; rewrite ?append_cons, ?append_nil; [reflexivity | now rewrite IH].
Qed.

Lemma append_empty_r (s : string) : (s ++ "")%string = s.
Proof.
  induction s as [|c r IH]; rewrite ?append_cons, ?append_nil; [reflexivity | now rewrite IH].
Qed.

Lemma is_hex_not_dash (c : ascii) : is_hex c = true -> Ascii.eqb c "-" = false.
Proof.
  destruct c as [[] [] [] [] [] [] [] []]; vm_compute; congruence.
Qed.

Lemma is_hex_not_space (c : ascii) : is_hex c = true -> is_space c = false.
Proof.
  destruct c as [[] [] [] [] [] [] [] []]; vm_compute; congruence.
Qed.

Lemma is_hex_is_dot (c : ascii) : is_hex c = true -> is_dot c = true.
Proof.
  destruct c as [[] [] [] [] [] [] [] []]; vm_compute; congruence.
Qed.

Lemma take_hex_spec (n : nat) (s h r : string) :
  take_hex n s = Some (h, r) ->
  s = (h ++ r)%string /\ String.length h = n /\ all_chars is_hex h = true.
Proof.
  revert s h r. induction n as [|k IH]; intros s h r; simpl.
  - intros [= <- <-]. repeat split.
  - destruct s as [|c t]; [discriminate|].
    destruct (is_hex c) eqn:Hc; [|discriminate].
    destruct (take_hex k t) as [[h' r']|] eqn:Ht; [|discriminate].
    intros [= <- <-]. destruct (IH _ _ _ Ht) as (-> & Hl & Hh).
    rewrite append_cons. simpl. rewrite Hc, Hl, Hh. repeat split.
Qed.

Lemma take_hex_complete (h r : string) :
  all_chars is_hex h = true -> take_hex (String.length h) (h ++ r) = Some (h, r).
Proof.
  induction h as [|c t IH]; rewrite ?append_cons, ?append_nil; simpl; [reflexivity|].
  intros H. apply andb_prop in H. destruct H as [Hc Ht].
  rewrite Hc, (IH Ht). reflexivity.
Qed.

Lemma take_dot_complete (h r : string) :
  all_chars is_hex h = true -> take_dot (String.length h) (h ++ r) = Some (h, r).
Proof.
  induction h as [|c t IH]; rewrite ?append_cons, ?append_nil; simpl; [reflexivity|].
  intros H. apply andb_prop in H. destruct H as [Hc Ht].
  rewrite (is_hex_is_dot c Hc), (IH Ht). reflexivity.
Qed.

Lemma take_dot_spec (n : nat) (s h r : string) :
  take_dot n s = Some (h, r) -> s = (h ++ r)%string.
Proof.
  revert s h r. induction n as [|k IH]; intros s h r; simpl.
  - intros [= <- <-]. reflexivity.
  - destruct s as [|c t]; [discriminate|].
    destruct (is_dot c); [|discriminate].
    destruct (take_dot k t) as [[h' r']|] eqn:Ht; [|discriminate].
    intros [= <- <-]. rewrite (IH _ _ _ Ht). reflexivity.
Qed.

(** Fewer than [n] hexadecimal digits followed by a dash are not [n]
    hexadecimal digits. *)
Lemma take_hex_dash (n : nat) (h r : string) :
  all_chars is_hex h = true -> (String.length h < n)%nat ->
  take_hex n (h ++ String "-" r) = None.
Proof.
  revert n. induction h as [|c t IH]; intros n Hh Hn;
    rewrite ?append_cons, ?append_nil; simpl in *.
  - destruct n as [|k]; [lia|]. reflexivity.
  - destruct n as [|k]; [lia|]. simpl.
    apply andb_prop in Hh. destruct Hh as [Hc Ht]. rewrite Hc.
    rewrite (IH k Ht); [reflexivity | lia].
Qed.

Lemma remove_dashes_app (s t : string) :
  remove_dashes (s ++ t) = (remove_dashes s ++ remove_dashes t)%string.
Proof.
  induction s as [|c r IH]; rewrite ?append_cons, ?append_nil; simpl; [reflexivity|].
  destruct (Ascii.eqb c "-"); rewrite ?append_cons; now rewrite IH.
Qed.

Lemma remove_dashes_hex (h : string) :
  all_chars is_hex h = true -> remove_dashes h = h.
Proof.
  induction h as [|c t IH]; simpl; [reflexivity|].
  intros H. apply andb_prop in H. destruct H as [Hc Ht].
  rewrite (is_hex_not_dash c Hc), (IH Ht). reflexivity.
Qed.

Lemma includes_cons (c : ascii) (r p : string) :
  includes (String c r) p = String.prefix p (String c r) || includes r p.
Proof. reflexivity. Qed.

Lemma prefix_dash (c : ascii) (r : string) :
  String.prefix "-" (String c r) = Ascii.eqb c "-".
Proof.
  change (String.prefix "-" (String c r))
    with (if ascii_dec "-" c then String.prefix "" r else false).
  destruct (ascii_dec "-" c) as [<-|Hne].
  - now destruct r.
  - symmetry. apply Ascii.eqb_neq. congruence.
Qed.

Lemma includes_dash_hex (h : string) :
  all_chars is_hex h = true -> includes h "-" = false.
Proof.
  induction h as [|c t IH]; [reflexivity|].
  intros H. simpl in H. apply andb_prop in H. destruct H as [Hc Ht].
  rewrite includes_cons, prefix_dash, (IH Ht), (is_hex_not_dash c Hc). reflexivity.
Qed.

Lemma trimStart_no_space (s : string) :
  all_chars (fun c => negb (is_space c)) s = true -> trimStart s = s.
Proof.
  destruct s as [|c r]; simpl; [reflexivity|].
  intros H. apply andb_prop in H. destruct H as [Hc _].
  apply negb_true_iff in Hc. now rewrite Hc.
Qed.

Lemma trimEnd_no_space (s : string) :
  all_chars (fun c => negb (is_space c)) s = true -> trimEnd s = s.
Proof.
  induction s as [|c r IH]; simpl; [reflexivity|].
  intros H. apply andb_prop in H. destruct H as [Hc Hr].
  apply negb_true_iff in Hc. rewrite (IH Hr), Hc. destruct r; reflexivity.
Qed.

Lemma trim_no_space (s : string) :
  all_chars (fun c => negb (is_space c)) s = true -> trim s = s.
Proof.
  intros H. unfold trim. rewrite (trimStart_no_space s H). now apply trimEnd_no_space.
Qed.

Lemma hex_no_space (h : string) :
  all_chars is_hex h = true -> all_chars (fun c => negb (is_space c)) h = true.
Proof.
  apply all_chars_impl. intros c Hc. now rewrite (is_hex_not_space c Hc).
Qed.

Lemma take_hex_n (n : nat) (h r : string) :
  String.length h = n -> all_chars is_hex h = true -> take_hex n (h ++ r) = Some (h, r).
Proof. intros <-. apply take_hex_complete. Qed.

Lemma take_hex_all (n : nat) (h : string) :
  String.length h = n -> all_chars is_hex h = true -> take_hex n h = Some (h, "").
Proof.
  intros Hl Hh. rewrite <- (append_empty_r h) at 1. now apply take_hex_n.
Qed.

Lemma take_dot_n (n : nat) (h r : string) :
  String.length h = n -> all_chars is_hex h = true -> take_dot n (h ++ r) = Some (h, r).
Proof. intros <-. apply take_dot_complete. Qed.

Lemma take_dot_all (n : nat) (h : string) :
  String.length h = n -> all_chars is_hex h = true -> take_dot n h = Some (h, "").
Proof.
  intros Hl Hh. rewrite <- (append_empty_r h) at 1. now apply take_dot_n.
Qed.

Lemma take_dash_spec (s r : string) : take_dash s = Some r -> s = String "-" r.
Proof.
  destruct s as [|c t]; simpl; [discriminate|].
  destruct (Ascii.eqb c "-") eqn:Hc; [|discriminate].
  apply Ascii.eqb_eq in Hc. now intros [= <-]; subst.
Qed.

Lemma take_uuid_spec (s u r : string) :
  take_uuid s = Some (u, r) ->
  exists a b c d e, groups a b c d e /\ u = dashed a b c d e.
Proof.
  unfold take_uuid.
  destruct (take_hex 8 s) as [[a r1]|] eqn:Ea; [|discriminate].
  destruct (take_dash r1) as [r1'|]; [|discriminate].
  destruct (take_hex 4 r1') as [[b r2]|] eqn:Eb; [|discriminate].
  destruct (take_dash r2) as [r2'|]; [|discriminate].
  destruct (take_hex 4 r2') as [[c r3]|] eqn:Ec; [|discriminate].
  destruct (take_dash r3) as [r3'|]; [|discriminate].
  destruct (take_hex 4 r3') as [[d r4]|] eqn:Ed; [|discriminate].
  destruct (take_dash r4) as [r4'|]; [|discriminate].
  destruct (take_hex 12 r4') as [[e rest]|] eqn:Ee; [|discriminate].
  intros [= <- <-].
  apply take_hex_spec in Ea, Eb, Ec, Ed, Ee.
  exists a, b, c, d, e. unfold groups. intuition.
Qed.

Lemma take_uuid_dashed (a b c d e : string) :
  groups a b c d e -> take_uuid (dashed a b c d e) = Some (dashed a b c d e, "").
Proof.
  intros ((La & Lb & Lc & Ld & Le) & Ha & Hb & Hc & Hd & He).
  unfold take_uuid, dashed.
  rewrite (take_hex_n 8 a _ La Ha), append_cons, append_nil. cbn [take_dash Ascii.eqb Bool.eqb].
  rewrite (take_hex_n 4 b _ Lb Hb), append_cons, append_nil. cbn [take_dash Ascii.eqb Bool.eqb].
  rewrite (take_hex_n 4 c _ Lc Hc), append_cons, append_nil. cbn [take_dash Ascii.eqb Bool.eqb].
  rewrite (take_hex_n 4 d _ Ld Hd), append_cons, append_nil. cbn [take_dash Ascii.eqb Bool.eqb].
  rewrite (take_hex_all 12 e Le He). reflexivity.
Qed.

Lemma groups_undashed (a b c d e : string) :
  groups a b c d e ->
  remove_dashes (dashed a b c d e) = (a ++ b ++ c ++ d ++ e)%string
  /\ String.length (a ++ b ++ c ++ d ++ e) = 32%nat
  /\ all_chars is_hex (a ++ b ++ c ++ d ++ e) = true.
Proof.
  intros ((La & Lb & Lc & Ld & Le) & Ha & Hb & Hc & Hd & He).
  split; [|split].
  - unfold dashed.
    rewrite !remove_dashes_app.
    rewrite (remove_dashes_hex a Ha), (remove_dashes_hex b Hb), (remove_dashes_hex c Hc),
      (remove_dashes_hex d Hd), (remove_dashes_hex e He).
    change (remove_dashes "-") with ""%string. rewrite !append_nil. reflexivity.
  - rewrite !length_append, La, Lb, Lc, Ld, Le. reflexivity.
  - rewrite !all_chars_app, Ha, Hb, Hc, Hd, He. reflexivity.
Qed.

Lemma search_hex32_eq (s : string) :
  search_hex32 s
  = match take_hex 32 s with
    | Some (h, rest) =>
        if query_or_end rest then Some h
        else match s with EmptyString => None | String _ r => search_hex32 r end
    | None => match s with EmptyString => None | String _ r => search_hex32 r end
    end.
Proof. destruct s; reflexivity. Qed.

Lemma search_uuid_eq (s : string) :
  search_uuid s
  = match take_uuid s with
    | Some (u, _) => Some u
    | None => match s with EmptyString => None | String _ r => search_uuid r end
    end.
Proof. destruct s; reflexivity. Qed.

Lemma search_dash_hex32_cons (c : ascii) (r : string) :
  search_dash_hex32 (String c r)
  = if Ascii.eqb c "-"
    then match take_hex 32 r with
         | Some (h, rest) => if query_or_end rest then Some h else search_dash_hex32 r
         | None => search_dash_hex32 r
         end
    else search_dash_hex32 r.
Proof. reflexivity. Qed.

Lemma search_hex32_spec (s h : string) :
  search_hex32 s = Some h -> String.length h = 32%nat /\ all_chars is_hex h = true.
Proof.
  induction s as [|c r IH]; rewrite search_hex32_eq.
  - destruct (take_hex 32 "") as [[h' rest]|] eqn:E; [|discriminate].
    destruct (query_or_end rest); [|discriminate].
    intros [= <-]. apply take_hex_spec in E. tauto.
  - destruct (take_hex 32 (String c r)) as [[h' rest]|] eqn:E; [|exact IH].
    destruct (query_or_end rest); [|exact IH].
    intros [= <-]. apply take_hex_spec in E. tauto.
Qed.

Lemma search_uuid_spec (s u : string) :
  search_uuid s = Some u -> exists a b c d e, groups a b c d e /\ u = dashed a b c d e.
Proof.
  induction s as [|c r IH]; rewrite search_uuid_eq.
  - destruct (take_uuid "") as [[u' rest]|] eqn:E; [|discriminate].
    intros [= <-]. eapply take_uuid_spec, E.
  - destruct (take_uuid (String c r)) as [[u' rest]|] eqn:E; [|exact IH].
    intros [= <-]. eapply take_uuid_spec, E.
Qed.

Lemma search_dash_hex32_spec (s h : string) :
  search_dash_hex32 s = Some h -> String.length h = 32%nat /\ all_chars is_hex h = true.
Proof.
  induction s as [|c r IH]; [discriminate|].
  rewrite search_dash_hex32_cons.
  destruct (Ascii.eqb c "-"); [|exact IH].
  destruct (take_hex 32 r) as [[h' rest]|] eqn:E; [|exact IH].
  destruct (query_or_end rest); [|exact IH].
  intros [= <-]. apply take_hex_spec in E. tauto.
Qed.

(** The pattern of the last resort finds nothing that the pattern for a
    URL did not find. *)
Lemma search_dash_hex32_covered (s : string) :
  search_hex32 s = None -> search_dash_hex32 s = None.
Proof.
  induction s as [|c r IH]; [reflexivity|].
  rewrite search_hex32_eq, search_dash_hex32_cons. intros H.
  assert (Hr : search_hex32 r = None).
  { destruct (take_hex 32 (String c r)) as [[h' rest]|]; [|exact H].
    destruct (query_or_end rest); [discriminate | exact H]. }
  destruct (Ascii.eqb c "-"); [|exact (IH Hr)].
  destruct (take_hex 32 r) as [[h' rest]|] eqn:E; [|exact (IH Hr)].
  destruct (query_or_end rest) eqn:Q; [|exact (IH Hr)].
  rewrite search_hex32_eq, E, Q in Hr. discriminate.
Qed.

Lemma extractPageId_eq (urlOrId : string) :
  extractPageId urlOrId
  = if String.eqb urlOrId "" then None
    else
      match take_hex 32 (trim urlOrId) with
      | Some (h, EmptyString) => Some h
      | _ =>
        match take_uuid (trim urlOrId) with
        | Some (u, EmptyString) => Some (remove_dashes u)
        | _ =>
          match search_hex32 (trim urlOrId) with
          | Some h => Some h
          | None =>
            match search_uuid (trim urlOrId) with
            | Some u => Some (remove_dashes u)
            | None => search_dash_hex32 (trim urlOrId)
            end
          end
        end
      end.
Proof. reflexivity. Qed.

(** The results of the three later patterns. *)
Lemma extractPageId_tail (str p : string) :
  match search_hex32 str with
  | Some h => Some h
  | None =>
      match search_uuid str with
      | Some u => Some (remove_dashes u)
      | None => search_dash_hex32 str
      end
  end = Some p ->
  String.length p = 32%nat /\ all_chars is_hex p = true.
Proof.
  destruct (search_hex32 str) as [h|] eqn:E1.
  - intros [= <-]. eapply search_hex32_spec, E1.
  - destruct (search_uuid str) as [u|] eqn:E2.
    + intros [= <-]. destruct (search_uuid_spec _ _ E2) as (a & b & c & d & e & G & ->).
      destruct (groups_undashed _ _ _ _ _ G) as (-> & L & H). tauto.
    + apply search_dash_hex32_spec.
Qed.

Lemma extractPageId_shape (u p : string) :
  extractPageId u = Some p -> String.length p = 32%nat /\ all_chars is_hex p = true.
Proof.
  rewrite extractPageId_eq. destruct (String.eqb u ""); [discriminate|].
  destruct (take_hex 32 (trim u)) as [[h [|c0 r0]]|] eqn:E1.
  - intros [= <-]. apply take_hex_spec in E1. tauto.
  - destruct (take_uuid (trim u)) as [[x [|c1 r1]]|] eqn:E2;
      try apply extractPageId_tail.
    intros [= <-]. destruct (take_uuid_spec _ _ _ E2) as (a & b & c & d & e & G & ->).
    destruct (groups_undashed _ _ _ _ _ G) as (-> & L & H). tauto.
  - destruct (take_uuid (trim u)) as [[x [|c1 r1]]|] eqn:E2;
      try apply extractPageId_tail.
    intros [= <-]. destruct (take_uuid_spec _ _ _ E2) as (a & b & c & d & e & G & ->).
    destruct (groups_undashed _ _ _ _ _ G) as (-> & L & H). tauto.
Qed.

Lemma extractPageId_raw (p : string) :
  String.length p = 32%nat -> all_chars is_hex p = true -> extractPageId p = Some p.
Proof.
  intros L H. rewrite extractPageId_eq.
  assert (Hne : String.eqb p "" = false) by (destruct p; [discriminate L | reflexivity]).
  rewrite Hne, (trim_no_space p (hex_no_space p H)), (take_hex_all 32 p L H).
  reflexivity.
Qed.

(** X5. Whatever [extractPageId] returns is a raw identifier: 32
    hexadecimal digits, without dashes; and a raw identifier is returned
    as it is, so extracting twice changes nothing. *)
Theorem extractPageId_returns_raw_id (urlOrId pageId : string) :
  extractPageId urlOrId = Some pageId ->
  String.length pageId = 32%nat
  /\ all_chars is_hex pageId = true
  /\ remove_dashes pageId = pageId
  /\ extractPageId pageId = Some pageId.
Proof.
  intros H. destruct (extractPageId_shape _ _ H) as [L Hh].
  repeat split; try assumption.
  - now apply remove_dashes_hex.
  - now apply extractPageId_raw.
Qed.

(** The identifier in the address of a page, dashed, comes out raw. *)
Lemma extractPageId_of_dashed_url :
  extractPageId "https://notion.so/team/FAQ-0123abcd-4567-89ab-cdef-0123456789ab?pvs=4"
  = Some "0123abcd456789abcdef0123456789ab"
  /\ extractPageId "0123abcd456789abcdef0123456789ab"
     = Some "0123abcd456789abcdef0123456789ab".
Proof.
  split; [vm_compute; reflexivity|].
  apply (extractPageId_returns_raw_id
           "https://notion.so/team/FAQ-0123abcd-4567-89ab-cdef-0123456789ab?pvs=4").
  vm_compute. reflexivity.
Defined.

(** X6. [extractPageId] returns null exactly when its argument is empty
    or, once trimmed, contains neither 32 hexadecimal digits followed by
    a question mark or the end, nor a dashed identifier (8-4-4-4-12
    hexadecimal digits). The last pattern of the function, for a dash
    before 32 digits, never decides the result: where it matches, the
    pattern for 32 digits has matched before. *)
Theorem extractPageId_null_iff (urlOrId : string) :
  (extractPageId urlOrId = None
   <-> urlOrId = ""
       \/ (search_hex32 (trim urlOrId) = None /\ search_uuid (trim urlOrId) = None))
  /\ (search_hex32 (trim urlOrId) = None -> search_dash_hex32 (trim urlOrId) = None).
Proof.
  split; [|apply search_dash_hex32_covered].
  rewrite extractPageId_eq.
  destruct (String.eqb urlOrId "") eqn:Hempty.
  { apply String.eqb_eq in Hempty. tauto. }
  apply String.eqb_neq in Hempty.
  set (str := trim urlOrId).
  assert (Htail :
    match search_hex32 str with
    | Some h => Some h
    | None => match search_uuid str with
              | Some u => Some (remove_dashes u)
              | None => search_dash_hex32 str
              end
    end = None
    <-> search_hex32 str = None /\ search_uuid str = None).
  { destruct (search_hex32 str) as [h|] eqn:E1.
    - split; [discriminate | intros [H _]; discriminate].
    - destruct (search_uuid str) as [u|] eqn:E2.
      + split; [discriminate | intros [_ H]; discriminate].
      + rewrite (search_dash_hex32_covered str E1). tauto. }
  assert (Hraw : forall h, take_hex 32 str = Some (h, "") -> search_hex32 str = Some h).
  { intros h E. rewrite search_hex32_eq, E. reflexivity. }
  assert (Huuid : forall u, take_uuid str = Some (u, "") -> search_uuid str = Some u).
  { intros u E. rewrite search_uuid_eq, E. reflexivity. }
  destruct (take_hex 32 str) as [[h [|c0 r0]]|] eqn:E1.
  - specialize (Hraw h eq_refl). split; [discriminate|].
    intros [H | [H _]]; [contradiction | congruence].
  - destruct (take_uuid str) as [[x [|c1 r1]]|] eqn:E2.
    + specialize (Huuid x eq_refl). split; [discriminate|].
      intros [H | [_ H]]; [contradiction | congruence].
    + rewrite Htail. tauto.
    + rewrite Htail. tauto.
  - destruct (take_uuid str) as [[x [|c1 r1]]|] eqn:E2.
    + specialize (Huuid x eq_refl). split; [discriminate|].
      intros [H | [_ H]]; [contradiction | congruence].
    + rewrite Htail. tauto.
    + rewrite Htail. tauto.
Qed.

Lemma match_groups_spec (s dashedText rest : string) :
  match_groups s = Some (dashedText, rest) ->
  remove_dashes (dashedText ++ rest) = remove_dashes s.
Proof.
  unfold match_groups.
  destruct (take_dot 8 s) as [[a r1]|] eqn:Ea; [|discriminate].
  destruct (take_dot 4 r1) as [[b r2]|] eqn:Eb; [|discriminate].
  destruct (take_dot 4 r2) as [[c r3]|] eqn:Ec; [|discriminate].
  destruct (take_dot 4 r3) as [[d r4]|] eqn:Ed; [|discriminate].
  destruct (take_dot 12 r4) as [[e r5]|] eqn:Ee; [|discriminate].
  intros [= <- <-].
  apply take_dot_spec in Ea, Eb, Ec, Ed, Ee. subst s r1 r2 r3 r4.
  rewrite !remove_dashes_app. change (remove_dashes "-") with ""%string.
  rewrite !append_assoc_s, !append_nil. reflexivity.
Qed.

Lemma insert_dashes_eq (s : string) :
  insert_dashes s
  = match match_groups s with
    | Some (dashedText, rest) => (dashedText ++ rest)%string
    | None => match s with
              | EmptyString => EmptyString
              | String c r => String c (insert_dashes r)
              end
    end.
Proof. destruct s; reflexivity. Qed.

Lemma remove_dashes_insert_dashes (s : string) :
  remove_dashes (insert_dashes s) = remove_dashes s.
Proof.
  induction s as [|c r IH]; rewrite insert_dashes_eq.
  - destruct (match_groups "") as [[dt rest]|] eqn:E; [|reflexivity].
    now apply match_groups_spec.
  - destruct (match_groups (String c r)) as [[dt rest]|] eqn:E.
    + now apply match_groups_spec.
    + simpl. now rewrite IH.
Qed.

Lemma take_hex_total (n : nat) (p : string) :
  all_chars is_hex p = true -> (n <= String.length p)%nat ->
  exists h r, p = (h ++ r)%string /\ String.length h = n
              /\ all_chars is_hex h = true /\ all_chars is_hex r = true
              /\ String.length r = (String.length p - n)%nat.
Proof.
  revert p. induction n as [|k IH]; intros p Hp Hn.
  - exists ""%string, p. rewrite append_nil, Nat.sub_0_r. repeat split. exact Hp.
  - destruct p as [|c t]; [simpl in Hn; lia|].
    simpl in Hp, Hn. apply andb_prop in Hp. destruct Hp as [Hc Ht].
    destruct (IH t Ht ltac:(lia)) as (h & r & -> & Hl & Hh & Hr & Hlr).
    exists (String c h), r. rewrite append_cons. simpl. rewrite Hc, Hh, Hl.
    repeat split; assumption.
Qed.

Lemma hex32_groups (p : string) :
  String.length p = 32%nat -> all_chars is_hex p = true ->
  exists a b c d e, groups a b c d e /\ p = (a ++ b ++ c ++ d ++ e)%string.
Proof.
  intros L H.
  destruct (take_hex_total 8 p H ltac:(lia)) as (a & r1 & -> & La & Ha & H1 & L1).
  destruct (take_hex_total 4 r1 H1 ltac:(lia)) as (b & r2 & -> & Lb & Hb & H2 & L2).
  destruct (take_hex_total 4 r2 H2 ltac:(lia)) as (c & r3 & -> & Lc & Hc & H3 & L3).
  destruct (take_hex_total 4 r3 H3 ltac:(lia)) as (d & e & -> & Ld & Hd & He & Le).
  exists a, b, c, d, e. unfold groups. repeat split; try assumption. lia.
Qed.

Lemma normalizedBlockId_raw (a b c d e : string) :
  groups a b c d e ->
  normalizedBlockId (a ++ b ++ c ++ d ++ e) = dashed a b c d e.
Proof.
  intros G. destruct (groups_undashed _ _ _ _ _ G) as (_ & L & H).
  destruct G as ((La & Lb & Lc & Ld & Le) & Ha & Hb & Hc & Hd & He).
  unfold normalizedBlockId. rewrite (includes_dash_hex _ H), insert_dashes_eq.
  unfold match_groups.
  rewrite (take_dot_n 8 a _ La Ha), (take_dot_n 4 b _ Lb Hb), (take_dot_n 4 c _ Lc Hc),
    (take_dot_n 4 d _ Ld Hd), (take_dot_all 12 e Le He).
  rewrite append_empty_r. reflexivity.
Qed.

Lemma extractPageId_dashed (a b c d e : string) :
  groups a b c d e ->
  extractPageId (dashed a b c d e) = Some (a ++ b ++ c ++ d ++ e)%string.
Proof.
  intros G. destruct (groups_undashed _ _ _ _ _ G) as (Hu & _ & _).
  pose proof (take_uuid_dashed _ _ _ _ _ G) as Huuid.
  destruct G as ((La & Lb & Lc & Ld & Le) & Ha & Hb & Hc & Hd & He).
  rewrite extractPageId_eq.
  assert (Hne : String.eqb (dashed a b c d e) "" = false).
  { destruct a as [|x a']; [discriminate La | reflexivity]. }
  assert (Hsp : all_chars (fun c => negb (is_space c)) (dashed a b c d e) = true).
  { unfold dashed. rewrite !all_chars_app.
    rewrite (hex_no_space a Ha), (hex_no_space b Hb), (hex_no_space c Hc),
      (hex_no_space d Hd), (hex_no_space e He). reflexivity. }
  rewrite Hne, (trim_no_space _ Hsp), Huuid.
  assert (Hnone : take_hex 32 (dashed a b c d e) = None).
  { unfold dashed. rewrite append_cons, append_nil. apply take_hex_dash; [exact Ha | lia]. }
  rewrite Hnone, Hu. reflexivity.
Qed.

(** X7. The identifier [addCommentToBlock] hands to the comments API
    differs from the one it was given by dashes only. For the raw
    identifier [extractPageId] returns it is the dashed form (8-4-4-4-12
    digits), from which [extractPageId] gives the raw identifier back. *)
Theorem normalizedBlockId_only_inserts_dashes :
  (forall blockId, remove_dashes (normalizedBlockId blockId) = remove_dashes blockId)
  /\ (forall urlOrId pageId,
        extractPageId urlOrId = Some pageId ->
        take_uuid (normalizedBlockId pageId) = Some (normalizedBlockId pageId, "")
        /\ extractPageId (normalizedBlockId pageId) = Some pageId).
Proof.
  split.
  - intros blockId. unfold normalizedBlockId.
    destruct (includes blockId "-"); [reflexivity | apply remove_dashes_insert_dashes].
  - intros u p Hp. destruct (extractPageId_shape _ _ Hp) as [L H].
    destruct (hex32_groups p L H) as (a & b & c & d & e & G & ->).
    rewrite (normalizedBlockId_raw _ _ _ _ _ G).
    split; [now apply take_uuid_dashed | now apply extractPageId_dashed].
Qed.

(** A raw identifier, dashed for the comments API, and back. *)
Lemma normalizedBlockId_sample :
  normalizedBlockId "0123abcd456789abcdef0123456789ab"
  = "0123abcd-4567-89ab-cdef-0123456789ab"
  /\ extractPageId (normalizedBlockId "0123abcd456789abcdef0123456789ab")
     = Some "0123abcd456789abcdef0123456789ab".
Proof.
  split; [vm_compute; reflexivity|].
  apply (proj2 normalizedBlockId_only_inserts_dashes
               "0123abcd456789abcdef0123456789ab" "0123abcd456789abcdef0123456789ab").
  vm_compute. reflexivity.
Defined.

End Identifiers.

(** ** Normalized text *)

Section Normalisation.

Import Js Text Notion.

Lemma to_lower_idem (c : ascii) : to_lower (to_lower c) = to_lower c.
Proof. destruct c as [[] [] [] [] [] [] [] []]; vm_compute; reflexivity. Qed.

Lemma is_space_to_lower (c : ascii) : is_space (to_lower c) = is_space c.
Proof. destruct c as [[] [] [] [] [] [] [] []]; vm_compute; reflexivity. Qed.

Lemma toLowerCase_idem (s : string) : toLowerCase (toLowerCase s) = toLowerCase s.
Proof.
  induction s as [|c r IH]; simpl; [reflexivity|]. now rewrite to_lower_idem, IH.
Qed.

Lemma toLowerCase_collapse_from (b : bool) (s : string) :
  toLowerCase (collapse_from b s) = collapse_from b (toLowerCase s).
Proof.
  revert b. induction s as [|c r IH]; intros b; simpl; [reflexivity|].
  rewrite is_space_to_lower. destruct (is_space c); [destruct b|]; simpl; now rewrite IH.
Qed.

Lemma toLowerCase_trimStart (s : string) :
  toLowerCase (trimStart s) = trimStart (toLowerCase s).
Proof.
  induction s as [|c r IH]; simpl; [reflexivity|].
  rewrite is_space_to_lower. destruct (is_space c); [exact IH | reflexivity].
Qed.

Lemma toLowerCase_trimEnd (s : string) :
  toLowerCase (trimEnd s) = trimEnd (toLowerCase s).
Proof.
  induction s as [|c r IH]; simpl; [reflexivity|].
  rewrite <- IH, is_space_to_lower.
  destruct (trimEnd r); simpl; [destruct (is_space c)|]; reflexivity.
Qed.

Lemma collapse_from_single (b : bool) (s : string) :
  single_spaced b (collapse_from b s) = true.
Proof.
  revert b. induction s as [|c r IH]; intros b; simpl; [reflexivity|].
  destruct (is_space c) eqn:Hc.
  - destruct b; [apply IH|]. simpl. apply IH.
  - simpl. rewrite Hc. apply IH.
Qed.

Lemma single_collapse_from (b : bool) (s : string) :
  single_spaced b s = true -> collapse_from b s = s.
Proof.
  revert b. induction s as [|c r IH]; intros b; simpl; [reflexivity|].
  destruct (is_space c).
  - intros H. apply andb_prop in H. destruct H as [H Hr].
    apply andb_prop in H. destruct H as [Hb Hsp].
    apply negb_true_iff in Hb. apply Ascii.eqb_eq in Hsp. subst b c.
    now rewrite (IH true Hr).
  - intros H. now rewrite (IH false H).
Qed.

Lemma single_weaken (s : string) :
  single_spaced true s = true -> single_spaced false s = true.
Proof.
  destruct s as [|c r]; simpl; [reflexivity|].
  destruct (is_space c); [discriminate | trivial].
Qed.

Lemma single_trimStart (s : string) :
  single_spaced false s = true -> single_spaced false (trimStart s) = true.
Proof.
  induction s as [|c r IH]; [reflexivity|].
  intros H. simpl trimStart. destruct (is_space c) eqn:Hc; [|exact H].
  apply IH, single_weaken. simpl in H. rewrite Hc in H.
  apply andb_prop in H. tauto.
Qed.

Lemma single_trimEnd (b : bool) (s : string) :
  single_spaced b s = true -> single_spaced b (trimEnd s) = true.
Proof.
  revert b. induction s as [|c r IH]; intros b H; [reflexivity|].
  assert (Hstep : single_spaced b (String c (trimEnd r)) = true).
  { simpl in *. destruct (is_space c).
    - apply andb_prop in H. destruct H as [H Hr]. rewrite H. apply (IH true Hr).
    - apply (IH false H). }
  simpl trimEnd. destruct (trimEnd r) as [|c' r'] eqn:E; [|exact Hstep].
  destruct (is_space c) eqn:Hc; [reflexivity|]. simpl. now rewrite Hc.
Qed.

Lemma trimEnd_idem (s : string) : trimEnd (trimEnd s) = trimEnd s.
Proof.
  induction s as [|c r IH]; [reflexivity|].
  simpl trimEnd at 2 3. destruct (trimEnd r) as [|c' r'] eqn:E.
  - destruct (is_space c) eqn:Hc; [reflexivity|]. simpl. now rewrite Hc.
  - change (trimEnd (String c (String c' r')))
      with (match trimEnd (String c' r') with
            | EmptyString => if is_space c then EmptyString else String c EmptyString
            | r'' => String c r''
            end).
    rewrite IH. reflexivity.
Qed.

Lemma trimEnd_head (c : ascii) (r : string) :
  is_space c = false -> exists r', trimEnd (String c r) = String c r'.
Proof.
  intros Hc. simpl. destruct (trimEnd r) as [|c' r'].
  - rewrite Hc. now exists ""%string.
  - now exists (String c' r').
Qed.

Lemma trimStart_cases (s : string) :
  trimStart s = ""%string
  \/ exists c r, trimStart s = String c r /\ is_space c = false.
Proof.
  induction s as [|c r IH]; simpl; [now left|].
  destruct (is_space c) eqn:Hc; [exact IH|]. right. now exists c, r.
Qed.

Lemma trim_idem (s : string) : trim (trim s) = trim s.
Proof.
  unfold trim. destruct (trimStart_cases s) as [-> | (c & r & -> & Hc)]; [reflexivity|].
  destruct (trimEnd_head c r Hc) as [r' E].
  rewrite E at 1. simpl trimStart. rewrite Hc, <- E. apply trimEnd_idem.
Qed.

Lemma normalizeText_lower (s : string) :
  toLowerCase (normalizeText s) = normalizeText s.
Proof.
  unfold normalizeText, trim, collapse.
  now rewrite toLowerCase_trimEnd, toLowerCase_trimStart, toLowerCase_collapse_from,
    toLowerCase_idem.
Qed.

Lemma normalizeText_single (s : string) :
  single_spaced false (normalizeText s) = true.
Proof.
  unfold normalizeText, trim, collapse.
  apply single_trimEnd, single_trimStart, collapse_from_single.
Qed.

(** X8. [normalizeText] produces a normal form: its result is in lower
    case, its white space is single spaces with none at either end, and
    normalizing it again changes nothing. *)
Theorem normalizeText_normal_form (text : string) :
  toLowerCase (normalizeText text) = normalizeText text
  /\ collapse (normalizeText text) = normalizeText text
  /\ trim (normalizeText text) = normalizeText text
  /\ single_spaced false (normalizeText text) = true
  /\ normalizeText (normalizeText text) = normalizeText text.
Proof.
  assert (H1 := normalizeText_lower text).
  assert (H2 : collapse (normalizeText text) = normalizeText text)
    by apply single_collapse_from, normalizeText_single.
  assert (H3 : trim (normalizeText text) = normalizeText text)
    by (unfold normalizeText at 1 2; apply trim_idem).
  repeat split; try assumption.
  - apply normalizeText_single.
  - unfold normalizeText at 1. now rewrite H1, H2, H3.
Qed.

Lemma scan_blocks_ext (rec rec' : node -> outcome (option block_info))
    (snippets : list string) (blocks : list node) (best : option best_match * Q) :
  Forall (fun b => rec b = rec' b) blocks ->
  scan_blocks rec snippets blocks best = scan_blocks rec' snippets blocks best.
Proof.
  intros H. revert best. induction H as [|b r Hb Hr IH]; intros best; [reflexivity|].
  rewrite !scan_blocks_cons. unfold after_block. rewrite Hb. apply IH.
Qed.

Lemma findBlockByContent_snippets (n : node) :
  forall searchTexts searchTexts',
    List.map normalizeText searchTexts = List.map normalizeText searchTexts' ->
    findBlockByContent n searchTexts = findBlockByContent n searchTexts'.
Proof.
  induction n as [i t h f c IH] using node_tree_ind.
  intros sts sts' Hmap. rewrite !findBlockByContent_unfold.
  unfold normalize_all. rewrite <- Hmap. cbn [node_id list_throws children].
  assert (Hscan : forall best,
    scan_blocks (fun block => findBlockByContent block sts)
                (List.filter nonempty (List.map normalizeText sts)) c best
    = scan_blocks (fun block => findBlockByContent block sts')
                (List.filter nonempty (List.map normalizeText sts)) c best).
  { intros best. apply scan_blocks_ext.
    rewrite List.Forall_forall in IH |- *. intros b Hb. now apply IH. }
  rewrite Hscan.
  destruct sts as [|s1 r1], sts' as [|s2 r2]; try discriminate Hmap; reflexivity.
Qed.

(** X9. [findBlockByContent] sees the snippets only through
    [normalizeText]: two lists of snippets that agree once lowercased
    and with their white space collapsed and trimmed give the same
    result on every document, at every depth; in particular normalized
    snippets give the result of the snippets they come from. *)
Theorem findBlockByContent_up_to_normalizeText :
  (forall n searchTexts searchTexts',
      List.map normalizeText searchTexts = List.map normalizeText searchTexts' ->
      findBlockByContent n searchTexts = findBlockByContent n searchTexts')
  /\ (forall n searchTexts,
      findBlockByContent n (List.map normalizeText searchTexts)
      = findBlockByContent n searchTexts).
Proof.
  split; [intros n; apply findBlockByContent_snippets|].
  intros n sts. apply findBlockByContent_snippets.
  rewrite List.map_map. apply List.map_ext. intros s.
  apply normalizeText_normal_form.
Qed.

(** The spelling of a snippet's case and white space does not matter. *)
Lemma findBlockByContent_spelling :
  findBlockByContent Sample.nested_page ["  Refunds TAKE  five days "]
  = findBlockByContent Sample.nested_page ["refunds take five days"].
Proof.
  apply (proj1 findBlockByContent_up_to_normalizeText).
  vm_compute. reflexivity.
Defined.

Lemma scan_blocks_skips_textless (rec : node -> outcome (option block_info))
    (snippets : list string) (blocks : list node) (best : option best_match * Q) :
  scan_blocks rec snippets (List.filter (fun b => nonempty (node_text b)) blocks) best
  = scan_blocks rec snippets blocks best.
Proof.
  revert best. induction blocks as [|b r IH]; intros best; [reflexivity|].
  cbn [List.filter]. destruct (nonempty (node_text b)) eqn:Hb.
  - rewrite !scan_blocks_cons. apply IH.
  - rewrite scan_blocks_cons. unfold after_block. rewrite Hb. apply IH.
Qed.

(** X10. A block without text of its own is invisible to
    [findBlockByContent], and so is everything below it: the result is
    the one for the listing without these blocks, whatever they have
    below them. *)
Theorem findBlockByContent_skips_textless_blocks
    (pageId text : string) (hasChildren throws : bool) (blocks : list node)
    (searchTexts : list string) :
  findBlockByContent (mkNode pageId text hasChildren throws blocks) searchTexts
  = findBlockByContent
      (mkNode pageId text hasChildren throws
              (List.filter (fun b => nonempty (node_text b)) blocks))
      searchTexts.
Proof.
  rewrite !findBlockByContent_unfold. cbn [node_id list_throws children].
  now rewrite scan_blocks_skips_textless.
Qed.

End Normalisation.

(** ** Conversations about a pending action *)

Section PendingConversations.

Import Js Dm.

Ltac dm_unfold :=
  cbv [onDirectMessage getPendingDm continuePendingDm continueAddKnowledgeArea
       continueCorrectionApproval try_catch bind ret throw mbind mret M_bind M_ret
       set_pending emit setPendingDm clearPendingDm clearPendingDmsForCorrection
       hasProcessed addProcessed cacheDelete postMessage Dm.updateFaqBlock
       Dm.addCommentToBlock Dm.reviseSuggestedUpdate addKnowledgeArea
       pendingDmActions processedCorrections notionCache effects
       now now_restore updateFaqBlock_result addCommentToBlock_throws
       reviseSuggestedUpdate_result resolveUsersByName addKnowledgeArea_throws
       postMessage_throws user channel text data expiresAt
       correctionId blockId blockUrl notionPageId subPageId suggestedUpdate
       originalQuestion areaName channelName name leadUserIds leadNames with_suggestion
       fst snd step mutations].

Ltac split_step :=
  match goal with
  | |- context [match ?x with _ => _ end] =>
      lazymatch x with
      | context [match _ with _ => _ end] => fail
      | _ => destruct x eqn:?
      end
  end.

Ltac split_cases := repeat (split_step; dm_unfold).

Lemma drop_prefix_spec (p s r : string) :
  drop_prefix p s = Some r -> s = (p ++ r)%string.
Proof.
  revert s. induction p as [|a p' IH]; intros s; simpl.
  - now intros [= ->].
  - destruct s as [|b s']; [discriminate|].
    destruct (Ascii.eqb a b) eqn:Hab; [|discriminate].
    apply Ascii.eqb_eq in Hab. subst b. intros H. now rewrite (IH _ H).
Qed.

Lemma head_word_prefix (alts : list string) (s : string) :
  head_word alts s = true -> exists alt r, In alt alts /\ s = (alt ++ r)%string.
Proof.
  unfold head_word. intros H. apply existsb_exists in H. destruct H as (alt & Hin & H).
  destruct (drop_prefix alt s) as [r|] eqn:E; [|discriminate].
  exists alt, r. split; [exact Hin | now apply drop_prefix_spec].
Qed.

Lemma rejection_not_approval (text : string) :
  isRejection text = true -> isApproval text = false.
Proof.
  intros Hr. destruct (isApproval text) eqn:Ha; [|reflexivity]. exfalso.
  unfold isApproval in Ha. unfold isRejection in Hr.
  destruct (head_word_prefix _ _ Ha) as (a & r1 & Hina & E1).
  destruct (head_word_prefix _ _ Hr) as (b & r2 & Hinb & E2).
  rewrite E1 in E2. clear -Hina Hinb E2.
  cbv [approval_phrases In] in Hina. cbv [rejection_phrases In] in Hinb.
  repeat (destruct Hina as [<- | Hina]); try contradiction;
    repeat (destruct Hinb as [<- | Hinb]); try contradiction;
    cbv [String.append] in E2; discriminate E2.
Qed.

(** X11. No message is both an approval and a rejection: the words that
    open an approval and those that open a rejection never begin the
    same text, so the order in which [continuePendingDm] tests them
    decides nothing. *)
Theorem approval_excludes_rejection (text : string) :
  isApproval text && isRejection text = false.
Proof.
  destruct (isRejection text) eqn:Hr; [|apply andb_false_r].
  now rewrite (rejection_not_approval text Hr).
Qed.

Lemma load_entries_lookup (entries : list (string * pending)) (t : Z)
    (acc : gmap string pending) (u : string) :
  NoDup entries.*1 ->
  loadPendingDms (Some entries) t acc !! u
  = match (list_to_map entries : gmap string pending) !! u with
    | Some p => if negb (expiresAt p =? 0) && (t <? expiresAt p) then Some p else acc !! u
    | None => acc !! u
    end.
Proof.
  unfold loadPendingDms. revert acc.
  induction entries as [|[k p] r IH]; intros acc Hnd; [reflexivity|].
  rewrite fmap_cons in Hnd. apply NoDup_cons in Hnd. destruct Hnd as [Hk Hnd].
  cbn [fold_left list_to_map foldr fst snd uncurry]. rewrite (IH _ Hnd).
  destruct (decide (u = k)) as [->|Hne].
  - rewrite lookup_insert_eq, (not_elem_of_list_to_map_1 _ _ Hk).
    destruct (negb (expiresAt p =? 0) && (t <? expiresAt p)); [|reflexivity].
    now rewrite lookup_insert_eq.
  - rewrite lookup_insert_ne by congruence.
    assert (Hacc : (if negb (expiresAt p =? 0) && (t <? expiresAt p)
                    then <[k:=p]> acc else acc) !! u = acc !! u).
    { destruct (negb (expiresAt p =? 0) && (t <? expiresAt p)); [|reflexivity].
      now rewrite lookup_insert_ne by congruence. }
    now rewrite Hacc.
Qed.

(** X12. Pending actions survive a restart until they expire. What
    [loadPendingDms] keeps of the saved entries are those that expire
    after the time of loading; so at any later time [getPendingDm]
    answers for every user as it would have without the restart. A
    missing or unreadable file loads nothing. *)
Theorem pending_actions_survive_restart (m : gmap string pending) (t_load : Z) :
  0 <= t_load ->
  let loaded := loadPendingDms (Some (savePendingDms m)) t_load ∅ in
  (forall u p, loaded !! u = Some p <-> m !! u = Some p /\ t_load < expiresAt p)
  /\ (forall u t proc cache effs,
        t_load < t ->
        fst (getPendingDm u t (mkState loaded proc cache effs))
        = fst (getPendingDm u t (mkState m proc cache effs)))
  /\ loadPendingDms None t_load ∅ = (∅ : gmap string pending).
Proof.
  intros Ht loaded.
  assert (Hlook : forall u,
    loaded !! u
    = match m !! u with
      | Some p => if negb (expiresAt p =? 0) && (t_load <? expiresAt p) then Some p else None
      | None => None
      end).
  { intros u. subst loaded. unfold savePendingDms.
    rewrite load_entries_lookup by apply NoDup_fst_map_to_list.
    rewrite list_to_map_to_list, lookup_empty. reflexivity. }
  split; [|split; [|reflexivity]].
  - intros u p. rewrite Hlook. destruct (m !! u) as [q|].
    + destruct (negb (expiresAt q =? 0) && (t_load <? expiresAt q)) eqn:Hok.
      * apply andb_prop in Hok. destruct Hok as [_ Hlt]. apply Z.ltb_lt in Hlt.
        split; [intros [= <-]; now split | intros [[= <-] _]; reflexivity].
      * split; [discriminate|]. intros [[= <-] Hlt]. exfalso.
        apply andb_false_iff in Hok. destruct Hok as [Hz | Hlt'].
        -- apply negb_false_iff, Z.eqb_eq in Hz. lia.
        -- apply Z.ltb_ge in Hlt'. lia.
    + split; [discriminate | intros [H _]; discriminate].
  - intros u t proc cache effs Hlt. unfold getPendingDm. cbn [pendingDmActions].
    rewrite Hlook. destruct (m !! u) as [q|]; [|reflexivity].
    destruct (negb (expiresAt q =? 0) && (t_load <? expiresAt q)) eqn:Hok.
    + destruct (expiresAt q <? t); reflexivity.
    + assert (Hexp : (expiresAt q <? t) = true).
      { apply Z.ltb_lt. apply andb_false_iff in Hok. destruct Hok as [Hz | Hlt'].
        - apply negb_false_iff, Z.eqb_eq in Hz. lia.
        - apply Z.ltb_ge in Hlt'. lia. }
      rewrite Hexp. reflexivity.
Qed.

(** The two requests stored at time 0 are loaded at time 1000. *)
Lemma requests_survive_restart :
  loadPendingDms (Some (savePendingDms (pendingDmActions Sample.two_requests))) 1000 ∅
    !! "U1"
  = Some {| data := FaqCorrectionApproval Sample.request;
            expiresAt := 0 + PENDING_DM_EXPIRY_MS |}.
Proof.
  apply (proj1 (pending_actions_survive_restart (pendingDmActions Sample.two_requests) 1000
                  ltac:(lia))).
  split; [vm_compute; reflexivity | vm_compute; reflexivity].
Defined.





(** An approval with a block reference calls [updateFaqBlock] once, with
    the suggestion the pending action holds. *)
Lemma approval_calls_update (w : world) (ev : message) (s : state)
    (p : pending) (d : correction_data) (blk : string) :
  pendingDmActions s !! user ev = Some p ->
  (expiresAt p <? now w) = false ->
  data p = FaqCorrectionApproval d ->
  correctionId d ∉ processedCorrections s ->
  isApproval (text ev) = true ->
  blockId d = Some blk ->
  Text.nonempty blk = true ->
  exists rest,
    effects (snd (onDirectMessage w ev s))
    = (effects s
       ++ UpdateFaqBlock (correctionId d) blk (suggestedUpdate d) (updateFaqBlock_result w)
          :: rest)%list
    /\ List.filter is_update rest = [].
Proof.
  intros Hl Hex Hd Hnin Happ Hblk Hne.
  destruct (updateFaqBlock_result w) as [url|e] eqn:Hres.
  - destruct (approval_success_branch w ev s p d blk url Hl Hex Hd Hnin Happ Hblk Hne Hres)
      as (_ & _ & rest & Heff & Hposts).
    eexists. split; [rewrite Heff; cbn [app]; reflexivity|].
    cbn [List.filter is_update]. clear -Hposts.
    induction Hposts as [|e r He _ IH]; [reflexivity|].
    destruct e; try contradiction. exact IH.
  - destruct (approval_failure_branch w ev s p d blk e Hl Hex Hd Hnin Happ Hblk Hne Hres)
      as (_ & _ & _ & Heff).
    eexists. split; [rewrite Heff; reflexivity|].
    destruct (postMessage_throws w (UpdateError e)); reflexivity.
Qed.

(** X14. A rejection closes the request for the lead who rejects and for
    nobody else: their pending action is removed and "Got it, I won't
    update the FAQ." is posted; the document, the applied-correction
    marker, the cache and every other pending action stay as they are.
    Another lead who holds the request can still approve it, and their
    approval then calls [updateFaqBlock] with the suggestion. *)
Theorem rejection_leaves_correction_open (w : world) (ev : message) (s : state)
    (p : pending) (d : correction_data) :
  pendingDmActions s !! user ev = Some p ->
  (expiresAt p <? now w) = false ->
  data p = FaqCorrectionApproval d ->
  correctionId d ∉ processedCorrections s ->
  isRejection (text ev) = true ->
  let s' := snd (onDirectMessage w ev s) in
  pendingDmActions s' = delete (user ev) (pendingDmActions s)
  /\ processedCorrections s' = processedCorrections s
  /\ notionCache s' = notionCache s
  /\ effects s'
     = (effects s
        ++ PostMessage (channel ev) WontUpdate (postMessage_throws w WontUpdate)
           :: (if postMessage_throws w WontUpdate
               then [PostMessage (channel ev) HandlerError (postMessage_throws w HandlerError)]
               else []))%list
  /\ forall w2 ev2 pv dv blk,
       user ev2 <> user ev ->
       pendingDmActions s !! user ev2 = Some pv ->
       (expiresAt pv <? now w2) = false ->
       data pv = FaqCorrectionApproval dv ->
       correctionId dv = correctionId d ->
       isApproval (text ev2) = true ->
       blockId dv = Some blk ->
       Text.nonempty blk = true ->
       exists rest,
         effects (snd (onDirectMessage w2 ev2 s'))
         = (effects s'
            ++ UpdateFaqBlock (correctionId d) blk (suggestedUpdate dv)
                              (updateFaqBlock_result w2)
               :: rest)%list.
Proof.
  intros Hl Hex Hd Hnin Hrej s'.
  assert (Happ := rejection_not_approval _ Hrej).
  assert (Hstate :
    pendingDmActions s' = delete (user ev) (pendingDmActions s)
    /\ processedCorrections s' = processedCorrections s
    /\ notionCache s' = notionCache s
    /\ effects s'
       = (effects s
          ++ PostMessage (channel ev) WontUpdate (postMessage_throws w WontUpdate)
             :: (if postMessage_throws w WontUpdate
                 then [PostMessage (channel ev) HandlerError
                                   (postMessage_throws w HandlerError)]
                 else []))%list).
  { subst s'. clear -Hl Hex Hd Hnin Hrej Happ.
    destruct s as [pend proc cache effs], w as [t t' upd cmt rev res aka post],
             ev as [u ch txt], p as [dat ex],
             d as [cid0 blk0 burl pg sub sug oq an cn].
    cbn [pendingDmActions processedCorrections notionCache effects user channel text
         expiresAt data now postMessage_throws correctionId] in *.
    subst dat. dm_unfold. rewrite Hl. dm_unfold.
    rewrite Hex. dm_unfold. rewrite (bool_decide_eq_false_2 _ Hnin). dm_unfold.
    rewrite Happ. dm_unfold. rewrite Hrej. dm_unfold.
    destruct (post WontUpdate) eqn:Hpost; dm_unfold.
    - destruct (post HandlerError); (repeat split; []);
        repeat rewrite <- app_assoc; reflexivity.
    - repeat split. }
  destruct Hstate as (Hpend & Hproc & Hcache & Heff).
  repeat (split; [assumption|]).
  intros w2 ev2 pv dv blk Hne Hv Hexv Hdv Hcid Happ2 Hblk Hnb.
  destruct (approval_calls_update w2 ev2 s' pv dv blk) as (rest & Hrest & _);
    try assumption.
  - rewrite Hpend. now rewrite lookup_delete_ne by congruence.
  - rewrite Hproc, Hcid. exact Hnin.
  - exists rest. rewrite Hrest, Hcid. reflexivity.
Qed.

(** X15. Feedback that is neither an approval nor a rejection replaces
    the suggestion: when the revision oracle returns a text, the
    sender's pending action is stored again with that text and a new
    expiry, ten minutes after the time of storing; nothing is written to
    the document. An approval that follows, before the new expiry,
    writes the revised text, not the first suggestion. An empty revision
    changes nothing. *)
Theorem revision_is_what_gets_applied (w : world) (ev : message) (s : state)
    (p : pending) (d : correction_data) (revised : string) :
  pendingDmActions s !! user ev = Some p ->
  (expiresAt p <? now w) = false ->
  data p = FaqCorrectionApproval d ->
  correctionId d ∉ processedCorrections s ->
  isApproval (text ev) = false ->
  isRejection (text ev) = false ->
  reviseSuggestedUpdate_result w = Returns revised ->
  let s' := snd (onDirectMessage w ev s) in
  processedCorrections s' = processedCorrections s
  /\ notionCache s' = notionCache s
  /\ List.filter is_update (effects s') = List.filter is_update (effects s)
  /\ (Text.nonempty revised = false -> pendingDmActions s' = pendingDmActions s)
  /\ (Text.nonempty revised = true ->
      pendingDmActions s'
      = <[user ev := {| data := FaqCorrectionApproval (with_suggestion d revised);
                        expiresAt := now_restore w + PENDING_DM_EXPIRY_MS |}]>
          (pendingDmActions s)
      /\ forall w2 ev2 blk,
           user ev2 = user ev ->
           (now_restore w + PENDING_DM_EXPIRY_MS <? now w2) = false ->
           isApproval (text ev2) = true ->
           blockId d = Some blk ->
           Text.nonempty blk = true ->
           exists rest,
             effects (snd (onDirectMessage w2 ev2 s'))
             = (effects s'
                ++ UpdateFaqBlock (correctionId d) blk revised (updateFaqBlock_result w2)
                   :: rest)%list
             /\ List.filter is_update rest = []).
Proof.
  intros Hl Hex Hd Hnin Happ Hrej Hrev s'.
  assert (Hstate :
    processedCorrections s' = processedCorrections s
    /\ notionCache s' = notionCache s
    /\ List.filter is_update (effects s') = List.filter is_update (effects s)
    /\ pendingDmActions s'
       = if Text.nonempty revised
         then <[user ev := {| data := FaqCorrectionApproval (with_suggestion d revised);
                              expiresAt := now_restore w + PENDING_DM_EXPIRY_MS |}]>
                (pendingDmActions s)
         else pendingDmActions s).
  { subst s'. clear -Hl Hex Hd Hnin Happ Hrej Hrev.
    destruct s as [pend proc cache effs], w as [t t' upd cmt rev res aka post],
             ev as [u ch txt], p as [dat ex],
             d as [cid0 blk0 burl pg sub sug oq an cn].
    cbn [pendingDmActions processedCorrections notionCache effects user channel text
         expiresAt data now now_restore postMessage_throws correctionId
         reviseSuggestedUpdate_result with_suggestion] in *.
    subst dat rev. dm_unfold. rewrite Hl. dm_unfold.
    rewrite Hex. dm_unfold. rewrite (bool_decide_eq_false_2 _ Hnin). dm_unfold.
    rewrite Happ. dm_unfold. rewrite Hrej. dm_unfold.
    destruct (Text.nonempty revised) eqn:Hne; dm_unfold;
      split_cases; (repeat split; []);
      rewrite ?List.filter_app; cbn [List.filter is_update];
      rewrite ?app_nil_r; reflexivity. }
  destruct Hstate as (Hproc & Hcache & Hupd & Hpend).
  repeat (split; [assumption|]).
  split; [intros Hne; now rewrite Hne in Hpend|].
  intros Hne. rewrite Hne in Hpend. split; [exact Hpend|].
  intros w2 ev2 blk Hu Hex2 Happ2 Hblk Hnb.
  apply (approval_calls_update w2 ev2 s'
           {| data := FaqCorrectionApproval (with_suggestion d revised);
              expiresAt := now_restore w + PENDING_DM_EXPIRY_MS |}
           (with_suggestion d revised) blk); try assumption.
  - rewrite Hpend, Hu. apply lookup_insert_eq.
  - reflexivity.
  - now rewrite Hproc.
Qed.

(** X16. An approval of a request that carries no block reference
    cannot be applied: "I couldn't locate the specific FAQ block" is
    posted, [updateFaqBlock] is not called and the correction is not
    marked applied; yet the request is closed for every lead, the
    pending actions that reference the correction being removed with the
    sender's. *)
Theorem approval_without_block_closes_request (w : world) (ev : message) (s : state)
    (p : pending) (d : correction_data) :
  pendingDmActions s !! user ev = Some p ->
  (expiresAt p <? now w) = false ->
  data p = FaqCorrectionApproval d ->
  correctionId d ∉ processedCorrections s ->
  isApproval (text ev) = true ->
  blockId d = None \/ blockId d = Some "" ->
  let s' := snd (onDirectMessage w ev s) in
  pendingDmActions s'
  = filter (fun kv : string * pending => references (correctionId d) kv.2 = false)
           (delete (user ev) (pendingDmActions s))
  /\ (forall v pv, pendingDmActions s' !! v = Some pv -> references (correctionId d) pv = false)
  /\ processedCorrections s' = processedCorrections s
  /\ notionCache s' = notionCache s
  /\ effects s'
     = (effects s
        ++ PostMessage (channel ev) CannotAutoApply (postMessage_throws w CannotAutoApply)
           :: (if postMessage_throws w CannotAutoApply
               then [PostMessage (channel ev) HandlerError (postMessage_throws w HandlerError)]
               else []))%list.
Proof.
  intros Hl Hex Hd Hnin Happ Hblk s'.
  assert (Hstate :
    pendingDmActions s'
    = filter (fun kv : string * pending => references (correctionId d) kv.2 = false)
             (delete (user ev) (pendingDmActions s))
    /\ processedCorrections s' = processedCorrections s
    /\ notionCache s' = notionCache s
    /\ effects s'
       = (effects s
          ++ PostMessage (channel ev) CannotAutoApply (postMessage_throws w CannotAutoApply)
             :: (if postMessage_throws w CannotAutoApply
                 then [PostMessage (channel ev) HandlerError
                                   (postMessage_throws w HandlerError)]
                 else []))%list).
  { subst s'. clear -Hl Hex Hd Hnin Happ Hblk.
    destruct s as [pend proc cache effs], w as [t t' upd cmt rev res aka post],
             ev as [u ch txt], p as [dat ex],
             d as [cid0 blk0 burl pg sub sug oq an cn].
    cbn [pendingDmActions processedCorrections notionCache effects user channel text
         expiresAt data now postMessage_throws correctionId blockId] in *.
    subst dat. dm_unfold. rewrite Hl. dm_unfold.
    rewrite Hex. dm_unfold. rewrite (bool_decide_eq_false_2 _ Hnin). dm_unfold.
    rewrite Happ. dm_unfold.
    destruct Hblk as [-> | ->]; dm_unfold;
      try (change (Text.nonempty "") with false; dm_unfold);
      (destruct (post CannotAutoApply) eqn:Hpost; dm_unfold;
       [ destruct (post HandlerError); (repeat split; []);
         repeat rewrite <- app_assoc; reflexivity
       | repeat split ]). }
  destruct Hstate as (Hpend & Hproc & Hcache & Heff).
  split; [exact Hpend|]. split; [|auto].
  intros v pv Hv. rewrite Hpend in Hv. apply map_lookup_filter_Some in Hv.
  exact (proj2 Hv).
Qed.

(** The first lead declines; the second still holds the request. *)
Lemma rejection_by_one_lead :
  pendingDmActions
    (snd (onDirectMessage (Sample.world_ok 1000) (Sample.no_from "U1") Sample.two_requests))
  = delete "U1" (pendingDmActions Sample.two_requests).
Proof.
  assert (Hl : pendingDmActions Sample.two_requests !! user (Sample.no_from "U1")
               = Some {| data := FaqCorrectionApproval Sample.request;
                         expiresAt := 0 + PENDING_DM_EXPIRY_MS |})
    by (vm_compute; reflexivity).
  assert (Hnin : correctionId Sample.request ∉ processedCorrections Sample.two_requests)
    by (change (correctionId Sample.request ∉ (∅ : gset string));
        apply not_elem_of_empty).
  exact (proj1 (rejection_leaves_correction_open
                  (Sample.world_ok 1000) (Sample.no_from "U1") Sample.two_requests
                  _ Sample.request Hl eq_refl eq_refl Hnin eq_refl)).
Defined.

(** The first lead asks for a change of wording and then approves: the
    revised text is written. *)
Lemma revised_text_is_written :
  exists rest,
    effects
      (snd (onDirectMessage (Sample.world_ok 2000) (Sample.yes_from "U1")
              (snd (onDirectMessage (Sample.world_ok 1000) (Sample.feedback_from "U1")
                      Sample.two_requests))))
    = (effects (snd (onDirectMessage (Sample.world_ok 1000) (Sample.feedback_from "U1")
                       Sample.two_requests))
       ++ UpdateFaqBlock "ans_1" "aaaaaaaa-aaaa-aaaa-aaaa-aaaaaaaaaaaa"
            "Refunds take ten working days."
            (updateFaqBlock_result (Sample.world_ok 2000))
          :: rest)%list
    /\ List.filter is_update rest = [].
Proof.
  assert (Hl : pendingDmActions Sample.two_requests !! user (Sample.feedback_from "U1")
               = Some {| data := FaqCorrectionApproval Sample.request;
                         expiresAt := 0 + PENDING_DM_EXPIRY_MS |})
    by (vm_compute; reflexivity).
  assert (Hnin : correctionId Sample.request ∉ processedCorrections Sample.two_requests)
    by (change (correctionId Sample.request ∉ (∅ : gset string));
        apply not_elem_of_empty).
  exact (proj2 (proj2 (proj2 (proj2 (proj2
           (revision_is_what_gets_applied
              (Sample.world_ok 1000) (Sample.feedback_from "U1") Sample.two_requests
              _ Sample.request "Refunds take ten working days."
              Hl eq_refl eq_refl Hnin eq_refl eq_refl eq_refl)))) eq_refl)
           (Sample.world_ok 2000) (Sample.yes_from "U1")
           "aaaaaaaa-aaaa-aaaa-aaaa-aaaaaaaaaaaa" eq_refl eq_refl eq_refl eq_refl eq_refl).
Defined.

(** One lead approves a request without a block reference: it is gone
    for both leads. *)
Lemma unmatched_request_is_closed :
  pendingDmActions
    (snd (onDirectMessage (Sample.world_ok 1000) (Sample.yes_from "U1")
            Sample.two_requests_without_block))
  = filter (fun kv : string * pending => references "ans_2" kv.2 = false)
           (delete "U1" (pendingDmActions Sample.two_requests_without_block)).
Proof.
  assert (Hl : pendingDmActions Sample.two_requests_without_block
                 !! user (Sample.yes_from "U1")
               = Some {| data := FaqCorrectionApproval Sample.request_without_block;
                         expiresAt := 0 + PENDING_DM_EXPIRY_MS |})
    by (vm_compute; reflexivity).
  assert (Hnin : correctionId Sample.request_without_block
                 ∉ processedCorrections Sample.two_requests_without_block)
    by (change (correctionId Sample.request_without_block ∉ (∅ : gset string));
        apply not_elem_of_empty).
  exact (proj1 (approval_without_block_closes_request
                  (Sample.world_ok 1000) (Sample.yes_from "U1")
                  Sample.two_requests_without_block
                  _ Sample.request_without_block Hl eq_refl eq_refl Hnin eq_refl
                  (or_introl eq_refl))).
Defined.

(** X17. The conversation that creates a knowledge area. A message
    without an address or identifier cancels the request if it says so
    and is otherwise answered with a reminder, the request staying
    pending; an address from which no page identifier can be extracted
    leaves it pending too. Only a message with an address that
    [extractPageId] accepts leads to [addKnowledgeArea], called once,
    with the stored name, that address and the stored leads (or, when no
    lead identifier is stored, the users resolved from the stored
    names). The pending action is removed before the call, so it is gone
    also when the call fails. *)
Theorem add_area_conversation (w : world) (ev : message) (s : state)
    (p : pending) (d : area_data) :
  pendingDmActions s !! user ev = Some p ->
  (expiresAt p <? now w) = false ->
  data p = AddKnowledgeArea d ->
  let s' := snd (onDirectMessage w ev s) in
  match urlMatch (text ev) with
  | None =>
      List.filter is_area_call (effects s') = List.filter is_area_call (effects s)
      /\ pendingDmActions s'
         = (if isCancel (text ev) then delete (user ev) (pendingDmActions s)
            else pendingDmActions s)
  | Some notionUrl =>
      match Notion.extractPageId notionUrl with
      | None =>
          List.filter is_area_call (effects s') = List.filter is_area_call (effects s)
          /\ pendingDmActions s' = pendingDmActions s
      | Some _ =>
          pendingDmActions s' = delete (user ev) (pendingDmActions s)
          /\ exists rest,
               effects s'
               = (effects s
                  ++ AddKnowledgeAreaCall (name d) notionUrl (area_leads w d)
                                          (addKnowledgeArea_throws w)
                     :: rest)%list
               /\ Forall is_post rest
      end
  end.
Proof.
  destruct s as [pend proc cache effs], w as [t t' upd cmt rev res aka post],
           ev as [u ch txt], p as [dat ex], d as [nm ds kw li ln].
  cbn [pendingDmActions processedCorrections notionCache effects user channel text
       expiresAt data now postMessage_throws name addKnowledgeArea_throws].
  intros Hl Hex ->. dm_unfold. rewrite Hl. dm_unfold. rewrite Hex. dm_unfold.
  destruct (urlMatch txt) as [url|] eqn:Hurl; dm_unfold.
  - destruct (Notion.extractPageId url) eqn:Hid; dm_unfold.
    + split_cases; (split; [reflexivity|]);
        eexists; (split; [repeat rewrite <- app_assoc; cbn [app]; reflexivity|]);
        repeat constructor.
    + split_cases; (split; [|reflexivity]);
        rewrite ?List.filter_app; cbn [List.filter is_area_call];
        rewrite ?app_nil_r; reflexivity.
  - destruct (isCancel txt) eqn:Hc; dm_unfold;
      split_cases; (split; [|reflexivity]);
      rewrite ?List.filter_app; cbn [List.filter is_area_call];
      rewrite ?app_nil_r; reflexivity.
Qed.

(** The lead pastes the address of the page: the area is created with
    the lead resolved from the stored name. *)
Lemma area_created_from_address :
  pendingDmActions
    (snd (onDirectMessage (Sample.world_ok 1000) (Sample.url_from "U1") Sample.area_pending))
  = delete "U1" (pendingDmActions Sample.area_pending)
  /\ exists rest,
       effects
         (snd (onDirectMessage (Sample.world_ok 1000) (Sample.url_from "U1")
                 Sample.area_pending))
       = (effects Sample.area_pending
          ++ AddKnowledgeAreaCall "Platform"
               "https://notion.so/team/Platform-0123456789abcdef0123456789abcdef"
               ["Ada"] false
             :: rest)%list
       /\ Forall is_post rest.
Proof.
  assert (Hl : pendingDmActions Sample.area_pending !! user (Sample.url_from "U1")
               = Some {| data := AddKnowledgeArea Sample.area_request;
                         expiresAt := 0 + PENDING_DM_EXPIRY_MS |})
    by (vm_compute; reflexivity).
  pose proof (add_area_conversation (Sample.world_ok 1000) (Sample.url_from "U1")
                Sample.area_pending _ Sample.area_request Hl eq_refl eq_refl) as H.
  cbv zeta in H.
  assert (Hu : urlMatch (text (Sample.url_from "U1"))
               = Some "https://notion.so/team/Platform-0123456789abcdef0123456789abcdef")
    by (vm_compute; reflexivity).
  assert (Hid : Notion.extractPageId
                  "https://notion.so/team/Platform-0123456789abcdef0123456789abcdef"
                = Some "0123456789abcdef0123456789abcdef")
    by (vm_compute; reflexivity).
  rewrite Hu, Hid in H. exact H.
Defined.

End PendingConversations.

(** ** The roster of a knowledge area *)

Section RosterInvariants.

Import Js Roster.

Lemma update_found_Forall {A : Type} (P : A -> Prop) (p : A -> bool) (f : A -> A)
    (l : list A) (a : A) :
  find p l = Some a -> Forall P l -> (P a -> P (f a)) ->
  Forall P (update_first p f l).
Proof.
  intros Hfind Hall Hf. revert Hfind.
  induction Hall as [|x r Hx Hr IH]; simpl; [discriminate|].
  destruct (p x).
  - intros [= ->]. constructor; [now apply Hf | exact Hr].
  - intros H. constructor; [exact Hx | now apply IH].
Qed.

Lemma update_none {A : Type} (p : A -> bool) (f : A -> A) (l : list A) :
  find p l = None -> update_first p f l = l.
Proof.
  induction l as [|x r IH]; simpl; [reflexivity|].
  destruct (p x); [discriminate|]. intros H. now rewrite IH.
Qed.

Lemma saveRoster_Forall (P : area -> Prop) (areas : store) :
  Forall P areas -> (forall a, P a -> P (recomputeOwnerUserIds a)) ->
  Forall P (saveRoster areas).
Proof.
  intros Hall Hf. unfold saveRoster. induction Hall; simpl; constructor; auto.
Qed.

Lemma some_user_ids (u : string) (l : list member) :
  some_user u l = true <-> In u (List.map userId l).
Proof.
  unfold some_user. rewrite existsb_exists, in_map_iff. split.
  - intros (m & Hin & Hm). exists m. split; [now apply String.eqb_eq | exact Hin].
  - intros (m & <- & Hin). exists m. split; [exact Hin | apply String.eqb_refl].
Qed.

Lemma some_user_false (u : string) (l : list member) :
  some_user u l = false <-> ~ In u (List.map userId l).
Proof.
  rewrite <- some_user_ids. destruct (some_user u l); split; congruence.
Qed.

Lemma find_user (u : string) (l : list member) (m : member) :
  find (has_user u) l = Some m -> userId m = u /\ In u (List.map userId l).
Proof.
  intros H. pose proof (find_some _ _ H) as [Hin Hm].
  apply String.eqb_eq in Hm. split; [exact Hm|].
  apply in_map_iff. now exists m.
Qed.

Lemma find_user_none (u : string) (l : list member) :
  find (has_user u) l = None <-> ~ In u (List.map userId l).
Proof.
  rewrite <- some_user_false. unfold some_user.
  induction l as [|m r IH]; simpl; [tauto|].
  destruct (has_user u m); simpl; [split; discriminate | exact IH].
Qed.

Lemma ids_without (u : string) (l : list member) :
  List.map userId (without u l) = List.filter (other u) (List.map userId l).
Proof.
  unfold without, other, has_user. induction l as [|m r IH]; simpl; [reflexivity|].
  destruct (String.eqb (userId m) u); simpl; now rewrite IH.
Qed.

Lemma ids_update_first (u : string) (f : member -> member) (l : list member) :
  (forall m, userId (f m) = userId m) ->
  List.map userId (update_first (has_user u) f l) = List.map userId l.
Proof.
  intros Hf. induction l as [|m r IH]; simpl; [reflexivity|].
  destruct (has_user u m); simpl; [now rewrite Hf | now rewrite IH].
Qed.

Lemma In_other (u x : string) (l : list string) :
  In x (List.filter (other u) l) <-> In x l /\ x <> u.
Proof.
  rewrite filter_In. unfold other. rewrite negb_true_iff, String.eqb_neq. tauto.
Qed.

Lemma filter_other_id (u : string) (l : list string) :
  ~ In u l -> List.filter (other u) l = l.
Proof.
  induction l as [|x r IH]; simpl; [reflexivity|]. intros H.
  unfold other at 1. destruct (String.eqb x u) eqn:E.
  - apply String.eqb_eq in E. subst. tauto.
  - simpl. rewrite IH; [reflexivity | tauto].
Qed.

Lemma without_id (u : string) (l : list member) :
  ~ In u (List.map userId l) -> without u l = l.
Proof.
  unfold without, has_user. induction l as [|m r IH]; simpl; [reflexivity|]. intros H.
  destruct (String.eqb (userId m) u) eqn:E.
  - apply String.eqb_eq in E. tauto.
  - simpl. rewrite IH; [reflexivity | tauto].
Qed.

Lemma without_snoc (u : string) (l : list member) (m : member) :
  userId m = u -> without u (l ++ [m]) = without u l.
Proof.
  intros Hm. unfold without. rewrite List.filter_app. simpl.
  unfold has_user at 2. rewrite Hm, String.eqb_refl. simpl. apply app_nil_r.
Qed.

Lemma NoDup_app_iff (l k : list string) :
  List.NoDup (l ++ k)
  <-> List.NoDup l /\ List.NoDup k /\ (forall x, In x l -> ~ In x k).
Proof.
  induction l as [|a r IH]; simpl.
  - split; [intros H; repeat split; [constructor | exact H | tauto] | tauto].
  - split.
    + intros H. inversion H as [|? ? Ha Hr]; subst. apply IH in Hr.
      destruct Hr as (Hr & Hk & Hd). rewrite in_app_iff in Ha.
      repeat split; [constructor; tauto | exact Hk |].
      intros x [<- | Hx]; [tauto | now apply Hd].
    + intros (H & Hk & Hd). inversion H as [|? ? Ha Hr]; subst.
      constructor; [rewrite in_app_iff; intros [?|?]; [tauto | eapply Hd; eauto]|].
      apply IH. repeat split; auto.
Qed.

Lemma NoDup_snoc (l : list string) (u : string) :
  List.NoDup l -> ~ In u l -> List.NoDup (l ++ [u]).
Proof.
  intros Hl Hu. apply NoDup_app_iff. repeat split; [exact Hl | repeat constructor; tauto |].
  intros x Hx [<- | []]. tauto.
Qed.

(** The user ids after the changes the operations make. *)

Lemma distinct_push_lead (u desc now : string) (a : area) :
  some_user u (or_empty (leads a)) = false ->
  distinct_members a -> distinct_members (push_lead u desc now a).
Proof.
  unfold distinct_members, member_ids. cbn [push_lead set_roster leads teamMembers or_empty].
  intros Hu Hd. apply some_user_false in Hu.
  rewrite List.map_app, ids_without. cbn [List.map userId].
  apply NoDup_app_iff in Hd. destruct Hd as (HL & HT & Hdis).
  apply NoDup_app_iff. repeat split.
  - now apply NoDup_snoc.
  - now apply List.NoDup_filter.
  - intros x Hx Hx'. apply In_other in Hx'. destruct Hx' as [Hx' Hne].
    apply in_app_iff in Hx. destruct Hx as [Hx | [<- | []]]; [|congruence].
    exact (Hdis x Hx Hx').
Qed.

Lemma distinct_push_team_member (u desc by_ now : string) (a : area) :
  some_user u (or_empty (leads a)) || some_user u (or_empty (teamMembers a)) = false ->
  distinct_members a -> distinct_members (push_team_member u desc by_ now a).
Proof.
  unfold distinct_members, member_ids.
  cbn [push_team_member set_roster leads teamMembers or_empty].
  intros Hu Hd. apply orb_false_iff in Hu. destruct Hu as [HuL HuT].
  apply some_user_false in HuL, HuT.
  rewrite List.map_app. cbn [List.map userId].
  apply NoDup_app_iff in Hd. destruct Hd as (HL & HT & Hdis).
  apply NoDup_app_iff. repeat split.
  - exact HL.
  - now apply NoDup_snoc.
  - intros x Hx Hx'. apply in_app_iff in Hx'. destruct Hx' as [Hx' | [<- | []]].
    + exact (Hdis x Hx Hx').
    + tauto.
Qed.

Lemma distinct_drop_member (u now : string) (a : area) :
  distinct_members a -> distinct_members (drop_member u now a).
Proof.
  unfold distinct_members, member_ids.
  cbn [drop_member set_roster leads teamMembers or_empty].
  intros Hd. rewrite !ids_without.
  apply NoDup_app_iff in Hd. destruct Hd as (HL & HT & Hdis).
  apply NoDup_app_iff. repeat split; try now apply List.NoDup_filter.
  intros x Hx Hx'. apply In_other in Hx, Hx'. exact (Hdis x (proj1 Hx) (proj1 Hx')).
Qed.

Lemma distinct_promote (u now now' : string) (a : area) (existing : member) :
  some_user u (or_empty (leads a)) = false ->
  find (has_user u) (or_empty (teamMembers a)) = Some existing ->
  distinct_members a -> distinct_members (promote existing now now' a).
Proof.
  unfold distinct_members, member_ids.
  cbn [promote set_roster leads teamMembers or_empty].
  intros Hu Hex Hd. apply some_user_false in Hu.
  destruct (find_user _ _ _ Hex) as [-> _].
  rewrite List.map_app, ids_without. cbn [List.map userId].
  apply NoDup_app_iff in Hd. destruct Hd as (HL & HT & Hdis).
  apply NoDup_app_iff. repeat split.
  - now apply NoDup_snoc.
  - now apply List.NoDup_filter.
  - intros x Hx Hx'. apply In_other in Hx'. destruct Hx' as [Hx' Hne].
    apply in_app_iff in Hx. destruct Hx as [Hx | [<- | []]]; [|congruence].
    exact (Hdis x Hx Hx').
Qed.

Lemma distinct_demote (u now now' : string) (a : area) (existing : member) :
  find (has_user u) (or_empty (leads a)) = Some existing ->
  distinct_members a -> distinct_members (demote existing now now' a).
Proof.
  unfold distinct_members, member_ids.
  cbn [demote set_roster leads teamMembers or_empty].
  intros Hex Hd. destruct (find_user _ _ _ Hex) as [-> HinL].
  rewrite List.map_app, ids_without. cbn [List.map userId].
  apply NoDup_app_iff in Hd. destruct Hd as (HL & HT & Hdis).
  apply NoDup_app_iff. repeat split.
  - now apply List.NoDup_filter.
  - apply NoDup_snoc; [exact HT | now apply Hdis].
  - intros x Hx Hx'. apply In_other in Hx. destruct Hx as [Hx Hne].
    apply in_app_iff in Hx'. destruct Hx' as [Hx' | [<- | []]]; [|congruence].
    exact (Hdis x Hx Hx').
Qed.

Lemma member_ids_change_member (u : string) (f : member -> member) (a : area) :
  (forall m, userId (f m) = userId m) ->
  member_ids (change_member u f a) = member_ids a.
Proof.
  intros Hf. unfold change_member, member_ids.
  destruct (find (has_user u) (or_empty (leads a))).
  - cbn [set_roster leads teamMembers or_empty]. now rewrite ids_update_first.
  - destruct (find (has_user u) (or_empty (teamMembers a))); [|reflexivity].
    cbn [set_roster leads teamMembers or_empty]. now rewrite ids_update_first.
Qed.

Lemma member_ids_recompute (a : area) :
  member_ids (recomputeOwnerUserIds a) = member_ids a.
Proof. reflexivity. Qed.

Lemma member_ids_normalize (a : area) : member_ids (normalize_arrays a) = member_ids a.
Proof. reflexivity. Qed.

Lemma distinct_recompute (a : area) :
  distinct_members a -> distinct_members (recomputeOwnerUserIds a).
Proof. trivial. Qed.

Lemma distinct_step (o : op) (areas : store) :
  Forall distinct_members areas -> Forall distinct_members (snd (apply_op o areas)).
Proof.
  intros Hall.
  destruct o as [i u d t | i u d b t | i u t | i u t t' | i u t t' | i u d t t' | i u t];
    cbn [apply_op];
    unfold addLead, addTeamMember, removeMember, promoteToLead, demoteToTeamMember,
      updateMemberDescription, touchMemberActivity;
    destruct (getKnowledgeAreaById i areas) as [a|] eqn:Hfind; try exact Hall;
    unfold getKnowledgeAreaById in Hfind.
  - destruct (some_user u (or_empty (leads a))) eqn:Hu; cbn [snd].
    + eapply update_found_Forall; eauto.
    + apply saveRoster_Forall; [|exact distinct_recompute].
      eapply update_found_Forall; eauto. now apply distinct_push_lead.
  - destruct (some_user u (or_empty (leads a)) || some_user u (or_empty (teamMembers a)))
      eqn:Hu; cbn [snd].
    + eapply update_found_Forall; eauto.
    + apply saveRoster_Forall; [|exact distinct_recompute].
      eapply update_found_Forall; eauto. now apply distinct_push_team_member.
  - destruct (0 <? removed_count u a)%nat; cbn [snd].
    + apply saveRoster_Forall; [|exact distinct_recompute].
      eapply update_found_Forall; eauto. apply distinct_drop_member.
    + eapply update_found_Forall; eauto. apply distinct_drop_member.
  - destruct (some_user u (or_empty (leads a))) eqn:Hu; [exact Hall|].
    destruct (find (has_user u) (or_empty (teamMembers a))) as [ex|] eqn:Hex; [|exact Hall].
    cbn [snd]. apply saveRoster_Forall; [|exact distinct_recompute].
    eapply update_found_Forall; eauto. now apply (distinct_promote u).
  - destruct (find (has_user u) (or_empty (leads a))) as [ex|] eqn:Hex; [|exact Hall].
    cbn [snd]. apply saveRoster_Forall; [|exact distinct_recompute].
    eapply update_found_Forall; eauto. now apply (distinct_demote u).
  - destruct (or_else _ _); [|exact Hall].
    cbn [snd]. apply saveRoster_Forall; [|exact distinct_recompute].
    eapply update_found_Forall; eauto.
    unfold distinct_members. intros Hd.
    change (member_ids (set_updatedAt t' (change_member u (describe d t) a)))
      with (member_ids (change_member u (describe d t) a)).
    now rewrite member_ids_change_member.
  - destruct (or_else _ _); [|exact Hall].
    cbn [snd]. apply saveRoster_Forall; [|exact distinct_recompute].
    eapply update_found_Forall; eauto.
    unfold distinct_members. intros Hd. now rewrite member_ids_change_member.
Qed.

(** X18. No roster operation makes a user appear twice in an area: if in
    every area no user is listed twice, among the leads and the team
    members together, this still holds after any sequence of [addLead],
    [addTeamMember], [removeMember], [promoteToLead],
    [demoteToTeamMember], [updateMemberDescription] and
    [touchMemberActivity] calls, whether they return or throw. *)
Theorem roster_keeps_members_distinct (ops : list op) (areas : store) :
  Forall distinct_members areas -> Forall distinct_members (run ops areas).
Proof.
  revert areas. induction ops as [|o r IH]; intros areas Hall; [exact Hall|].
  simpl. apply IH, distinct_step, Hall.
Qed.

Lemma sample_roster_distinct : Forall distinct_members Sample.roster_store.
Proof.
  repeat constructor; cbn; intuition discriminate.
Qed.

(** The team member of the sample area is promoted, then added again as
    a team member: still nobody is listed twice. *)
Lemma sample_roster_stays_distinct :
  Forall distinct_members
    (run [PromoteToLead "billing" "U2" "2026-03-01T08:00:00.000Z" "2026-03-01T08:00:00.001Z";
          AddTeamMember "billing" "U2" "refunds" "added-by:U1" "2026-03-02T08:00:00.000Z"]
         Sample.roster_store).
Proof.
  apply roster_keeps_members_distinct. exact sample_roster_distinct.
Defined.

Lemma uniq_from_In (seen ids : list string) (x : string) :
  In x (uniq_from seen ids) <-> In x ids /\ ~ In x seen.
Proof.
  revert seen. induction ids as [|y r IH]; intros seen; simpl; [tauto|].
  destruct (includes_str seen y) eqn:Hy.
  - apply includes_str_In in Hy. rewrite IH. split; [tauto|].
    intros [[<- | H] Hn]; tauto.
  - assert (Hny : ~ In y seen) by (rewrite <- includes_str_In; congruence).
    simpl. rewrite IH. simpl. split.
    + intros [<- | [H Hn]]; tauto.
    + intros [[<- | H] Hn]; [now left|].
      destruct (String.eqb y x) eqn:E; [apply String.eqb_eq in E; now left|].
      apply String.eqb_neq in E. right. tauto.
Qed.

Lemma uniq_from_NoDup (seen ids : list string) : List.NoDup (uniq_from seen ids).
Proof.
  revert seen. induction ids as [|y r IH]; intros seen; simpl; [constructor|].
  destruct (includes_str seen y); [apply IH|].
  constructor; [|apply IH]. rewrite uniq_from_In. simpl. tauto.
Qed.

Lemma uniq_from_distinct (seen ids : list string) :
  List.NoDup ids -> (forall x, In x ids -> ~ In x seen) -> uniq_from seen ids = ids.
Proof.
  revert seen. induction ids as [|y r IH]; intros seen Hnd Hdis; simpl; [reflexivity|].
  inversion Hnd as [|? ? Hy Hr]; subst.
  assert (Hs : includes_str seen y = false).
  { destruct (includes_str seen y) eqn:E; [|reflexivity].
    apply includes_str_In in E. exfalso. apply (Hdis y); simpl; tauto. }
  rewrite Hs. f_equal. apply IH; [exact Hr|].
  intros x Hx [<- | Hin]; [tauto|]. apply (Hdis x); simpl; tauto.
Qed.

Lemma agree_recompute (a : area) : owners_agree (recomputeOwnerUserIds a).
Proof. reflexivity. Qed.

Lemma agree_saveRoster (areas : store) : Forall owners_agree (saveRoster areas).
Proof.
  unfold saveRoster. induction areas; simpl; constructor; [apply agree_recompute | assumption].
Qed.

Lemma filter_length_id {A : Type} (p : A -> bool) (l : list A) :
  (length l - length (List.filter p l) = 0)%nat -> List.filter p l = l.
Proof.
  induction l as [|x r IH]; simpl; [reflexivity|].
  pose proof (filter_length_le p r) as Hle.
  destruct (p x); simpl; intros H; [f_equal; apply IH; lia | lia].
Qed.

Lemma member_ids_drop_nothing (u now : string) (a : area) :
  (0 <? removed_count u a)%nat = false ->
  member_ids (drop_member u now a) = member_ids a.
Proof.
  intros H. apply Nat.ltb_ge in H. unfold removed_count in H.
  unfold member_ids. cbn [drop_member set_roster leads teamMembers or_empty].
  unfold without in *. rewrite !filter_length_id by lia. reflexivity.
Qed.

Lemma agree_step (o : op) (areas : store) :
  Forall owners_agree areas -> Forall owners_agree (snd (apply_op o areas)).
Proof.
  intros Hall.
  destruct o as [i u d t | i u d b t | i u t | i u t t' | i u t t' | i u d t t' | i u t];
    cbn [apply_op];
    unfold addLead, addTeamMember, removeMember, promoteToLead, demoteToTeamMember,
      updateMemberDescription, touchMemberActivity;
    destruct (getKnowledgeAreaById i areas) as [a|] eqn:Hfind; try exact Hall;
    unfold getKnowledgeAreaById in Hfind.
  - destruct (some_user u (or_empty (leads a))); cbn [snd]; [|apply agree_saveRoster].
    eapply update_found_Forall; eauto.
  - destruct (some_user u (or_empty (leads a)) || some_user u (or_empty (teamMembers a)));
      cbn [snd]; [|apply agree_saveRoster].
    eapply update_found_Forall; eauto.
  - destruct (0 <? removed_count u a)%nat eqn:Hrem; cbn [snd]; [apply agree_saveRoster|].
    eapply update_found_Forall; eauto. unfold owners_agree. intros Ha.
    rewrite (member_ids_drop_nothing u t a Hrem). exact Ha.
  - destruct (some_user u (or_empty (leads a))); [exact Hall|].
    destruct (find (has_user u) (or_empty (teamMembers a))); [|exact Hall].
    apply agree_saveRoster.
  - destruct (find (has_user u) (or_empty (leads a))); [|exact Hall].
    apply agree_saveRoster.
  - destruct (or_else _ _); [|exact Hall]. apply agree_saveRoster.
  - destruct (or_else _ _); [|exact Hall]. apply agree_saveRoster.
Qed.

Lemma agree_merge (seeds : list seed) (roster : gmap string roster_entry) (clock : string) :
  Forall owners_agree (mergeConfigAndRoster seeds roster clock).
Proof.
  unfold mergeConfigAndRoster. induction seeds as [|s r IH]; simpl; constructor;
    [apply agree_recompute | exact IH].
Qed.

Lemma agree_run (ops : list op) (areas : store) :
  Forall owners_agree areas -> Forall owners_agree (run ops areas).
Proof.
  revert areas. induction ops as [|o r IH]; intros areas Hall; [exact Hall|].
  simpl. apply IH, agree_step, Hall.
Qed.

(** X19. The derived field [ownerUserIds] follows the roster. From
    loading on, after any sequence of roster operations, in every area
    it lists the users of the roster, the leads before the team
    members, each once: it has no duplicate, a user is in it exactly
    when they are a lead or a team member, and where nobody is listed
    twice in the roster it is the lead ids followed by the team member
    ids. *)
Theorem ownerUserIds_follow_roster (seeds : list seed) (roster : gmap string roster_entry)
    (clock : string) (ops : list op) (a : area) :
  In a (run ops (mergeConfigAndRoster seeds roster clock)) ->
  ownerUserIds a = uniq (member_ids a)
  /\ List.NoDup (ownerUserIds a)
  /\ (forall u, In u (ownerUserIds a) <-> In u (member_ids a))
  /\ (distinct_members a -> ownerUserIds a = member_ids a).
Proof.
  intros Hin.
  pose proof (agree_run ops _ (agree_merge seeds roster clock)) as Hall.
  rewrite List.Forall_forall in Hall. specialize (Hall a Hin). unfold owners_agree in Hall.
  split; [exact Hall|]. rewrite Hall. unfold uniq.
  split; [apply uniq_from_NoDup|]. split.
  - intros u. rewrite uniq_from_In. simpl. tauto.
  - intros Hd. apply uniq_from_distinct; [exact Hd | intros x _ []].
Qed.

(** The sample seed names its lead twice; the owners name them once. *)
Lemma bootstrapped_owners :
  ownerUserIds Sample.bootstrapped = uniq (member_ids Sample.bootstrapped)
  /\ ownerUserIds Sample.bootstrapped = ["U1"; "U2"].
Proof.
  split; [|reflexivity].
  apply (ownerUserIds_follow_roster [Sample.billing_seed] ∅ "2026-01-05T09:00:00.000Z"
           Sample.self_registration Sample.bootstrapped).
  vm_compute. left. reflexivity.
Defined.

Lemma has_id_recompute (i : string) (a : area) :
  has_id i (recomputeOwnerUserIds a) = has_id i a.
Proof. reflexivity. Qed.

Lemma find_saveRoster (i : string) (areas : store) :
  getKnowledgeAreaById i (saveRoster areas)
  = match getKnowledgeAreaById i areas with
    | Some a => Some (recomputeOwnerUserIds a)
    | None => None
    end.
Proof.
  unfold getKnowledgeAreaById, saveRoster. induction areas as [|x r IH]; simpl; [reflexivity|].
  rewrite has_id_recompute. destruct (has_id i x); [reflexivity | exact IH].
Qed.

Lemma find_after_save (i : string) (f : area -> area) (areas : store) (a : area) :
  (forall x, id (f x) = id x) ->
  getKnowledgeAreaById i areas = Some a ->
  getKnowledgeAreaById i (saveRoster (update_first (has_id i) f areas))
  = Some (recomputeOwnerUserIds (f a)).
Proof.
  intros Hid Hfind. rewrite find_saveRoster. unfold getKnowledgeAreaById in *.
  rewrite (find_update_first (has_id i) f) with (a := a); [reflexivity | | exact Hfind].
  intros x Hx. unfold has_id in *. now rewrite Hid.
Qed.

Lemma find_not_none {A : Type} (p : A -> bool) (l : list A) (x : A) :
  In x l -> p x = true -> find p l <> None.
Proof.
  intros Hin Hp Hnone. apply (find_none _ _ Hnone) in Hin. congruence.
Qed.

(** X20. Promotion and demotion move a member and keep what is known of
    them. Promoting a team member removes them from the team and appends
    them to the leads with their description and [addedAt]; they are
    then a lead for [isLeadForAnyArea]. Demoting them again restores the
    leads exactly and puts them back on the team, at the end, with the
    same description and [addedAt], but recorded as added by
    "demoted": who added them first is lost. *)
Theorem promote_then_demote (i u t1 t1' t2 t2' : string) (areas : store)
    (a : area) (m : member) :
  getKnowledgeAreaById i areas = Some a ->
  some_user u (or_empty (leads a)) = false ->
  find (has_user u) (or_empty (teamMembers a)) = Some m ->
  let areas1 := snd (promoteToLead i u t1 t1' areas) in
  let areas2 := snd (demoteToTeamMember i u t2 t2' areas1) in
  getLeads i areas1
  = (or_empty (leads a) ++ [mkMember u (description m) None (addedAt m) t1])%list
  /\ getTeamMembers i areas1 = without u (or_empty (teamMembers a))
  /\ isLeadForAnyArea u areas1 <> None
  /\ getLeads i areas2 = or_empty (leads a)
  /\ getTeamMembers i areas2
     = (without u (or_empty (teamMembers a))
        ++ [mkMember u (description m) (Some "demoted") (addedAt m) t2])%list.
Proof.
  intros Hfind Hlead Hteam areas1 areas2.
  destruct (find_user _ _ _ Hteam) as [Hm _]. subst u.
  assert (H1 : getKnowledgeAreaById i areas1
               = Some (recomputeOwnerUserIds (promote m t1 t1' a))).
  { subst areas1. unfold promoteToLead. rewrite Hfind, Hlead, Hteam. cbn [snd].
    now apply find_after_save. }
  assert (Hnew : find (has_user (userId m))
                   (or_empty (leads a)
                    ++ [mkMember (userId m) (description m) None (addedAt m) t1])
                 = Some (mkMember (userId m) (description m) None (addedAt m) t1)).
  { rewrite find_snoc.
    assert (Hn : find (has_user (userId m)) (or_empty (leads a)) = None).
    { apply find_user_none. now apply some_user_false. }
    rewrite Hn. unfold has_user. cbn [userId]. now rewrite String.eqb_refl. }
  assert (H2 : getKnowledgeAreaById i areas2
               = Some (recomputeOwnerUserIds
                         (demote (mkMember (userId m) (description m) None (addedAt m) t1)
                                 t2 t2'
                                 (recomputeOwnerUserIds (promote m t1 t1' a))))).
  { subst areas2. unfold demoteToTeamMember. rewrite H1.
    cbn [recomputeOwnerUserIds promote set_roster leads or_empty]. rewrite Hnew.
    cbn [snd]. apply find_after_save; [reflexivity | exact H1]. }
  unfold getLeads, getTeamMembers. rewrite H1, H2.
  cbn [recomputeOwnerUserIds promote demote set_roster leads teamMembers or_empty userId
       description addedAt].
  repeat split.
  - unfold isLeadForAnyArea. apply find_not_none with
      (x := recomputeOwnerUserIds (promote m t1 t1' a)).
    + unfold getKnowledgeAreaById in H1. now apply find_some in H1.
    + cbn [recomputeOwnerUserIds promote set_roster leads or_empty].
      apply some_user_ids. rewrite List.map_app, in_app_iff. right. simpl. now left.
  - rewrite without_snoc by reflexivity.
    apply without_id. now apply some_user_false.
Qed.

(** The team member of the sample area, promoted and demoted again. *)
Lemma sample_promote_then_demote :
  getTeamMembers "billing"
    (snd (demoteToTeamMember "billing" "U2" "2026-03-02T08:00:00.000Z"
            "2026-03-02T08:00:00.001Z"
            (snd (promoteToLead "billing" "U2" "2026-03-01T08:00:00.000Z"
                    "2026-03-01T08:00:00.001Z" Sample.roster_store))))
  = [mkMember "U2" "refunds" (Some "demoted") "2026-02-01T10:00:00.000Z"
              "2026-03-02T08:00:00.000Z"].
Proof.
  exact (proj2 (proj2 (proj2 (proj2
    (promote_then_demote "billing" "U2" "2026-03-01T08:00:00.000Z"
       "2026-03-01T08:00:00.001Z" "2026-03-02T08:00:00.000Z" "2026-03-02T08:00:00.001Z"
       Sample.roster_store Sample.billing_roster Sample.bob eq_refl eq_refl eq_refl))))).
Defined.



End RosterInvariants.

(** ** Roster requests by direct message *)

Section RosterRequests.

Import Js Roster RosterDm.

Lemma run_app (ops ops' : list op) (areas : store) :
  run (ops ++ ops') areas = run ops' (run ops areas).
Proof.
  revert areas. induction ops as [|o r IH]; intros areas; [reflexivity|].
  simpl. apply IH.
Qed.










(** What a change of an area that keeps its identifier, its leads' user
    ids and its members, but for [sender] who may join, does to the
    lookups. *)
Section SelfService.

Variable sender : string.
Variable f : area -> area.
Hypothesis f_id : forall x, id (f x) = id x.
Hypothesis f_leads :
  forall x, List.map userId (or_empty (leads (f x))) = List.map userId (or_empty (leads x)).
Hypothesis f_keeps : forall x u, In u (member_ids x) -> In u (member_ids (f x)).
Hypothesis f_adds :
  forall x u, In u (member_ids (f x)) -> In u (member_ids x) \/ u = sender.

Lemma lead_view_update (i : string) (areas : store) :
  lead_view (update_first (has_id i) f areas) = lead_view areas.
Proof using f_id f_leads.
  unfold lead_view. induction areas as [|x r IH]; simpl; [reflexivity|].
  destruct (has_id i x); simpl; [now rewrite f_id, f_leads | now rewrite IH].
Qed.

Lemma find_update (i j : string) (areas : store) :
  getKnowledgeAreaById j (update_first (has_id i) f areas)
  = match getKnowledgeAreaById j areas with
    | Some a => Some (if String.eqb i j then f a else a)
    | None => None
    end.
Proof using f_id.
  assert (Hf : forall x, has_id j (f x) = has_id j x)
    by (intros x; unfold has_id; now rewrite f_id).
  unfold getKnowledgeAreaById. induction areas as [|x r IH]; simpl; [reflexivity|].
  destruct (has_id i x) eqn:Hi; simpl.
  - rewrite Hf. destruct (has_id j x) eqn:Hj.
    + unfold has_id in Hi, Hj. apply String.eqb_eq in Hi, Hj.
      assert (Hij : String.eqb i j = true) by (apply String.eqb_eq; congruence).
      now rewrite Hij.
    + assert (Hij : String.eqb i j = false).
      { unfold has_id in Hi, Hj. apply String.eqb_neq. apply String.eqb_eq in Hi.
        apply String.eqb_neq in Hj. congruence. }
      rewrite Hij. destruct (find (has_id j) r); reflexivity.
  - destruct (has_id j x) eqn:Hj; [|exact IH].
    assert (Hij : String.eqb i j = false).
    { unfold has_id in Hi, Hj. apply String.eqb_neq. apply String.eqb_eq in Hj.
      apply String.eqb_neq in Hi. congruence. }
    now rewrite Hij.
Qed.

Lemma members_update (i j : string) (areas : store) (u : string) :
  (In u (getAllMemberUserIds j areas) ->
   In u (getAllMemberUserIds j (update_first (has_id i) f areas)))
  /\ (In u (getAllMemberUserIds j (update_first (has_id i) f areas)) ->
      In u (getAllMemberUserIds j areas) \/ u = sender).
Proof using f_id f_keeps f_adds.
  unfold getAllMemberUserIds. rewrite find_update.
  destruct (getKnowledgeAreaById j areas) as [a|]; [|tauto].
  destruct (String.eqb i j); [|tauto].
  split; [apply f_keeps | apply f_adds].
Qed.

End SelfService.

Lemma lead_view_saveRoster (areas : store) : lead_view (saveRoster areas) = lead_view areas.
Proof.
  unfold lead_view, saveRoster. rewrite List.map_map. reflexivity.
Qed.

Lemma members_saveRoster (j : string) (areas : store) :
  getAllMemberUserIds j (saveRoster areas) = getAllMemberUserIds j areas.
Proof.
  unfold getAllMemberUserIds. rewrite find_saveRoster.
  destruct (getKnowledgeAreaById j areas); reflexivity.
Qed.

Lemma only_joined_refl (sender : string) (areas : store) : only_joined sender areas areas.
Proof. unfold only_joined. auto. Qed.

Lemma only_joined_trans (sender : string) (a b c : store) :
  only_joined sender a b -> only_joined sender b c -> only_joined sender a c.
Proof.
  intros (H1 & H2 & H3) (H1' & H2' & H3'). split; [congruence|]. split.
  - intros j u H. apply H2', H2, H.
  - intros j u H. destruct (H3' j u H) as [H' | ->]; [apply H3, H' | now right].
Qed.

Lemma only_joined_update (sender i : string) (f : area -> area) (areas : store) :
  (forall x, id (f x) = id x) ->
  (forall x, List.map userId (or_empty (leads (f x)))
             = List.map userId (or_empty (leads x))) ->
  (forall x u, In u (member_ids x) -> In u (member_ids (f x))) ->
  (forall x u, In u (member_ids (f x)) -> In u (member_ids x) \/ u = sender) ->
  only_joined sender areas (update_first (has_id i) f areas)
  /\ only_joined sender areas (saveRoster (update_first (has_id i) f areas)).
Proof.
  intros Hid Hl Hk Ha.
  assert (H : only_joined sender areas (update_first (has_id i) f areas)).
  { split; [now apply lead_view_update|].
    split; intros j u; now apply (members_update sender f Hid Hk Ha i j areas u). }
  split; [exact H|]. destruct H as (H1 & H2 & H3).
  split; [now rewrite lead_view_saveRoster|].
  split; intros j u; rewrite members_saveRoster; auto.
Qed.

Lemma leads_change_member (u : string) (f : member -> member) (x : area) :
  (forall m, userId (f m) = userId m) ->
  List.map userId (or_empty (leads (change_member u f x)))
  = List.map userId (or_empty (leads x)).
Proof.
  intros Hf. unfold change_member.
  destruct (find (has_user u) (or_empty (leads x))).
  - cbn [set_roster leads or_empty]. now apply ids_update_first.
  - destruct (find (has_user u) (or_empty (teamMembers x))); reflexivity.
Qed.

Lemma self_service_step (sender : string) (o : op) (areas : store) :
  self_service sender o -> only_joined sender areas (snd (apply_op o areas)).
Proof.
  intros [Hu Hk].
  destruct o as [i u d t | i u d b t | i u t | i u t t' | i u t t' | i u d t t' | i u t];
    try contradiction; cbn [user_of] in Hu; subst u; cbn [apply_op].
  - unfold addTeamMember.
    destruct (getKnowledgeAreaById i areas) as [a|]; [|apply only_joined_refl].
    destruct (_ || _); cbn [snd].
    + apply (only_joined_update sender i normalize_arrays areas); auto.
    + apply (only_joined_update sender i (push_team_member sender d b t) areas).
      * reflexivity.
      * reflexivity.
      * intros x u. unfold member_ids.
        cbn [push_team_member set_roster leads teamMembers or_empty].
        rewrite List.map_app, !in_app_iff. tauto.
      * intros x u. unfold member_ids.
        cbn [push_team_member set_roster leads teamMembers or_empty].
        rewrite List.map_app, !in_app_iff. cbn [List.map userId In]. intuition.
  - unfold updateMemberDescription.
    destruct (getKnowledgeAreaById i areas) as [a|]; [|apply only_joined_refl].
    destruct (or_else _ _); [|apply only_joined_refl]. cbn [snd].
    assert (Hids : forall x,
      member_ids (set_updatedAt t' (change_member sender (describe d t) x)) = member_ids x).
    { intros x.
      change (member_ids (set_updatedAt t' (change_member sender (describe d t) x)))
        with (member_ids (change_member sender (describe d t) x)).
      now apply member_ids_change_member. }
    apply (only_joined_update sender i
             (fun x => set_updatedAt t' (change_member sender (describe d t) x)) areas).
    + intros x. cbn [set_updatedAt set_roster id]. unfold change_member.
      destruct (find _ _); [reflexivity|]. destruct (find _ _); reflexivity.
    + intros x. cbn [set_updatedAt set_roster leads]. now apply leads_change_member.
    + intros x u. now rewrite Hids.
    + intros x u. rewrite Hids. now left.
Qed.

Lemma self_service_run (sender : string) (ops : list op) (areas : store) :
  Forall (self_service sender) ops -> only_joined sender areas (run ops areas).
Proof.
  intros Hall. revert areas.
  induction Hall as [|o r Ho _ IH]; intros areas; [apply only_joined_refl|].
  simpl. eapply only_joined_trans; [apply self_service_step, Ho | apply IH].
Qed.

Lemma evolve_description_run (sender areaId : string) (r : intent)
    (evolve : string -> string -> outcome evolution) (clock : string * string)
    (a : area) (updated : list string) (areas : store) :
  exists ops,
    snd (evolve_description sender areaId r evolve clock a updated areas) = run ops areas
    /\ Forall (self_service sender) ops.
Proof.
  assert (Hnone : exists ops, areas = run ops areas /\ Forall (self_service sender) ops)
    by (exists []; split; [reflexivity | constructor]).
  assert (Hserv : forall d t t',
            self_service sender (UpdateMemberDescription areaId sender d t t'))
    by (intros; split; [reflexivity | exact I]).
  unfold evolve_description.
  destruct (truthy (expertise_description r)); [|exact Hnone].
  destruct (getMember areaId sender areas); [|exact Hnone].
  destruct (evolve _ _) as [[changed upd]|e].
  - destruct (changed && truthy upd); [|exact Hnone].
    destruct (updateMemberDescription areaId sender (or_blank upd) (fst clock) (snd clock)
                                      areas) as [[res|e] areas1] eqn:E1.
    + exists [UpdateMemberDescription areaId sender (or_blank upd) (fst clock) (snd clock)].
      split; [simpl; now rewrite E1 | repeat constructor; apply Hserv].
    + destruct (updateMemberDescription areaId sender (or_blank (expertise_description r))
                                        (fst clock) (snd clock) areas1)
        as [[res|e2] areas2] eqn:E2;
        (exists [UpdateMemberDescription areaId sender (or_blank upd) (fst clock) (snd clock);
                 UpdateMemberDescription areaId sender
                   (or_blank (expertise_description r)) (fst clock) (snd clock)];
         split; [simpl; now rewrite E1; cbn [snd]; rewrite E2
                | repeat constructor; apply Hserv]).
  - destruct (updateMemberDescription areaId sender (or_blank (expertise_description r))
                                      (fst clock) (snd clock) areas)
      as [[res|e2] areas2] eqn:E2;
      (exists [UpdateMemberDescription areaId sender
                 (or_blank (expertise_description r)) (fst clock) (snd clock)];
       split; [simpl; now rewrite E2 | repeat constructor; apply Hserv]).
Qed.

Lemma self_register_run (sender : string) (r : intent)
    (evolve : string -> string -> outcome evolution) (clock : nat -> string * string)
    (k : nat) (areaIds : list string) (added updated : list string) (areas : store) :
  exists ops,
    snd (self_register sender r evolve clock k areaIds added updated areas) = run ops areas
    /\ Forall (self_service sender) ops.
Proof.
  revert k added updated areas.
  induction areaIds as [|areaId rest IH]; intros k added updated areas.
  - exists []. split; [reflexivity | constructor].
  - cbn [self_register].
    destruct (getKnowledgeAreaById areaId areas) as [a|]; [|apply IH].
    destruct (isTeamMemberForArea sender areaId areas).
    + destruct (evolve_description_run sender areaId r evolve (clock k) a updated areas)
        as (ops1 & H1 & Hs1).
      destruct (evolve_description sender areaId r evolve (clock k) a updated areas)
        as [[updated'|e] areas1]; cbn [snd] in H1; subst areas1.
      * destruct (IH (S k) added updated' (run ops1 areas)) as (ops2 & H2 & Hs2).
        exists (ops1 ++ ops2)%list. split; [now rewrite run_app|].
        apply Forall_app. now split.
      * exists ops1. now split.
    + destruct (addTeamMember areaId sender (or_blank (expertise_description r))
                              "self-registered" (fst (clock k)) areas)
        as [[res|e] areas1] eqn:E1.
      * destruct (IH (S k) (added ++ [name a])%list updated areas1) as (ops2 & H2 & Hs2).
        exists (AddTeamMember areaId sender (or_blank (expertise_description r))
                              "self-registered" (fst (clock k)) :: ops2).
        split; [simpl; now rewrite E1|].
        constructor; [split; [reflexivity | exact I] | exact Hs2].
      * exists [AddTeamMember areaId sender (or_blank (expertise_description r))
                              "self-registered" (fst (clock k))].
        split; [simpl; now rewrite E1|].
        repeat constructor.
Qed.

Lemma lead_view_lookup (j : string) (areas : store) :
  getLeadUserIds j areas
  = match find (fun e : string * list string => String.eqb (fst e) j) (lead_view areas) with
    | Some e => snd e
    | None => []
    end.
Proof.
  unfold getLeadUserIds, getKnowledgeAreaById, lead_view, has_id.
  induction areas as [|x r IH]; simpl; [reflexivity|].
  destruct (String.eqb (id x) j); [reflexivity | exact IH].
Qed.

Lemma lead_view_any (u : string) (areas : store) :
  isLeadForAnyArea u areas = None
  <-> forall e, In e (lead_view areas) -> ~ In u (snd e).
Proof.
  unfold isLeadForAnyArea, lead_view. induction areas as [|x r IH]; simpl.
  - split; [intros _ e [] | reflexivity].
  - destruct (some_user u (or_empty (leads x))) eqn:Hx.
    + split; [discriminate|]. intros H. exfalso.
      apply (H (id x, List.map userId (or_empty (leads x)))); [now left|].
      now apply some_user_ids.
    + rewrite IH. apply some_user_false in Hx. split.
      * intros H e [<- | He]; [exact Hx | now apply H].
      * intros H e He. apply H. now right.
Qed.

(** X23. Self-registration never changes who leads. Whatever areas the
    message was matched to and whatever the description oracle answers,
    after [handleDmSelfRegistration] every area has the leads it had, a
    user leads some area exactly if they did before, nobody has left a
    roster, and the only user who may have joined one is the sender. *)
Theorem self_registration_only_joins (sender : string) (r : intent)
    (evolve : string -> string -> outcome evolution) (clock : nat -> string * string)
    (areas : store) :
  let areas' := snd (handleDmSelfRegistration sender r evolve clock areas) in
  lead_view areas' = lead_view areas
  /\ (forall j, getLeadUserIds j areas' = getLeadUserIds j areas)
  /\ (forall u, isLeadForAnyArea u areas' = None <-> isLeadForAnyArea u areas = None)
  /\ (forall j u, In u (getAllMemberUserIds j areas) -> In u (getAllMemberUserIds j areas'))
  /\ (forall j u, In u (getAllMemberUserIds j areas') ->
                  In u (getAllMemberUserIds j areas) \/ u = sender).
Proof.
  intros areas'. subst areas'. unfold handleDmSelfRegistration.
  destruct (self_register_run sender r evolve clock 0 (matched_self_reg_area_ids r)
                              [] [] areas) as (ops & -> & Hs).
  destruct (self_service_run sender ops areas Hs) as (Hv & Hk & Ha).
  split; [exact Hv|]. split; [|split; [|split; assumption]].
  - intros j. now rewrite !lead_view_lookup, Hv.
  - intros u. now rewrite !lead_view_any, Hv.
Qed.

End RosterRequests.

(** ** The periodic sweeps *)

Section Sweeps.

Import Js Sweep.

(** Records found and changed by their identifier. *)
Section ById.

Variable A : Type.
Variable ident : A -> string.
Variable has_id : string -> A -> bool.
Hypothesis has_id_spec : forall i a, has_id i a = String.eqb (ident a) i.

Lemma find_update_other (i j : string) (g : A -> A) (l : list A) :
  (forall x, ident (g x) = ident x) -> i <> j ->
  find (has_id i) (update_first (has_id j) g l) = find (has_id i) l.
Proof using has_id_spec.
  intros Hg Hne. induction l as [|x r IH]; simpl; [reflexivity|].
  destruct (has_id j x) eqn:Hj; simpl.
  - rewrite !has_id_spec, Hg. rewrite has_id_spec in Hj. apply String.eqb_eq in Hj.
    assert (Hi : String.eqb (ident x) i = false) by (apply String.eqb_neq; congruence).
    now rewrite Hi.
  - destruct (has_id i x); [reflexivity | exact IH].
Qed.

Lemma find_update_same (i : string) (g : A -> A) (l : list A) (x : A) :
  (forall x, ident (g x) = ident x) ->
  find (has_id i) l = Some x ->
  find (has_id i) (update_first (has_id i) g l) = Some (g x).
Proof using has_id_spec.
  intros Hg. apply find_update_first. intros y Hy.
  rewrite has_id_spec in *. now rewrite Hg.
Qed.

Lemma ids_update (i : string) (g : A -> A) (l : list A) :
  (forall x, ident (g x) = ident x) ->
  List.map ident (update_first (has_id i) g l) = List.map ident l.
Proof.
  intros Hg. induction l as [|x r IH]; simpl; [reflexivity|].
  destruct (has_id i x); simpl; [now rewrite Hg | now rewrite IH].
Qed.

Lemma find_distinct (l : list A) (a : A) :
  List.NoDup (List.map ident l) -> In a l -> find (has_id (ident a)) l = Some a.
Proof using has_id_spec.
  induction l as [|x r IH]; simpl; [tauto|].
  intros Hnd Hin. inversion Hnd as [|? ? Hx Hr]; subst.
  rewrite has_id_spec. destruct Hin as [-> | Hin].
  - now rewrite String.eqb_refl.
  - destruct (String.eqb (ident x) (ident a)) eqn:E; [|now apply IH].
    apply String.eqb_eq in E. exfalso. apply Hx. rewrite E. now apply in_map.
Qed.

Lemma NoDup_map_filter (p : A -> bool) (l : list A) :
  List.NoDup (List.map ident l) -> List.NoDup (List.map ident (List.filter p l)).
Proof.
  induction l as [|x r IH]; simpl; [trivial|].
  intros Hnd. inversion Hnd as [|? ? Hx Hr]; subst.
  destruct (p x); simpl; [|now apply IH].
  constructor; [|now apply IH].
  intros Hin. apply Hx. apply in_map_iff in Hin. destruct Hin as (y & Hy & Hin).
  apply filter_In in Hin. apply in_map_iff. exists y. tauto.
Qed.

End ById.

Lemma answer_has_id (i : string) (a : Answer.answer) :
  Answer.has_id i a = String.eqb (Answer.id a) i.
Proof. reflexivity. Qed.

(** What the loop does with one tracked answer that is still as it was
    in the snapshot. *)
Lemma process_answer_cases (w : world) (a : Answer.answer) (st : Answer.store * Dm.state) :
  Answer.getFaqAnswerById (Answer.id a) (fst st) = Some a ->
  exists a',
    answer_outcome w a a'
    /\ ((fst (process_answer w a st) = fst st /\ a' = a
         /\ snd (process_answer w a st) = snd st)
        \/ exists g,
             (forall x, Answer.id (g x) = Answer.id x)
             /\ fst (process_answer w a st)
                = update_first (Answer.has_id (Answer.id a)) g (fst st)
             /\ a' = g a
             /\ (snd (process_answer w a st) = snd st
                 \/ exists info, a' = Answer.set_corrected (clock w (Answer.id a)) info a)).
Proof.
  intros Hfind.
  assert (Hmark : forall info,
    exists a',
      answer_outcome w a a'
      /\ ((snd (Answer.markAnswerProcessed (Answer.id a) info (clock w (Answer.id a))
                                           (fst st)) = fst st
           /\ a' = a /\ snd st = snd st)
          \/ exists g,
               (forall x, Answer.id (g x) = Answer.id x)
               /\ snd (Answer.markAnswerProcessed (Answer.id a) info (clock w (Answer.id a))
                                                  (fst st))
                  = update_first (Answer.has_id (Answer.id a)) g (fst st)
               /\ a' = g a
               /\ (snd st = snd st
                   \/ exists info', a' = Answer.set_corrected (clock w (Answer.id a)) info' a))).
  { intros info. eexists. split; [apply (AnswerProcessed w a info)|]. right.
    exists (Answer.set_processed (clock w (Answer.id a)) info).
    split; [reflexivity|]. split; [|split; [reflexivity | now left]].
    unfold Answer.markAnswerProcessed. now rewrite Hfind. }
  unfold process_answer.
  destruct (area_of_record w (Answer.productAreaId a)) as [[[owners areaName] page]|] eqn:Harea;
    [|apply Hmark].
  destruct (replies w (Answer.channel a) (Answer.threadTs a)) as [messages|e] eqn:Hrep.
  2:{ exists a. split; [|left; auto].
      eapply AnswerLeft; [exact Harea | left; exact Hrep]. }
  destruct (ownerReplies owners a messages) as [|r0 rs] eqn:Hown; [apply Hmark|].
  destruct (checkIfCorrection w a (r0 :: rs)) as [res|e] eqn:Hcheck.
  2:{ exists a. split; [|left; auto].
      eapply AnswerLeft; [exact Harea|]. right. exists messages.
      split; [exact Hrep | rewrite Hown; exact Hcheck]. }
  destruct (is_correction res) eqn:Hcorr; [|apply Hmark].
  eexists. split.
  - rewrite <- Hown in Hcheck.
    exact (AnswerCorrected w a owners areaName page messages res Harea Hrep Hcheck Hcorr).
  - right. exists (Answer.set_corrected (clock w (Answer.id a))
                     (correction_info_of (r0 :: rs) res)).
    split; [reflexivity|]. cbn [fst snd].
    split; [unfold Answer.markAnswerCorrected; now rewrite Hfind|].
    rewrite Hown. split; [reflexivity|]. right. eexists. reflexivity.
Qed.

Lemma sweep_answers (w : world) (l : list Answer.answer) (st : Answer.store * Dm.state) :
  List.NoDup (List.map Answer.id l) ->
  (forall a, In a l -> Answer.getFaqAnswerById (Answer.id a) (fst st) = Some a) ->
  let out := fold_left (fun st a => process_answer w a st) l st in
  (forall a, In a l ->
     exists a', Answer.getFaqAnswerById (Answer.id a) (fst out) = Some a'
                /\ answer_outcome w a a')
  /\ (forall i, (forall a, In a l -> Answer.id a <> i) ->
        Answer.getFaqAnswerById i (fst out) = Answer.getFaqAnswerById i (fst st))
  /\ List.map Answer.id (fst out) = List.map Answer.id (fst st)
  /\ (snd out = snd st
      \/ exists a info,
           In a l
           /\ Answer.getFaqAnswerById (Answer.id a) (fst out)
              = Some (Answer.set_corrected (clock w (Answer.id a)) info a)).
Proof.
  revert st. induction l as [|a r IH]; intros st Hnd Hfind.
  - intros out. subst out. cbn [fold_left].
    split; [intros a []|]. split; [reflexivity|]. split; [reflexivity | now left].
  - intros out. cbn [fold_left] in out.
    inversion Hnd as [|? ? Ha Hr]; subst.
    set (st1 := process_answer w a st) in *.
    destruct (process_answer_cases w a st (Hfind a (or_introl eq_refl)))
      as (a' & Hout & Hcases).
    assert (Hids : forall b, In b r -> Answer.id b <> Answer.id a).
    { intros b Hb E. apply Ha. rewrite <- E. now apply in_map. }
    assert (Hst1 : (forall i, i <> Answer.id a ->
                      Answer.getFaqAnswerById i (fst st1)
                      = Answer.getFaqAnswerById i (fst st))
                   /\ Answer.getFaqAnswerById (Answer.id a) (fst st1) = Some a'
                   /\ List.map Answer.id (fst st1) = List.map Answer.id (fst st)).
    { fold st1 in Hcases.
      destruct Hcases as [(-> & -> & _) | (g & Hg & -> & -> & _)].
      - split; [reflexivity|]. split; [now apply Hfind; left | reflexivity].
      - split; [|split].
        + intros i Hi. unfold Answer.getFaqAnswerById.
          now apply (find_update_other _ Answer.id Answer.has_id answer_has_id).
        + unfold Answer.getFaqAnswerById.
          apply (find_update_same _ Answer.id Answer.has_id answer_has_id); [exact Hg|].
          apply Hfind. now left.
        + now apply ids_update. }
    destruct Hst1 as (Hother & Hself & Hmap).
    destruct (IH st1 Hr) as (Hsettled & Hframe & Hmap' & Hdm).
    { intros b Hb. rewrite Hother; [apply Hfind; now right | now apply Hids]. }
    fold out in Hsettled, Hframe, Hmap', Hdm.
    assert (Hself' : Answer.getFaqAnswerById (Answer.id a) (fst out) = Some a').
    { rewrite Hframe; [exact Hself|]. intros b Hb. now apply Hids. }
    split; [|split; [|split]].
    + intros b [<- | Hb]; [exists a'; now split | now apply Hsettled].
    + intros i Hi. rewrite Hframe by (intros b Hb; apply Hi; now right).
      apply Hother. intros ->. now apply (Hi a); [left|].
    + congruence.
    + destruct Hdm as [Hdm | (b & info & Hb & Hcorr)].
      * fold st1 in Hcases.
        destruct Hcases as [(_ & _ & Hsame) | (g & _ & _ & Ha' & [Hsame | (info & Hinfo)])].
        -- left. congruence.
        -- left. congruence.
        -- right. exists a, info. split; [now left|]. now rewrite Hself', Hinfo.
      * right. exists b, info. split; [now right | exact Hcorr].
Qed.

(** X24. The sweep over the tracked answers settles each due answer by
    itself. With distinct identifiers, after [checkPendingCorrections]
    every answer that was due is processed, or corrected on the language
    model's judgement of the owners' replies, or, when fetching the
    thread or the judgement threw, exactly as it was, to be taken up by
    the next sweep; a failure for one answer does not keep the others
    from being settled. Every other record is untouched, no record is
    added or removed, and the pending actions of the conversation
    handler change only if some answer was marked corrected. *)
Theorem checkPendingCorrections_settles (w : world) (now : Z)
    (answers : Answer.store) (dm : Dm.state) :
  distinct_answers answers ->
  let out := checkPendingCorrections w now (answers, dm) in
  (forall a, In a (Answer.getAnswersReadyToProcess now answers) ->
     exists a', Answer.getFaqAnswerById (Answer.id a) (fst out) = Some a'
                /\ answer_outcome w a a')
  /\ (forall i, (forall a, In a (Answer.getAnswersReadyToProcess now answers) ->
                           Answer.id a <> i) ->
        Answer.getFaqAnswerById i (fst out) = Answer.getFaqAnswerById i answers)
  /\ List.map Answer.id (fst out) = List.map Answer.id answers
  /\ (snd out = dm
      \/ exists a info,
           In a (Answer.getAnswersReadyToProcess now answers)
           /\ Answer.getFaqAnswerById (Answer.id a) (fst out)
              = Some (Answer.set_corrected (clock w (Answer.id a)) info a)).
Proof.
  intros Hnd. unfold checkPendingCorrections. cbn [fst].
  apply (sweep_answers w (Answer.getAnswersReadyToProcess now answers) (answers, dm)).
  - unfold Answer.getAnswersReadyToProcess. now apply NoDup_map_filter.
  - intros a Ha. cbn [fst]. unfold Answer.getFaqAnswerById.
    apply (find_distinct _ Answer.id Answer.has_id answer_has_id); [exact Hnd|].
    unfold Answer.getAnswersReadyToProcess in Ha. now apply filter_In in Ha.
Qed.

(** The sample answer is judged corrected; the thread of the other
    answer cannot be fetched, which does not keep the first from being
    settled. *)
Lemma sample_answer_settled :
  exists a',
    Answer.getFaqAnswerById "ans_1"
      (fst (checkPendingCorrections Sample.sweep_world 40000
              ([Sample.general_answered; Sample.answered], Dm.initial ∅)))
    = Some a'
    /\ answer_outcome Sample.sweep_world Sample.answered a'.
Proof.
  assert (Hnd : distinct_answers [Sample.general_answered; Sample.answered])
    by (repeat constructor; cbn; intuition discriminate).
  apply (proj1 (checkPendingCorrections_settles Sample.sweep_world 40000
                  [Sample.general_answered; Sample.answered] (Dm.initial ∅) Hnd)
               Sample.answered).
  vm_compute. right. left. reflexivity.
Defined.







End Sweeps.

(** ** Events seen, and replies in a handled thread *)

Section ThreadReplies.

Import Js Helpers Thread.

(** X26. [alreadySeen] remembers a key from its first report for
    [ttlMs] milliseconds, and no longer. Once a key was reported as new
    at a time, a later call within [ttlMs] of that time says it was
    seen, and leaves the recorded time as it is: repeats do not extend
    the window. A call later than that finds the key forgotten and
    records it anew. The other keys are never added to, and are kept
    exactly while they are at most [ttlMs] old. *)
Theorem alreadySeen_remembers_first_report (key : string) (ttlMs t1 : Z)
    (seen : gmap string Z) :
  fst (alreadySeen key ttlMs t1 seen) = false ->
  let seen1 := snd (alreadySeen key ttlMs t1 seen) in
  seen1 !! key = Some t1
  /\ (forall t2,
        (t2 - t1 <= ttlMs ->
         fst (alreadySeen key ttlMs t2 seen1) = true
         /\ snd (alreadySeen key ttlMs t2 seen1) !! key = Some t1)
        /\ (ttlMs < t2 - t1 ->
            fst (alreadySeen key ttlMs t2 seen1) = false
            /\ snd (alreadySeen key ttlMs t2 seen1) !! key = Some t2))
  /\ (forall k t, k <> key ->
        (seen1 !! k = Some t <-> seen !! k = Some t /\ t1 - t <= ttlMs)).
Proof.
  unfold alreadySeen at 1 2.
  set (kept := filter (fun kv : string * Z => (ttlMs <? t1 - kv.2) = false) seen).
  destruct (kept !! key) as [t0|] eqn:Hkey; [discriminate|]. intros _. cbn [snd].
  split; [apply lookup_insert_eq|]. split.
  - intros t2. unfold alreadySeen.
    set (kept2 := filter (fun kv : string * Z => (ttlMs <? t2 - kv.2) = false)
                         (<[key:=t1]> kept)).
    split; intros Ht.
    + assert (H2 : kept2 !! key = Some t1).
      { apply map_lookup_filter_Some_2; [apply lookup_insert_eq|].
        cbn. apply Z.ltb_ge. lia. }
      rewrite H2. now split.
    + assert (H2 : kept2 !! key = None).
      { apply map_lookup_filter_None_2. right. intros t.
        rewrite lookup_insert_eq. intros [= <-]. cbn.
        assert ((ttlMs <? t2 - t1) = true) by (apply Z.ltb_lt; lia). congruence. }
      rewrite H2. cbn [fst snd]. split; [reflexivity | apply lookup_insert_eq].
  - intros k t Hk. rewrite lookup_insert_ne by congruence.
    subst kept. rewrite map_lookup_filter_Some. cbn. rewrite Z.ltb_ge. reflexivity.
Qed.

(** A delivery at time 1000, repeated after four minutes and again after
    six. *)
Lemma repeated_delivery :
  fst (alreadySeen "dm:D1:17.1" SEEN_TTL_MS 241000
         (snd (alreadySeen "dm:D1:17.1" SEEN_TTL_MS 1000 ∅))) = true
  /\ fst (alreadySeen "dm:D1:17.1" SEEN_TTL_MS 361000
            (snd (alreadySeen "dm:D1:17.1" SEEN_TTL_MS 1000 ∅))) = false.
Proof.
  pose proof (alreadySeen_remembers_first_report "dm:D1:17.1" SEEN_TTL_MS 1000 ∅ eq_refl)
    as (_ & H & _).
  split.
  - apply (proj1 (H 241000)). unfold SEEN_TTL_MS. lia.
  - apply (proj2 (H 361000)). unfold SEEN_TTL_MS. lia.
Defined.








End ThreadReplies.
